(** * macc.js — Marginal Abatement Cost Curve visualisation

    A shallow embedding of [src/macc.js] (a Looker Studio community
    visualisation) and the properties of its rendering pipeline:
    rows -> normalised items -> sorted and accumulated items -> scales ->
    drawn shapes.

    JavaScript numbers are IEEE-754 binary64 values; they are embedded as
    Rocq's primitive [float], whose operations are the processor's and whose
    specification ([FloatAxioms]) relates them to [SpecFloat]. *)

From Stdlib Require Import ZArith List String Ascii Bool Floats Lia.
From Stdlib Require Import Sorting.Permutation Sorting.Sorted.
Import ListNotations.

Local Open Scope string_scope.
Local Open Scope list_scope.
Set Warnings "-register-all,-inexact-float".

(* ===================================================================== *)
(** * JavaScript values and the built-in operations the script uses      *)
(* ===================================================================== *)

Module JS.

(** The values that reach the script: primitives, arrays and plain data
    objects (what the host delivers by structured clone). *)
Inductive value : Type :=
| VUndefined
| VNull
| VBool (b : bool)
| VNum (x : float)
| VStr (s : string)
| VArr (elems : list value)
| VObj (props : list (string * value)).

(** Operations of the language whose result depends on the engine's
    numeric parser and printers are taken from the host. *)
Record Builtins : Type := {
  (** the abstract operation StringToNumber of ECMA-262 *)
  StringToNumber : string -> float;
  (** Number::toString *)
  NumberToString : float -> string;
  (** [x.toLocaleString(undefined, {minimumFractionDigits: d,
      maximumFractionDigits: d})]; [None] is the RangeError thrown for a
      digit count outside the range the engine accepts *)
  toLocaleString : float -> float -> option string
}.

(** [x == null] *)
Definition nullish (v : value) : bool :=
  match v with
  | VUndefined | VNull => true
  | _ => false
  end.

(** ToBoolean for a number: [0], [-0] and [NaN] are falsy. *)
Definition num_truthy (x : float) : bool := negb (is_zero x || is_nan x).

(** ToBoolean. *)
Definition truthy (v : value) : bool :=
  match v with
  | VUndefined | VNull => false
  | VBool b => b
  | VNum x => num_truthy x
  | VStr s => negb (String.eqb s EmptyString)
  | VArr _ | VObj _ => true
  end.

(** [a || b] *)
Definition or_else (a b : value) : value := if truthy a then a else b.

(** [a ?? b] *)
Definition coalesce (a b : value) : value := if nullish a then b else a.

Fixpoint lookup (key : string) (props : list (string * value)) : value :=
  match props with
  | [] => VUndefined
  | (k, v) :: rest => if String.eqb k key then v else lookup key rest
  end.

(** [v[key]] for a key that is not an array index or a built-in property
    ([value], [defaultValue], [color], the style keys); only applied to
    values that are not [null] or [undefined]. *)
Definition get (v : value) (key : string) : value :=
  match v with
  | VObj props => lookup key props
  | _ => VUndefined
  end.

(** [v[0]] *)
Definition index0 (v : value) : value :=
  match v with
  | VArr (x :: _) => x
  | VStr (String c _) => VStr (String c EmptyString)
  | VObj props => lookup "0" props
  | _ => VUndefined
  end.

Section WithBuiltins.
Variable B : Builtins.

(** ToString; an array is joined with commas, [null] and [undefined]
    elements printing as the empty string. *)
Fixpoint ToString (v : value) : string :=
  match v with
  | VUndefined => "undefined"
  | VNull => "null"
  | VBool true => "true"
  | VBool false => "false"
  | VNum x => NumberToString B x
  | VStr s => s
  | VArr elems =>
      (fix join (l : list value) : string :=
         match l with
         | [] => EmptyString
         | [x] => if nullish x then EmptyString else ToString x
         | x :: rest =>
             String.append (if nullish x then EmptyString else ToString x)
                           (String.append "," (join rest))
         end) elems
  | VObj _ => "[object Object]"
  end.

(** ToNumber, as called by [Number(v)]. *)
Definition ToNumber (v : value) : float :=
  match v with
  | VUndefined => nan
  | VNull => zero
  | VBool true => one
  | VBool false => zero
  | VNum x => x
  | VStr s => StringToNumber B s
  | VArr _ => StringToNumber B (ToString v)
  | VObj _ => nan
  end.

(** [a + b] when [a] is a string. *)
Definition concat (a : string) (b : value) : string :=
  String.append a (ToString b).

End WithBuiltins.

(** The global [isFinite] and [isNaN] on a number. *)
Definition isFinite (x : float) : bool := is_finite x.
Definition isNaN (x : float) : bool := is_nan x.

Definition is_negzero (x : float) : bool :=
  match classify x with NZero => true | _ => false end.
Definition is_poszero (x : float) : bool :=
  match classify x with PZero => true | _ => false end.

(** [Math.min(...xs)] (ECMA-262, 21.3.2.25): [NaN] if any argument is
    [NaN]; the running minimum starts at [+Infinity]; for each number, if it
    is [-0] and the minimum is [+0] the minimum becomes [-0], and if it is
    less than the minimum it becomes the minimum. *)
Definition lower (lowest number : float) : float :=
  let lowest := if is_negzero number && is_poszero lowest then neg_zero else lowest in
  if (number <? lowest)%float then number else lowest.
Fixpoint min_from (lowest : float) (xs : list float) : float :=
  match xs with
  | [] => lowest
  | number :: rest =>
      if is_nan number then nan else min_from (lower lowest number) rest
  end.
Definition Math_min (xs : list float) : float := min_from infinity xs.

(** [Math.max(...xs)], the mirror image. *)
Definition higher (highest number : float) : float :=
  let highest := if is_poszero number && is_negzero highest then zero else highest in
  if (highest <? number)%float then number else highest.
Fixpoint max_from (highest : float) (xs : list float) : float :=
  match xs with
  | [] => highest
  | number :: rest =>
      if is_nan number then nan else max_from (higher highest number) rest
  end.
Definition Math_max (xs : list float) : float := max_from neg_infinity xs.

Definition Math_abs (x : float) : float := abs x.

(** The digit count that [toLocaleString] reads from the options
    [minimumFractionDigits] and [maximumFractionDigits] (ECMA-402,
    DefaultNumberOption with the bounds 0 and 100): a [RangeError], here
    [None], for [NaN] and for a number outside the bounds; otherwise the
    number rounded down to an integer. *)
Definition fraction_digits (digits : float) : option Z :=
  if is_nan digits || (digits <? zero)%float || (100 <? digits)%float then None
  else match Prim2SF digits with
       | S754_finite false m e => Some (Z.shiftl (Zpos m) e)
       | _ => Some 0%Z
       end.

(** [Array.prototype.sort(comparefn)].  ECMA-262 requires a stable sort and
    reads a [NaN] result of [comparefn] as [+0]; the order of the calls is
    left to the engine.  The embedding is the stable insertion sort: an
    element moves behind those it compares strictly greater than.

    For a consistent comparator (here: when no cost is [NaN]) the stable
    ascending order is unique, so this is the result of every engine.  For a
    comparator that is not consistent ECMA-262 leaves the order to the
    implementation: the embedding then gives one admissible rearrangement,
    and only the facts that hold of every rearrangement are stated for
    it. *)
Section Sort.
Context {A : Type}.
Variable comparefn : A -> A -> float.

Fixpoint insert (x : A) (sorted : list A) : list A :=
  match sorted with
  | [] => [x]
  | y :: rest =>
      if (zero <? comparefn x y)%float then y :: insert x rest
      else x :: y :: rest
  end.

Definition sort (l : list A) : list A := fold_right insert [] l.

End Sort.

End JS.

(* ===================================================================== *)
(** * The script                                                         *)
(* ===================================================================== *)

Module Macc.
Import JS.

(** ** Input of a redraw *)

(** A row of [data.tables.DEFAULT] in the host's object format: each
    configured field holds the array of its cell values, or is absent
    ([VUndefined]). *)
Record row : Type := {
  actionDim : value;
  abatementMetric : value;
  costMetric : value;
  categoryDim : value
}.

Record field : Type := { id : value }.

(** The argument of [draw]: [style] is [data.style]; [fields_actionDim] is
    [data.fields.actionDim] and [tables_DEFAULT] is [data.tables.DEFAULT],
    each the empty list when the property is missing. *)
Record data : Type := {
  style : value;
  fields_actionDim : list field;
  tables_DEFAULT : list row
}.

(** ** Chart items *)

(** The object literal built for each row. *)
Record item : Type := {
  action : value;
  abatement : float;
  cost : float;
  category : value
}.

(** The same object once the accumulation has set [x0] and [x1] on it. *)
Record placed : Type := {
  it : item;
  x0 : float;
  x1 : float
}.

Section Script.
Variable B : Builtins.

(** ** Helpers *)

Definition fmtNumber (x : float) (decimals : float) : option string :=
  if isNaN x then Some EmptyString
  else toLocaleString B x decimals.

Definition getStyle (styleObj : value) (key : string) (fallback : value) : value :=
  let v := get styleObj key in
  if negb (truthy v) then fallback
  else
    let vv := get v "value" in
    if negb (nullish vv) then vv
    else coalesce (get v "defaultValue") fallback.

(** ** Data Normalizer (lines 94-100) *)

(** [(cells && cells[0])] *)
Definition first_cell (cells : value) : value :=
  if truthy cells then index0 cells else cells.

Definition item_of_row (r : row) : item :=
  {| action := coalesce (first_cell (actionDim r)) (VStr "—");
     abatement := ToNumber B (coalesce (first_cell (abatementMetric r)) (VNum zero));
     cost := ToNumber B (coalesce (first_cell (costMetric r)) (VNum zero));
     category := coalesce (first_cell (categoryDim r)) VNull |}.

Definition keep (d : item) : bool :=
  isFinite (abatement d) && (zero <? abatement d)%float.

Definition items_of (rows : list row) : list item :=
  filter keep (map item_of_row rows).

(** ** Sorter / Accumulator (lines 110-116) *)

(** [(a, b) => a.cost - b.cost] *)
Definition by_cost (a b : item) : float := (cost a - cost b)%float.

(** [items.reduce((s, d) => s + d.abatement, 0)] *)
Definition total_of (items : list item) : float :=
  fold_left (fun s d => (s + abatement d)%float) items zero.

(** [let acc = 0; items.forEach(d => { d.x0 = acc; d.x1 = acc + d.abatement;
    acc = d.x1; })], started from any [acc]. *)
Fixpoint accumulate (acc : float) (items : list item) : list placed :=
  match items with
  | [] => []
  | d :: rest =>
      let x1 := (acc + abatement d)%float in
      {| it := d; x0 := acc; x1 := x1 |} :: accumulate x1 rest
  end.

(** ** Scale Builder (lines 74-76, 118-125) *)

Definition m_top : float := 28.
Definition m_right : float := 20.
Definition m_bottom : float := 38.
Definition m_left : float := 60.

Definition plot_W (width : float) : float :=
  Math_max [100%float; (width - m_left - m_right)%float].
Definition plot_H (height : float) : float :=
  Math_max [80%float; (height - m_top - m_bottom)%float].

Definition minCost_of (items : list item) : float := Math_min (zero :: map cost items).
Definition maxCost_of (items : list item) : float := Math_max (zero :: map cost items).

(** [(maxCost - minCost || 1)] *)
Definition divisor (minCost maxCost : float) : float :=
  let d := (maxCost - minCost)%float in
  if num_truthy d then d else 1%float.

Definition xScale (totalAbatement W v : float) : float :=
  (m_left + (v / totalAbatement) * W)%float.

Definition yScale (minCost maxCost H v : float) : float :=
  (m_top + (H - (v - minCost) / divisor minCost maxCost * H))%float.

(** ** Renderer *)

(** An element of the document: tag, the attributes and style properties
    set on it (as the values passed, before the DOM prints them), its
    [textContent] when set, and its children in order. *)
Inductive node : Type :=
| Elem (tag : string) (attrs : list (string * value)) (text : option string)
       (children : list node).

(** A stretch of the script that appends children to one parent and may
    throw: the children appended so far, and the result unless it threw. *)
Definition Emit (A : Type) : Type := (list node * option A)%type.

Definition ret {A} (a : A) : Emit A := ([], Some a).
Definition bind {A C} (c : Emit A) (k : A -> Emit C) : Emit C :=
  match c with
  | (out, None) => (out, None)
  | (out, Some a) => let (out', r) := k a in (out ++ out', r)
  end.
(** [parent.appendChild(n)] *)
Definition append (n : node) : Emit unit := ([n], Some tt).
(** a call that returns [a], or throws when it is [None] *)
Definition call {A} (r : option A) : Emit A := ([], r).
(** [parent.appendChild(e)] for a container [e] that the stretch [body]
    then fills. *)
Definition within {A} (e : list node -> node) (body : Emit A) : Emit A :=
  ([e (fst body)], snd body).
(** [xs.forEach(body)], and the counted [for] loops. *)
Fixpoint for_each {A} (xs : list A) (body : A -> Emit unit) : Emit unit :=
  match xs with
  | [] => ret tt
  | x :: rest => bind (body x) (fun _ => for_each rest body)
  end.

Notation "x <- c ;; k" := (bind c (fun x => k))
  (at level 61, c at next level, right associativity).
Notation "c ;;; k" := (bind c (fun _ => k))
  (at level 61, right associativity).

(** The values [0, 1, ..., n] of the counter of [for (let i=0;i<=n;i++)]. *)
Definition num (j : nat) : float := of_uint63 (Uint63.of_Z (Z.of_nat j)).
Definition upto (n : nat) : list float := map num (seq 0 (S n)).

Definition xTicks : nat := 6.
Definition yTicks : nat := 5.

(** What a redraw leaves in the root container, and whether it returned
    or threw. *)
Record outcome : Type := {
  root_children : list node;
  returned : bool
}.

(** The style options read at lines 79-86. *)
Definition styles_of (d : data) : value := or_else (style d) (VObj []).
Definition color_option (styles : value) (key default : string) : value :=
  or_else (get (getStyle styles key (VObj [("color", VStr default)])) "color")
          (VStr default).
Definition posColor_of (d : data) : value := color_option (styles_of d) "posColor" "#4C78A8".
Definition negColor_of (d : data) : value := color_option (styles_of d) "negColor" "#72B7B2".
Definition axisColor_of (d : data) : value := color_option (styles_of d) "axisColor" "#333333".
Definition showLabels_of (d : data) : value := getStyle (styles_of d) "showLabels" (VBool true).
Definition currency_of (d : data) : value := getStyle (styles_of d) "currency" (VStr "R$").
Definition unit_of (d : data) : value := getStyle (styles_of d) "unit" (VStr "tCO2e").
(** [Number(getStyle(styles, 'decimals', 2)) || 2] *)
Definition decimals_option (d : data) : float :=
  ToNumber B (getStyle (styles_of d) "decimals" (VNum 2)).
Definition decimals_of (d : data) : float :=
  if num_truthy (decimals_option d) then decimals_option d else 2%float.

(** [fields['actionDim'] || []], then its first id or [null]. *)
Definition actionFieldId_of (d : data) : value :=
  match fields_actionDim d with
  | [] => VNull
  | f :: _ => id f
  end.

Definition empty_message : string :=
  "Adicione campos válidos: Ação (dimensão), Abatimento (>0, métrica) e Custo marginal (métrica).".

Definition empty_state : node :=
  Elem "div"
    [("style.cssText",
      VStr "display:flex;align-items:center;justify-content:center;width:100%;height:100%;font:14px/1.2 system-ui;color:#666;text-align:center;padding:12px;")]
    (Some empty_message) [].

(** *** The chart of a non-empty item list (lines 110-192) *)

Section Chart.
(** the values [draw] has computed when it starts to build the SVG *)
Variables (W H totalAbatement minCost maxCost : float).
Variables (posColor negColor axisColor currency unit' : value) (decimals : float).

Definition yZero : float := yScale minCost maxCost H zero.

(** lines 137-141 *)
Definition xAxis : node :=
  Elem "line"
    [("x1", VNum m_left); ("y1", VNum yZero);
     ("x2", VNum (m_left + W)%float); ("y2", VNum yZero);
     ("stroke", axisColor); ("stroke-width", VStr "1")]
    None [].

(** the value of the [i]-th quantity tick, line 146 *)
Definition xTick_value (i : float) : float :=
  ((totalAbatement / num xTicks) * i)%float.

Definition xTick_mark (i : float) : node :=
  let x := xScale totalAbatement W (xTick_value i) in
  Elem "line"
    [("x1", VNum x); ("x2", VNum x);
     ("y1", VNum yZero); ("y2", VNum (yZero + 5)%float);
     ("stroke", axisColor)]
    None [].

Definition xTick_label (i : float) (formatted : string) : node :=
  let x := xScale totalAbatement W (xTick_value i) in
  Elem "text"
    [("x", VNum x); ("y", VNum (yZero + 18)%float);
     ("text-anchor", VStr "middle"); ("fill", axisColor)]
    (Some (concat B (String.append formatted " ") unit')) [].

(** the body of the loop at lines 145-159 *)
Definition xTick (i : float) : Emit unit :=
  append (xTick_mark i) ;;;
  formatted <- call (fmtNumber (xTick_value i) 0) ;;
  append (xTick_label i formatted).

(** the value of the [i]-th cost gridline, line 164 *)
Definition yTick_value (i : float) : float :=
  (minCost + (i / num yTicks) * (maxCost - minCost))%float.

Definition yTick_grid (i : float) : node :=
  let y := yScale minCost maxCost H (yTick_value i) in
  Elem "line"
    [("x1", VNum m_left); ("x2", VNum (m_left + W)%float);
     ("y1", VNum y); ("y2", VNum y);
     ("stroke", VStr "rgba(0,0,0,.08)")]
    None [].

Definition yTick_label (i : float) (formatted : string) : node :=
  let y := yScale minCost maxCost H (yTick_value i) in
  Elem "text"
    [("x", VNum (m_left - 8)%float); ("y", VNum (y + 4)%float);
     ("text-anchor", VStr "end"); ("fill", axisColor)]
    (Some (String.append (concat B EmptyString currency)
                         (String.append " " (String.append formatted "/t"))))
    [].

(** the body of the loop at lines 163-177 *)
Definition yTick (i : float) : Emit unit :=
  append (yTick_grid i) ;;;
  formatted <- call (fmtNumber (yTick_value i) decimals) ;;
  append (yTick_label i formatted).

(** The geometry of a bar, lines 184-189. *)
Record bar : Type := {
  bar_x : float;
  bar_w : float;
  bar_y : float;
  bar_h : float;
  bar_fill : value
}.

Definition bar_of (d : placed) : bar :=
  let x := xScale totalAbatement W (x0 d) in
  let x2 := xScale totalAbatement W (x1 d) in
  let c := cost (it d) in
  {| bar_x := x;
     bar_w := Math_max [1%float; (x2 - x)%float];
     bar_y := if (zero <=? c)%float then yScale minCost maxCost H c else yZero;
     bar_h := Math_max [1%float; Math_abs (yScale minCost maxCost H c - yZero)%float];
     bar_fill := if (zero <=? c)%float then posColor else negColor |}.

(** Modelled from the spec: the source breaks off at line 192, inside the
    [forEach] over the items, right after the [rect] element is created.
    Following section 4.4 (step 5) the rectangle carries the geometry and the
    fill computed above and is added to the bar group; the per-bar text
    labels (step 6) and the pointer handlers (section 4.5) are not part of
    the embedding. *)
Definition rect_of (b : bar) : node :=
  Elem "rect"
    [("x", VNum (bar_x b)); ("y", VNum (bar_y b));
     ("width", VNum (bar_w b)); ("height", VNum (bar_h b));
     ("fill", bar_fill b)]
    None [].

Definition draw_bar (d : placed) : Emit unit := append (rect_of (bar_of d)).

Definition svg_font : string :=
  "12px system-ui, -apple-system, Segoe UI, Roboto, sans-serif".

(** lines 128-192: the [svg] element is appended to the root, then filled *)
Definition draw_chart (width height : float) (bars : list placed) : Emit unit :=
  within (Elem "svg" [("width", VNum width); ("height", VNum height);
                      ("style.font", VStr svg_font)] None)
    (within (Elem "g" [] None)
       (append xAxis ;;; for_each (upto xTicks) xTick) ;;;
     for_each (upto yTicks) yTick ;;;
     within (Elem "g" [] None) (for_each bars draw_bar)).

End Chart.

(** ** [draw] (lines 69-192)

    [width] and [height] are what [dscc.getWidth()] and [dscc.getHeight()]
    (or the root's client size) give.  [clear(root)] empties the root, so
    the result holds everything the root contains afterwards. *)
Definition sorted_items (d : data) : list item :=
  sort by_cost (items_of (tables_DEFAULT d)).

Definition draw (d : data) (width height : float) : outcome :=
  let W := plot_W width in
  let H := plot_H height in
  let items := items_of (tables_DEFAULT d) in
  match items with
  | [] => {| root_children := [empty_state]; returned := true |}
  | _ :: _ =>
      let items := sort by_cost items in
      let totalAbatement := total_of items in
      let bars := accumulate zero items in
      let minCost := minCost_of items in
      let maxCost := maxCost_of items in
      let chart :=
        draw_chart W H totalAbatement minCost maxCost
          (posColor_of d) (negColor_of d) (axisColor_of d)
          (currency_of d) (unit_of d) (decimals_of d)
          width height bars in
      {| root_children := fst chart;
         returned := match snd chart with Some _ => true | None => false end |}
  end.

(** Every number that the two axis loops hand to the locale printer is
    accepted by it ([items] is the sorted list). *)
Definition is_some {A} (o : option A) : bool :=
  match o with Some _ => true | None => false end.
(** the text that a formatting call which returned has produced *)
Definition formatted (r : option string) : string :=
  match r with Some s => s | None => EmptyString end.
Definition labels_format (d : data) (items : list item) : bool :=
  forallb (fun i => is_some (fmtNumber (xTick_value (total_of items) i) 0))
          (upto xTicks)
  && forallb (fun i => is_some (fmtNumber
                          (yTick_value (minCost_of items) (maxCost_of items) i)
                          (decimals_of d)))
             (upto yTicks).

End Script.

(** A chart item as section 3 of the specification requires it: a finite,
    strictly positive quantity and a finite cost. *)
Definition valid_item (d : item) : bool :=
  isFinite (abatement d) && (zero <? abatement d)%float && isFinite (cost d).

(** the items whose cost equals [c] ([==], so [+0] and [-0] are equal) *)
Definition with_cost (c : float) (d : item) : bool := (cost d =? c)%float.

(** [a.cost <= b.cost] *)
Definition cost_le (a b : item) : Prop := (cost a <=? cost b)%float = true.

(** no item has the cost [NaN] *)
Definition no_nan_cost (l : list item) : Prop :=
  Forall (fun d => is_nan (cost d) = false) l.

(** ** What a redraw shows *)

(** The children of the [svg] element, of the axis group (its first child)
    and of the bar group (its last child). *)
Definition children_of (n : node) : list node :=
  match n with Elem _ _ _ kids => kids end.
Definition tag_of (n : node) : string :=
  match n with Elem t _ _ _ => t end.
Definition svg_children (o : outcome) : list node :=
  match root_children o with
  | [Elem "svg" _ _ kids] => kids
  | _ => []
  end.
Definition axis_children (o : outcome) : list node :=
  match svg_children o with
  | Elem "g" _ _ kids :: _ => kids
  | _ => []
  end.
Definition is_tag (t : string) (n : node) : bool := String.eqb (tag_of n) t.
(** the quantity-axis tick marks: the lines of the axis group after the
    baseline *)
Definition tick_marks (o : outcome) : list node :=
  tl (filter (is_tag "line") (axis_children o)).
(** the cost-axis gridlines: the lines that are children of the [svg] *)
Definition gridlines (o : outcome) : list node :=
  filter (is_tag "line") (svg_children o).
(** the bars: every [rect] below the [svg] *)
Definition rects (o : outcome) : list node :=
  filter (is_tag "rect") (flat_map children_of (svg_children o)).

(** ** A host to run the script on examples *)

(** Its number parser and printers are placeholders; the examples below
    only hand numbers to the script.  Like an engine, its locale printer
    refuses a digit count outside [0, 100]. *)
Definition example_host : Builtins :=
  {| StringToNumber := fun _ => nan;
     NumberToString := fun _ => "n";
     toLocaleString := fun _ digits =>
       if (zero <=? digits)%float && (digits <=? 100)%float then Some "n" else None |}.

Definition example_row (label : string) (quantity cost : float) : row :=
  {| actionDim := VArr [VStr label];
     abatementMetric := VArr [VNum quantity];
     costMetric := VArr [VNum cost];
     categoryDim := VUndefined |}.

Definition example_data (rows : list row) : data :=
  {| style := VUndefined; fields_actionDim := []; tables_DEFAULT := rows |}.

End Macc.

(* ===================================================================== *)
(** * Facts about binary64 arithmetic ([SpecFloat])                       *)
(* ===================================================================== *)

(** The subtraction of two valid binary64 numbers never rounds to zero
    and never changes sign: its result is positive exactly when the first
    operand is the greater one.  Rounding to nearest-even is monotone, so
    adding a finite number, and multiplying or dividing by a positive
    finite one, keep the order of the numbers. *)

Module Rounding.
Local Open Scope Z_scope.

(** ** Digits and shifts *)

Lemma digits2_size (m : positive) : digits2_pos m = Pos.size m.
Proof. induction m; simpl; congruence. Qed.

Lemma digits2_bounds (m : positive) :
  2 ^ (Zpos (digits2_pos m) - 1) <= Zpos m < 2 ^ Zpos (digits2_pos m).
Proof.
  rewrite digits2_size. split.
  - pose proof (Pos.size_le m) as L.
    assert (L' : 2 ^ Zpos (Pos.size m) <= 2 * Zpos m).
    { change 2 with (Zpos 2) at 1. rewrite <- Pos2Z.inj_pow. exact L. }
    replace (Zpos (Pos.size m)) with (1 + (Zpos (Pos.size m) - 1)) in L' by lia.
    rewrite Z.pow_add_r in L' by lia. change (2 ^ 1) with 2 in L'. lia.
  - pose proof (Pos.size_gt m) as G.
    change 2 with (Zpos 2). rewrite <- Pos2Z.inj_pow. exact G.
Qed.

Lemma shr_1_m (mrs : shr_record) :
  0 <= shr_m mrs -> shr_m (shr_1 mrs) = shr_m mrs / 2.
Proof.
  destruct mrs as [m r s]. cbn [shr_m]. intros P.
  destruct m as [|[p|p|]|p]; unfold shr_1; cbn [shr_m]; try lia; try reflexivity.
  - apply Z.div_unique with (r := 1); lia.
  - apply Z.div_unique with (r := 0); lia.
Qed.

Lemma shr_1_nonneg (mrs : shr_record) : 0 <= shr_m mrs -> 0 <= shr_m (shr_1 mrs).
Proof. intros P. rewrite shr_1_m by exact P. apply Z.div_pos; lia. Qed.

Lemma pow2_xI (p : positive) : 2 ^ Zpos p~1 = 2 * (2 ^ Zpos p * 2 ^ Zpos p).
Proof.
  replace (Zpos p~1) with (1 + (Zpos p + Zpos p)) by lia.
  rewrite !Z.pow_add_r by lia. reflexivity.
Qed.

Lemma pow2_xO (p : positive) : 2 ^ Zpos p~0 = 2 ^ Zpos p * 2 ^ Zpos p.
Proof.
  replace (Zpos p~0) with (Zpos p + Zpos p) by lia.
  rewrite !Z.pow_add_r by lia. reflexivity.
Qed.

Lemma pow2_pos (n : Z) : 0 <= n -> 0 < 2 ^ n.
Proof. intros. apply Z.pow_pos_nonneg; lia. Qed.

Lemma iter_shr_1_m (p : positive) : forall mrs,
  0 <= shr_m mrs ->
  0 <= shr_m (iter_pos shr_1 p mrs)
  /\ shr_m (iter_pos shr_1 p mrs) = shr_m mrs / 2 ^ Zpos p.
Proof.
  induction p as [p IH|p IH|]; intros mrs P; cbn [iter_pos].
  - destruct (IH (shr_1 mrs) (shr_1_nonneg _ P)) as [P1 E1].
    destruct (IH _ P1) as [P2 E2]. split; [exact P2|].
    pose proof (pow2_pos (Zpos p) ltac:(lia)) as X.
    rewrite E2, E1, shr_1_m by exact P.
    rewrite !Z.div_div by lia. rewrite pow2_xI. reflexivity.
  - destruct (IH mrs P) as [P1 E1].
    destruct (IH _ P1) as [P2 E2]. split; [exact P2|].
    pose proof (pow2_pos (Zpos p) ltac:(lia)) as X.
    rewrite E2, E1. rewrite Z.div_div by lia. rewrite pow2_xO. reflexivity.
  - split; [apply shr_1_nonneg, P|]. rewrite shr_1_m by exact P. reflexivity.
Qed.

(** ** Rounding a positive mantissa never gives zero *)

Lemma fexp_ge_emin (k : Z) : emin <= fexp prec emax k.
Proof. unfold fexp. lia. Qed.

Lemma shr_fexp_positive (m : positive) (e : Z) (l : location) :
  emin <= e ->
  0 < shr_m (fst (shr_fexp prec emax (Zpos m) e l))
  /\ emin <= snd (shr_fexp prec emax (Zpos m) e l).
Proof.
  intros E. unfold shr_fexp, shr. cbn [Zdigits2].
  set (d := Zpos (digits2_pos m)).
  destruct (fexp prec emax (d + e) - e) as [|n|n] eqn:N; cbn [fst snd].
  - split; [|exact E]. destruct l as [|[ | | ]]; simpl; lia.
  - assert (S0 : 0 <= shr_m (shr_record_of_loc (Zpos m) l))
      by (destruct l as [|[ | | ]]; simpl; lia).
    destruct (iter_shr_1_m n _ S0) as [_ Q]. rewrite Q.
    replace (shr_m (shr_record_of_loc (Zpos m) l)) with (Zpos m)
      by (destruct l as [|[ | | ]]; reflexivity).
    pose proof (digits2_bounds m) as [D1 D2]. fold d in D1, D2.
    unfold fexp in N. change (FloatOps.prec) with 53 in *.
    assert (Zpos n = d - 53) by (unfold emin in *; lia).
    split; [|lia].
    apply Z.div_str_pos. split; [apply pow2_pos; lia|].
    eapply Z.le_trans; [|exact D1]. apply Z.pow_le_mono_r; lia.
  - split; [|exact E]. destruct l as [|[ | | ]]; simpl; lia.
Qed.

Lemma round_nearest_even_ge (m : Z) (l : location) : m <= round_nearest_even m l.
Proof.
  destruct l as [|[ | | ]]; simpl; try lia. destruct (Z.even m); lia.
Qed.

Lemma binary_round_aux_signed (s : bool) (m : positive) (e : Z) (l : location) :
  emin <= e ->
  (exists m' e', binary_round_aux prec emax s (Zpos m) e l = S754_finite s m' e')
  \/ binary_round_aux prec emax s (Zpos m) e l = S754_infinity s.
Proof.
  intros E. unfold binary_round_aux.
  destruct (shr_fexp_positive m e l E) as [P1 E1].
  destruct (shr_fexp prec emax (Zpos m) e l) as [mrs' e'] eqn:S1. cbn [fst snd] in *.
  pose proof (round_nearest_even_ge (shr_m mrs') (loc_of_shr_record mrs')) as G.
  destruct (round_nearest_even (shr_m mrs') (loc_of_shr_record mrs')) as [|r|r] eqn:R;
    try lia.
  destruct (shr_fexp_positive r e' loc_Exact E1) as [P2 E2].
  destruct (shr_fexp prec emax (Zpos r) e' loc_Exact) as [mrs'' e''] eqn:S2.
  cbn [fst snd] in *.
  destruct (shr_m mrs'') as [|m''|m'']; try lia.
  destruct (e'' <=? emax - prec); [left; eauto | right; reflexivity].
Qed.

Lemma binary_round_signed (s : bool) (m : positive) (e : Z) :
  emin <= e ->
  (exists m' e', binary_round prec emax s m e = S754_finite s m' e')
  \/ binary_round prec emax s m e = S754_infinity s.
Proof.
  intros E. unfold binary_round, shl_align.
  pose proof (fexp_ge_emin (Zpos (digits2_pos m) + e)) as F.
  destruct (fexp prec emax (Zpos (digits2_pos m) + e) - e);
    apply binary_round_aux_signed; assumption.
Qed.

(** ** Aligned mantissas and the order of valid numbers *)

Lemma shl_align_value (m : positive) (e e' : Z) :
  e' <= e -> Zpos (fst (shl_align m e e')) = Zpos m * 2 ^ (e - e').
Proof.
  intros L. unfold shl_align. destruct (e' - e) as [|d|d] eqn:D; cbn [fst]; try lia.
  - replace (e - e') with 0 by lia. lia.
  - replace (e - e') with (Zpos d) by lia.
    change (Pos.iter xO m d) with (shift_pos d m).
    rewrite shift_pos_correct. change (Z.pow_pos 2 d) with (2 ^ Zpos d). lia.
Qed.

Lemma bounded_shape (m : positive) (e : Z) :
  bounded prec emax m e = true ->
  emin <= e /\ Zpos (digits2_pos m) <= 53
  /\ (Zpos (digits2_pos m) = 53 \/ e = emin).
Proof.
  unfold bounded, canonical_mantissa, fexp. intros B.
  apply andb_true_iff in B. destruct B as [C _]. apply Z.eqb_eq in C.
  change FloatOps.prec with 53 in *. unfold emin in *. lia.
Qed.

(** a valid number with the smaller exponent has the smaller magnitude *)
Lemma aligned_lt (mx my : positive) (ex ey : Z) :
  bounded prec emax mx ex = true -> bounded prec emax my ey = true ->
  ex < ey -> Zpos mx < Zpos my * 2 ^ (ey - ex).
Proof.
  intros Bx By L.
  destruct (bounded_shape mx ex Bx) as [Ex [Dx _]].
  destruct (bounded_shape my ey By) as [Ey [_ Dy]].
  destruct Dy as [Dy | Dy]; [|lia].
  pose proof (digits2_bounds mx) as [_ Ux].
  pose proof (digits2_bounds my) as [Ly _]. rewrite Dy in Ly.
  assert (P1 : 2 ^ Zpos (digits2_pos mx) <= 2 ^ 53) by (apply Z.pow_le_mono_r; lia).
  assert (P2 : 2 ^ 1 <= 2 ^ (ey - ex)) by (apply Z.pow_le_mono_r; lia).
  change (2 ^ 1) with 2 in P2. change (2 ^ (53 - 1)) with 4503599627370496 in Ly.
  change (2 ^ 53) with 9007199254740992 in P1.
  nia.
Qed.

Lemma aligned_compare (mx my : positive) (ex ey : Z) :
  bounded prec emax mx ex = true -> bounded prec emax my ey = true ->
  Z.compare (Zpos mx * 2 ^ (ex - Z.min ex ey)) (Zpos my * 2 ^ (ey - Z.min ex ey))
  = match Z.compare ex ey with
    | Lt => Lt
    | Gt => Gt
    | Eq => Pos.compare_cont Eq mx my
    end.
Proof.
  intros Bx By. destruct (Z.compare_spec ex ey) as [E | L | G].
  - subst ey. rewrite Z.min_id, Z.sub_diag, !Z.mul_1_r. reflexivity.
  - rewrite Z.min_l by lia. rewrite Z.sub_diag, Z.mul_1_r.
    apply Z.compare_lt_iff. apply aligned_lt; assumption.
  - rewrite Z.min_r by lia. rewrite Z.sub_diag, Z.mul_1_r.
    apply Z.compare_gt_iff. apply aligned_lt; assumption.
Qed.

(** ** The sign of a difference *)

Lemma ltb_zero_signed (s : bool) (r : spec_float) :
  (exists m e, r = S754_finite s m e) \/ r = S754_infinity s ->
  SFltb (S754_zero false) r = negb s.
Proof.
  intros [[m [e ->]] | ->]; destruct s; reflexivity.
Qed.

Lemma ltb_zero_normalize (D e : Z) :
  emin <= e ->
  SFltb (S754_zero false) (binary_normalize prec emax D e false) = (0 <? D).
Proof.
  intros E. destruct D as [|m|m]; cbn [binary_normalize].
  - reflexivity.
  - rewrite (ltb_zero_signed false) by (apply binary_round_signed, E). reflexivity.
  - rewrite (ltb_zero_signed true) by (apply binary_round_signed, E). reflexivity.
Qed.

Lemma SFsub_sign (x y : spec_float) :
  valid_binary x = true -> valid_binary y = true ->
  x <> S754_nan -> y <> S754_nan ->
  SFltb (S754_zero false) (SF64sub x y) = SFltb y x.
Proof.
  intros Vx Vy Nx Ny.
  destruct x as [sx|sx| |sx mx ex], y as [sy|sy| |sy my ey]; try congruence;
    try (destruct sx; try destruct sy; reflexivity);
    try (destruct sy; reflexivity).
  cbn [valid_binary] in Vx, Vy.
  unfold SF64sub, SFsub.
  destruct (bounded_shape mx ex Vx) as [Ex _], (bounded_shape my ey Vy) as [Ey _].
  rewrite ltb_zero_normalize by lia.
  rewrite !shl_align_value by lia.
  pose proof (aligned_compare my mx ey ex Vy Vx) as C.
  rewrite (Z.min_comm ey ex) in C.
  set (X := Zpos mx * 2 ^ (ex - Z.min ex ey)) in *.
  set (Y := Zpos my * 2 ^ (ey - Z.min ex ey)) in *.
  assert (PX : 0 < X) by (apply Z.mul_pos_pos; [lia | apply pow2_pos; lia]).
  assert (PY : 0 < Y) by (apply Z.mul_pos_pos; [lia | apply pow2_pos; lia]).
  unfold SFltb, SFcompare.
  destruct sx, sy; cbn [cond_Zopp]; try (apply Z.ltb_lt; lia); try (apply Z.ltb_ge; lia).
  - destruct (ey ?= ex); try rewrite <- C;
      destruct (Z.compare_spec Y X); cbn [CompOpp]; try discriminate;
      try (apply Z.ltb_lt; lia); apply Z.ltb_ge; lia.
  - destruct (ey ?= ex); try rewrite <- C;
      destruct (Z.compare_spec Y X); try discriminate;
      try (apply Z.ltb_lt; lia); apply Z.ltb_ge; lia.
Qed.

(** ** What a shift record stands for *)

(** [mrs] holds the integer part of [a / b] and, in its two bits, whether
    the remainder is at least a half, and whether it is neither zero nor a
    half. *)
Definition rep (mrs : shr_record) (a b : Z) : Prop :=
  0 <= a /\ 0 < b
  /\ shr_m mrs = a / b
  /\ (shr_r mrs = true <-> b <= 2 * (a mod b))
  /\ (shr_s mrs = true <-> a mod b <> 0 /\ 2 * (a mod b) <> b).

Lemma shr_1_r (mrs : shr_record) :
  0 <= shr_m mrs -> shr_r (shr_1 mrs) = Z.odd (shr_m mrs).
Proof.
  destruct mrs as [m r s]. cbn [shr_m]. intros P.
  destruct m as [|[p|p|]|p]; try lia; reflexivity.
Qed.

Lemma shr_1_s (mrs : shr_record) :
  shr_s (shr_1 mrs) = shr_r mrs || shr_s mrs.
Proof.
  destruct mrs as [m r s]. destruct m as [|[p|p|]|[p|p|]]; reflexivity.
Qed.

Lemma halve_quotient (a b : Z) :
  0 <= a -> 0 < b ->
  a / (2 * b) = (a / b) / 2
  /\ a mod (2 * b) = ((a / b) mod 2) * b + a mod b.
Proof.
  intros A B.
  pose proof (Z.div_mod a b ltac:(lia)) as E1.
  pose proof (Z.mod_pos_bound a b B) as R1.
  pose proof (Z.div_mod (a / b) 2 ltac:(lia)) as E2.
  pose proof (Z.mod_pos_bound (a / b) 2 ltac:(lia)) as R2.
  assert (Q : a = (2 * b) * ((a / b) / 2) + (((a / b) mod 2) * b + a mod b)) by nia.
  assert (R : 0 <= ((a / b) mod 2) * b + a mod b < 2 * b) by nia.
  split.
  - symmetry. eapply Z.div_unique_pos; [exact R | lia].
  - symmetry. eapply Z.mod_unique_pos; [exact R | exact Q].
Qed.

Lemma rep_shr_1 (mrs : shr_record) (a b : Z) :
  rep mrs a b -> rep (shr_1 mrs) a (2 * b).
Proof.
  intros [A [B [M [R S]]]].
  destruct (halve_quotient a b A B) as [Q1 Q2].
  pose proof (Z.mod_pos_bound a b B) as R1.
  pose proof (Z.mod_pos_bound (a / b) 2 ltac:(lia)) as R2.
  assert (M0 : 0 <= shr_m mrs) by (rewrite M; apply Z.div_pos; lia).
  unfold rep. split; [exact A|]. split; [lia|]. split.
  - rewrite shr_1_m by exact M0. rewrite M. symmetry. exact Q1.
  - rewrite shr_1_r by exact M0. rewrite shr_1_s, Q2, M.
    rewrite Zodd_mod. 
    assert (O : (a / b) mod 2 = 0 \/ (a / b) mod 2 = 1) by lia.
    split.
    + destruct O as [O | O]; rewrite O; cbn [Z.eqb]; split; intros; try discriminate; try reflexivity; nia.
    + rewrite orb_true_iff, R, S.
      destruct O as [O | O]; rewrite O; nia.
Qed.

Lemma rep_iter (n : positive) : forall mrs a b,
  rep mrs a b -> rep (iter_pos shr_1 n mrs) a (b * 2 ^ Zpos n).
Proof.
  induction n as [n IH|n IH|]; intros mrs a b R; cbn [iter_pos].
  - apply rep_shr_1 in R. apply IH, IH in R.
    rewrite pow2_xI. replace (b * (2 * (2 ^ Zpos n * 2 ^ Zpos n)))
      with (2 * b * 2 ^ Zpos n * 2 ^ Zpos n) by ring. exact R.
  - apply IH, IH in R. rewrite pow2_xO.
    replace (b * (2 ^ Zpos n * 2 ^ Zpos n)) with (b * 2 ^ Zpos n * 2 ^ Zpos n) by ring.
    exact R.
  - apply rep_shr_1 in R. change (2 ^ 1) with 2.
    replace (b * 2) with (2 * b) by ring. exact R.
Qed.

Lemma rep_shr (mrs : shr_record) (a b e n : Z) :
  0 <= n -> rep mrs a b ->
  rep (fst (shr mrs e n)) a (b * 2 ^ n) /\ snd (shr mrs e n) = e + n.
Proof.
  intros N R. unfold shr. destruct n as [|n|n]; cbn [fst snd]; try lia.
  - rewrite Z.mul_1_r. split; [exact R | lia].
  - split; [apply rep_iter, R | reflexivity].
Qed.

Lemma rep_exact (m : Z) : 0 <= m -> rep (shr_record_of_loc m loc_Exact) m 1.
Proof.
  intros M. unfold rep. cbn [shr_record_of_loc shr_m shr_r shr_s].
  rewrite Z.div_1_r, Z.mod_1_r. repeat split; try lia; intros; try discriminate; lia.
Qed.

(** the location that the division computes from the remainder *)
Lemma rep_new_location (a b : Z) :
  0 <= a -> 0 < b ->
  rep (shr_record_of_loc (a / b) (new_location b (a mod b))) a b.
Proof.
  intros A B. pose proof (Z.mod_pos_bound a b B) as R.
  set (k := a mod b) in *.
  assert (C : shr_record_of_loc (a / b) (new_location b k)
              = {| shr_m := a / b;
                   shr_r := b <=? 2 * k;
                   shr_s := negb (k =? 0) && negb (2 * k =? b) |}).
  { unfold new_location.
    destruct (Z.even b) eqn:Ev; unfold new_location_even, new_location_odd;
      destruct (Z.eqb_spec k 0) as [K0 | K0];
      try (replace (b <=? 2 * k) with false by (symmetry; apply Z.leb_gt; lia);
           reflexivity).
    - destruct (Z.compare_spec (2 * k) b); cbn [shr_record_of_loc negb andb].
      + replace (b <=? 2 * k) with true by (symmetry; apply Z.leb_le; lia).
        replace (2 * k =? b) with true by (symmetry; apply Z.eqb_eq; lia). reflexivity.
      + replace (b <=? 2 * k) with false by (symmetry; apply Z.leb_gt; lia).
        replace (2 * k =? b) with false by (symmetry; apply Z.eqb_neq; lia). reflexivity.
      + replace (b <=? 2 * k) with true by (symmetry; apply Z.leb_le; lia).
        replace (2 * k =? b) with false by (symmetry; apply Z.eqb_neq; lia). reflexivity.
    - assert (Ob : Z.odd b = true) by (rewrite <- Z.negb_even, Ev; reflexivity).
      apply Z.odd_spec in Ob. destruct Ob as [h Ob].
      replace (2 * k =? b) with false by (symmetry; apply Z.eqb_neq; lia).
      destruct (Z.compare_spec (2 * k + 1) b); cbn [shr_record_of_loc negb andb].
      + replace (b <=? 2 * k) with false by (symmetry; apply Z.leb_gt; lia). reflexivity.
      + replace (b <=? 2 * k) with false by (symmetry; apply Z.leb_gt; lia). reflexivity.
      + replace (b <=? 2 * k) with true by (symmetry; apply Z.leb_le; lia). reflexivity. }
  rewrite C. unfold rep. cbn [shr_m shr_r shr_s]. fold k.
  split; [exact A|]. split; [exact B|]. split; [reflexivity|]. split.
  - apply Z.leb_le.
  - rewrite andb_true_iff, !negb_true_iff, !Z.eqb_neq. reflexivity.
Qed.

(** ** The stages of [binary_round_aux] *)

Ltac fexp_lia :=
  unfold fexp, emin in *;
  change FloatOps.prec with 53 in *; change FloatOps.emax with 1024 in *; lia.

(** the exponent of the format for a mantissa [m] at exponent [e] *)
Definition cexp (m e : Z) : Z := fexp prec emax (Zdigits2 m + e).

Lemma Zdigits2_bounds (m : Z) :
  0 < m -> 2 ^ (Zdigits2 m - 1) <= m < 2 ^ Zdigits2 m.
Proof. destruct m as [|p|p]; try lia. intros _. apply digits2_bounds. Qed.

Lemma Zdigits2_nonneg (m : Z) : 0 <= Zdigits2 m.
Proof. destruct m; simpl; lia. Qed.

Lemma shr_m_of_loc (m : Z) (l : location) : shr_m (shr_record_of_loc m l) = m.
Proof. destruct l as [|[ | | ]]; reflexivity. Qed.

Lemma stage1 (m e : Z) (l : location) (a b : Z) :
  e <= cexp m e -> rep (shr_record_of_loc m l) a b ->
  rep (fst (shr_fexp prec emax m e l)) a (b * 2 ^ (cexp m e - e))
  /\ snd (shr_fexp prec emax m e l) = cexp m e.
Proof.
  intros C R. unfold shr_fexp. fold (cexp m e).
  destruct (rep_shr _ a b e (cexp m e - e) ltac:(lia) R) as [R' E].
  split; [exact R' | lia].
Qed.

(** the truncated mantissa fits the precision, and fills it above the
    smallest exponent *)
Lemma stage1_size (m e : Z) :
  0 <= m -> e <= cexp m e ->
  0 <= m / 2 ^ (cexp m e - e) < 2 ^ 53
  /\ (emin < cexp m e -> 0 < m -> 2 ^ 52 <= m / 2 ^ (cexp m e - e)).
Proof.
  intros M C. set (n := cexp m e - e) in *.
  assert (N : 0 <= n) by lia.
  pose proof (pow2_pos n N) as P2.
  destruct (Z.eq_dec m 0) as [-> | M0].
  - rewrite Z.div_0_l by lia. split; [lia|]. intros; lia.
  - destruct (Zdigits2_bounds m ltac:(lia)) as [D1 D2].
    set (d := Zdigits2 m) in *.
    assert (Cd : cexp m e = Z.max (d + e - 53) emin) by reflexivity.
    split; [split|].
    + apply Z.div_pos; lia.
    + apply Z.div_lt_upper_bound; [lia|].
      rewrite <- Z.pow_add_r by lia.
      eapply Z.lt_le_trans; [exact D2|]. apply Z.pow_le_mono_r; lia.
    + intros Em _. apply Z.div_le_lower_bound; [lia|].
      rewrite <- Z.pow_add_r by lia.
      eapply Z.le_trans; [|exact D1]. apply Z.pow_le_mono_r; lia.
Qed.

Lemma round_nearest_even_value (mrs : shr_record) :
  round_nearest_even (shr_m mrs) (loc_of_shr_record mrs)
  = shr_m mrs
    + (if shr_r mrs && (shr_s mrs || Z.odd (shr_m mrs)) then 1 else 0).
Proof.
  destruct mrs as [m [|] [|]]; cbn [shr_m shr_r shr_s loc_of_shr_record
    round_nearest_even andb orb]; try lia.
  rewrite <- Z.negb_even. destruct (Z.even m); cbn [negb]; lia.
Qed.

(** the last stage: a mantissa that has grown a digit is shifted once *)
Definition finish (s : bool) (M c : Z) : spec_float :=
  let '(mrs, c') := shr_fexp prec emax M c loc_Exact in
  match shr_m mrs with
  | Z0 => S754_zero s
  | Zpos m => if c' <=? emax - prec then S754_finite s m c' else S754_infinity s
  | Zneg _ => S754_nan
  end.

Lemma binary_round_aux_finish (s : bool) (m e : Z) (l : location) :
  binary_round_aux prec emax s m e l
  = finish s (round_nearest_even (shr_m (fst (shr_fexp prec emax m e l)))
                (loc_of_shr_record (fst (shr_fexp prec emax m e l))))
           (snd (shr_fexp prec emax m e l)).
Proof.
  unfold binary_round_aux, finish.
  destruct (shr_fexp prec emax m e l) as [mrs' e']. reflexivity.
Qed.

(** the number with mantissa [M] at exponent [c], or infinity beyond the
    largest exponent *)
Definition number (s : bool) (M c : Z) : spec_float :=
  match M with
  | Zpos m => if c <=? 971 then S754_finite s m c else S754_infinity s
  | _ => S754_zero s
  end.

Lemma finish_value (s : bool) (M c : Z) :
  0 <= M <= 2 ^ 53 -> emin <= c ->
  finish s M c = if M =? 2 ^ 53 then number s (2 ^ 52) (c + 1) else number s M c.
Proof.
  intros B C. unfold finish, shr_fexp.
  destruct (Z.eqb_spec M (2 ^ 53)) as [-> | N].
  - change (Zdigits2 (2 ^ 53)) with 54.
    replace (fexp prec emax (54 + c) - c) with 1 by fexp_lia.
    reflexivity.
  - destruct (Z.eq_dec M 0) as [-> | M0].
    + change (Zdigits2 0) with 0. unfold shr.
      destruct (fexp prec emax (0 + c) - c) as [|n|n] eqn:F;
        try fexp_lia; reflexivity.
    + destruct (Zdigits2_bounds M ltac:(lia)) as [D1 D2].
      assert (D : Zdigits2 M <= 53).
      { destruct (Z_le_gt_dec (Zdigits2 M) 53) as [L | G]; [exact L|].
        assert (2 ^ 53 <= 2 ^ (Zdigits2 M - 1)) by (apply Z.pow_le_mono_r; lia). lia. }
      unfold shr.
      destruct (fexp prec emax (Zdigits2 M + c) - c) as [|n|n] eqn:F;
        try fexp_lia;
        cbn [shr_record_of_loc shr_m]; destruct M; try lia; reflexivity.
Qed.

(** ** The order of the results *)

Definition SFle (x y : spec_float) : Prop := SFleb x y = true.

Lemma SFle_finite (m1 m2 : positive) (e1 e2 : Z) :
  e1 < e2 \/ (e1 = e2 /\ Zpos m1 <= Zpos m2) ->
  SFle (S754_finite false m1 e1) (S754_finite false m2 e2).
Proof.
  unfold SFle, SFleb, SFcompare. intros [L | [E L]].
  - apply Z.compare_lt_iff in L. rewrite L. reflexivity.
  - subst e2. rewrite Z.compare_refl, Pos.compare_cont_spec. cbn [Pos.switch_Eq].
    destruct (Pos.compare_spec m1 m2); try reflexivity; lia.
Qed.

Lemma number_mono (M1 c1 M2 c2 : Z) :
  0 <= M1 -> 0 <= M2 ->
  (emin < c2 -> 0 < M2) ->
  emin <= c1 ->
  c1 < c2 \/ (c1 = c2 /\ M1 <= M2) ->
  SFle (number false M1 c1) (number false M2 c2).
Proof.
  intros P1 P2 N2 C1 L. unfold number.
  destruct M1 as [|m1|m1]; try lia.
  - destruct M2 as [|m2|m2]; try lia; [reflexivity|].
    destruct (c2 <=? 971); reflexivity.
  - destruct M2 as [|m2|m2]; try lia.
    destruct (Z.leb_spec c1 971), (Z.leb_spec c2 971); try reflexivity; try lia.
    apply SFle_finite. lia.
Qed.

(** the result of the last stage, for a full or carried mantissa *)
Lemma finish_mono (M1 c1 M2 c2 : Z) :
  0 <= M1 <= 2 ^ 53 -> 0 <= M2 <= 2 ^ 53 ->
  emin <= c1 -> (emin < c2 -> 2 ^ 52 <= M2) ->
  c1 < c2 \/ (c1 = c2 /\ M1 <= M2) ->
  SFle (finish false M1 c1) (finish false M2 c2).
Proof.
  intros B1 B2 C1 N2 L.
  rewrite !finish_value by lia.
  change (2 ^ 53) with 9007199254740992 in *. change (2 ^ 52) with 4503599627370496 in *.
  destruct (Z.eqb_spec M1 9007199254740992), (Z.eqb_spec M2 9007199254740992);
    apply number_mono; lia.
Qed.

(** ** Rounding is monotone *)

Lemma div_cross_le (a1 b1 a2 b2 : Z) :
  0 <= a1 -> 0 < b1 -> 0 <= a2 -> 0 < b2 ->
  a1 * b2 <= a2 * b1 -> a1 / b1 <= a2 / b2.
Proof.
  intros A1 B1 A2 B2 L.
  apply Z.div_le_lower_bound; [lia|].
  pose proof (Z.mul_div_le a1 b1 B1) as F. nia.
Qed.

Lemma cexp_le (m1 e1 m2 e2 : Z) :
  Zdigits2 m1 + e1 <= Zdigits2 m2 + e2 -> cexp m1 e1 <= cexp m2 e2.
Proof. unfold cexp, fexp. lia. Qed.

Lemma cexp_ge_emin (m e : Z) : emin <= cexp m e.
Proof. unfold cexp. apply fexp_ge_emin. Qed.

Lemma cexp_zero (e : Z) : e <= cexp 0 e -> cexp 0 e = emin.
Proof. unfold cexp. change (Zdigits2 0) with 0. intros. fexp_lia. Qed.

(** the value [a1 / b1 * 2 ^ e1] is at most [a2 / b2 * 2 ^ e2] *)
Definition value_le (a1 b1 e1 a2 b2 e2 : Z) : Prop :=
  a1 * b2 * 2 ^ (e1 - Z.min e1 e2) <= a2 * b1 * 2 ^ (e2 - Z.min e1 e2).

Lemma digits_sum_le (a1 b1 e1 a2 b2 e2 : Z) :
  0 <= a1 -> 0 < b1 -> 0 <= a2 -> 0 < b2 ->
  0 < a1 / b1 ->
  value_le a1 b1 e1 a2 b2 e2 ->
  Zdigits2 (a1 / b1) + e1 <= Zdigits2 (a2 / b2) + e2.
Proof.
  intros A1 B1 A2 B2 M1 V. unfold value_le in V.
  set (E := Z.min e1 e2) in *.
  set (X1 := 2 ^ (e1 - E)) in *. set (X2 := 2 ^ (e2 - E)) in *.
  assert (PX1 : 0 < X1) by (apply pow2_pos; lia).
  assert (PX2 : 0 < X2) by (apply pow2_pos; lia).
  set (m1 := a1 / b1) in *. set (m2 := a2 / b2).
  assert (F1 : m1 * b1 <= a1) by (rewrite Z.mul_comm; apply Z.mul_div_le; lia).
  assert (F2 : a2 < (m2 + 1) * b2).
  { pose proof (Z.div_mod a2 b2 ltac:(lia)). pose proof (Z.mod_pos_bound a2 b2 B2).
    fold m2 in H. nia. }
  assert (M2 : 0 <= m2) by (apply Z.div_pos; lia).
  assert (K : m1 * X1 < (m2 + 1) * X2).
  { assert (S1 : m1 * X1 * (b1 * b2) <= a1 * b2 * X1) by nia.
    assert (S2 : a2 * b1 * X2 < (m2 + 1) * X2 * (b1 * b2)) by nia.
    assert (S3 : m1 * X1 * (b1 * b2) < (m2 + 1) * X2 * (b1 * b2)) by lia.
    nia. }
  destruct (Zdigits2_bounds m1 M1) as [D1 _].
  assert (D2 : m2 + 1 <= 2 ^ Zdigits2 m2).
  { destruct (Z.eq_dec m2 0) as [-> | N]; [simpl; lia|].
    pose proof (Zdigits2_bounds m2 ltac:(lia)). lia. }
  pose proof (Zdigits2_nonneg m2) as N2.
  assert (N1 : 1 <= Zdigits2 m1) by (destruct m1; simpl in *; lia).
  assert (P : 2 ^ (Zdigits2 m1 - 1 + (e1 - E)) < 2 ^ (Zdigits2 m2 + (e2 - E))).
  { rewrite !Z.pow_add_r by lia. fold X1 X2.
    pose proof (pow2_pos (Zdigits2 m1 - 1) ltac:(lia)).
    nia. }
  apply Z.pow_lt_mono_r_iff in P; lia.
Qed.

Definition rounded (mrs : shr_record) : Z :=
  shr_m mrs + (if shr_r mrs && (shr_s mrs || Z.odd (shr_m mrs)) then 1 else 0).

Lemma rounded_bounds (mrs : shr_record) : shr_m mrs <= rounded mrs <= shr_m mrs + 1.
Proof. unfold rounded. destruct (_ && _); lia. Qed.

(** rounding to nearest, ties to even, is monotone in the exact quotient *)
Lemma rounded_mono (mrs1 mrs2 : shr_record) (a1 b1 a2 b2 : Z) :
  rep mrs1 a1 b1 -> rep mrs2 a2 b2 ->
  a1 * b2 <= a2 * b1 ->
  rounded mrs1 <= rounded mrs2.
Proof.
  intros [A1 [B1 [M1 [R1 S1]]]] [A2 [B2 [M2 [R2 S2]]]] L.
  pose proof (div_cross_le a1 b1 a2 b2 A1 B1 A2 B2 L) as D.
  rewrite <- M1, <- M2 in D.
  pose proof (rounded_bounds mrs1) as G1. pose proof (rounded_bounds mrs2) as G2.
  destruct (Z.eq_dec (shr_m mrs1) (shr_m mrs2)) as [E | N]; [|lia].
  unfold rounded. rewrite <- E.
  pose proof (Z.div_mod a1 b1 ltac:(lia)) as Q1.
  pose proof (Z.div_mod a2 b2 ltac:(lia)) as Q2.
  pose proof (Z.mod_pos_bound a1 b1 B1) as P1.
  pose proof (Z.mod_pos_bound a2 b2 B2) as P2.
  rewrite <- M1 in Q1. rewrite <- M2, <- E in Q2.
  set (m := shr_m mrs1) in *. set (r1 := a1 mod b1) in *. set (r2 := a2 mod b2) in *.
  assert (X : r1 * b2 <= r2 * b1) by nia.
  destruct (shr_r mrs1) eqn:Er1; cbn [andb]; [|destruct (_ && _); lia].
  assert (T1 : b1 <= 2 * r1) by (apply R1; reflexivity).
  assert (T2 : b2 <= 2 * r2) by nia.
  replace (shr_r mrs2) with true by (symmetry; apply R2; exact T2). cbn [andb].
  destruct (Z.odd m); [rewrite !orb_true_r; lia|]. rewrite !orb_false_r.
  destruct (shr_s mrs1) eqn:Es1; [|destruct (shr_s mrs2); lia].
  assert (U1 : r1 <> 0 /\ 2 * r1 <> b1) by (apply S1; reflexivity).
  assert (U2 : r2 <> 0 /\ 2 * r2 <> b2) by (split; nia).
  replace (shr_s mrs2) with true by (symmetry; apply S2; exact U2). lia.
Qed.

Lemma value_le_common (a1 b1 e1 a2 b2 e2 c : Z) :
  0 <= a1 -> 0 < b1 -> 0 <= a2 -> 0 < b2 ->
  e1 <= c -> e2 <= c ->
  value_le a1 b1 e1 a2 b2 e2 ->
  a1 * (b2 * 2 ^ (c - e2)) <= a2 * (b1 * 2 ^ (c - e1)).
Proof.
  intros A1 B1 A2 B2 C1 C2 V. unfold value_le in V.
  set (E := Z.min e1 e2) in *.
  set (k := c - e1 - e2 + E).
  assert (K : 0 <= k) by (unfold k, E; lia).
  replace (c - e2) with ((e1 - E) + k) by (unfold k; lia).
  replace (c - e1) with ((e2 - E) + k) by (unfold k; lia).
  rewrite !Z.pow_add_r by (unfold E; lia).
  pose proof (pow2_pos k K) as PK.
  set (X1 := 2 ^ (e1 - E)) in *. set (X2 := 2 ^ (e2 - E)) in *.
  nia.
Qed.

Lemma round_mono (m1 e1 : Z) (l1 : location) (a1 b1 m2 e2 : Z) (l2 : location) (a2 b2 : Z) :
  rep (shr_record_of_loc m1 l1) a1 b1 -> rep (shr_record_of_loc m2 l2) a2 b2 ->
  e1 <= cexp m1 e1 -> e2 <= cexp m2 e2 ->
  value_le a1 b1 e1 a2 b2 e2 ->
  SFle (binary_round_aux prec emax false m1 e1 l1)
       (binary_round_aux prec emax false m2 e2 l2).
Proof.
  intros R1 R2 C1 C2 V.
  rewrite !binary_round_aux_finish, !round_nearest_even_value.
  destruct (stage1 m1 e1 l1 a1 b1 C1 R1) as [R1' E1].
  destruct (stage1 m2 e2 l2 a2 b2 C2 R2) as [R2' E2].
  rewrite E1, E2.
  set (mrs1 := fst (shr_fexp prec emax m1 e1 l1)) in *.
  set (mrs2 := fst (shr_fexp prec emax m2 e2 l2)) in *.
  fold (rounded mrs1). fold (rounded mrs2).
  destruct R1 as [A1 [B1 [M1 _]]]. destruct R2 as [A2 [B2 [M2 _]]].
  rewrite shr_m_of_loc in M1, M2.
  assert (P1 : 0 <= m1) by (rewrite M1; apply Z.div_pos; lia).
  assert (P2 : 0 <= m2) by (rewrite M2; apply Z.div_pos; lia).
  pose proof (cexp_ge_emin m1 e1) as G1. pose proof (cexp_ge_emin m2 e2) as G2.
  assert (T1 : shr_m mrs1 = m1 / 2 ^ (cexp m1 e1 - e1)).
  { destruct R1' as [_ [_ [T _]]]. rewrite T.
    rewrite <- Z.div_div; [rewrite <- M1; reflexivity | lia | apply pow2_pos; lia]. }
  assert (T2 : shr_m mrs2 = m2 / 2 ^ (cexp m2 e2 - e2)).
  { destruct R2' as [_ [_ [T _]]]. rewrite T.
    rewrite <- Z.div_div; [rewrite <- M2; reflexivity | lia | apply pow2_pos; lia]. }
  destruct (stage1_size m1 e1 P1 C1) as [S1 _].
  destruct (stage1_size m2 e2 P2 C2) as [S2 N2].
  rewrite <- T1 in S1. rewrite <- T2 in S2, N2.
  pose proof (rounded_bounds mrs1) as Q1. pose proof (rounded_bounds mrs2) as Q2.
  assert (CC : cexp m1 e1 <= cexp m2 e2).
  { destruct (Z.eq_dec m1 0) as [Z1 | Z1].
    - rewrite Z1 in C1 |- *. rewrite (cexp_zero e1 C1). exact G2.
    - apply cexp_le. rewrite M1, M2.
      apply digits_sum_le; try assumption. rewrite <- M1. lia. }
  apply finish_mono; try lia.
  - intros Em. assert (0 < m2); [|lia].
    destruct (Z.eq_dec m2 0) as [Z2 | Z2]; [|lia].
    rewrite Z2 in C2, Em. rewrite (cexp_zero e2 C2) in Em. lia.
  - destruct (Z.eq_dec (cexp m1 e1) (cexp m2 e2)) as [EC | NC]; [right | left; lia].
    split; [exact EC|].
    apply (rounded_mono mrs1 mrs2 _ _ _ _ R1' R2').
    rewrite EC. apply value_le_common; try assumption; lia.
Qed.

(** ** Signs *)

Lemma binary_round_aux_opp (m e : Z) (l : location) :
  binary_round_aux prec emax true m e l = SFopp (binary_round_aux prec emax false m e l).
Proof.
  unfold binary_round_aux.
  destruct (shr_fexp prec emax m e l) as [mrs' e'].
  destruct (shr_fexp prec emax _ e' loc_Exact) as [mrs'' e''].
  destruct (shr_m mrs''); try reflexivity.
  destruct (e'' <=? emax - prec); reflexivity.
Qed.

(** zero, a positive number or [+Infinity] *)
Definition nonneg (x : spec_float) : Prop :=
  match x with
  | S754_zero _ | S754_finite false _ _ | S754_infinity false => True
  | _ => False
  end.

Definition not_nan (x : spec_float) : Prop := x <> S754_nan.

Lemma number_nonneg (M c : Z) : nonneg (number false M c).
Proof.
  unfold number. destruct M; try exact I. destruct (c <=? 971); exact I.
Qed.

Lemma round_nonneg (m e : Z) (l : location) (a b : Z) :
  rep (shr_record_of_loc m l) a b -> e <= cexp m e ->
  nonneg (binary_round_aux prec emax false m e l).
Proof.
  intros R C. rewrite binary_round_aux_finish, round_nearest_even_value.
  destruct (stage1 m e l a b C R) as [R' E]. rewrite E.
  fold (rounded (fst (shr_fexp prec emax m e l))).
  pose proof (rounded_bounds (fst (shr_fexp prec emax m e l))) as Q.
  destruct R as [A [B [M _]]]. rewrite shr_m_of_loc in M.
  assert (P : 0 <= m) by (rewrite M; apply Z.div_pos; lia).
  destruct (stage1_size m e P C) as [S _].
  assert (T : shr_m (fst (shr_fexp prec emax m e l)) = m / 2 ^ (cexp m e - e)).
  { destruct R' as [_ [_ [T _]]]. rewrite T.
    rewrite <- Z.div_div; [rewrite <- M; reflexivity | lia | apply pow2_pos; lia]. }
  rewrite <- T in S.
  rewrite finish_value by (pose proof (cexp_ge_emin m e); lia).
  destruct (_ =? _); apply number_nonneg.
Qed.

Lemma SFle_opp (x y : spec_float) : SFle x y -> SFle (SFopp y) (SFopp x).
Proof.
  unfold SFle, SFleb.
  destruct x as [[|]|[|]| |[|] m e], y as [[|]|[|]| |[|] m' e']; simpl; auto;
    rewrite !Pos.compare_cont_spec; simpl;
    rewrite (Z.compare_antisym e e'), (Pos.compare_antisym m m');
    destruct (e ?= e'); simpl; auto; destruct (m ?= m')%positive; simpl; auto.
Qed.

Lemma SFle_nonneg (x y : spec_float) : nonneg (SFopp x) -> nonneg y -> SFle x y.
Proof.
  destruct x as [[|]|[|]| |[|] m e], y as [[|]|[|]| |[|] m' e']; simpl; tauto || reflexivity.
Qed.

Lemma SFle_refl (x : spec_float) : not_nan x -> SFle x x.
Proof.
  unfold not_nan, SFle, SFleb. intros N.
  destruct x as [[|]|[|]| |[|] m e]; try congruence; try reflexivity; simpl;
    rewrite Z.compare_refl, Pos.compare_cont_refl; reflexivity.
Qed.

Lemma SFle_not_nan (x y : spec_float) : SFle x y -> not_nan x /\ not_nan y.
Proof.
  unfold SFle, SFleb, not_nan. destruct x, y; simpl; intros; split; congruence.
Qed.

Lemma SFle_infinity (x : spec_float) : nonneg x -> SFle x (S754_infinity false).
Proof. destruct x as [[|]|[|]| |[|] m e]; simpl; tauto || reflexivity. Qed.

Lemma nonneg_not_nan (x : spec_float) : nonneg x -> not_nan x.
Proof. destruct x; simpl; unfold not_nan; intros; congruence || tauto. Qed.

Lemma SFopp_involutive (x : spec_float) : SFopp (SFopp x) = x.
Proof. destruct x as [[|]|[|]| |[|] m e]; reflexivity. Qed.

Lemma valid_opp (x : spec_float) :
  valid_binary (SFopp x) = valid_binary x.
Proof. destruct x; reflexivity. Qed.

Lemma sign_cases (x : spec_float) : not_nan x -> nonneg x \/ nonneg (SFopp x).
Proof.
  unfold not_nan. destruct x as [[|]|[|]| |[|] m e]; simpl; intros; tauto || congruence.
Qed.

Lemma SFle_positive_right (x y : spec_float) :
  SFle x y -> ~ nonneg (SFopp x) -> nonneg y.
Proof.
  unfold SFle, SFleb.
  destruct x as [[|]|[|]| |[|] m e], y as [[|]|[|]| |[|] m' e']; simpl;
    intros; try tauto; try discriminate.
Qed.

(** an odd function that is monotone on the non-negative numbers is
    monotone *)
Lemma odd_monotone (f : spec_float -> spec_float) :
  (forall x, f (SFopp x) = SFopp (f x)) ->
  (forall x, valid_binary x = true -> nonneg x -> nonneg (f x)) ->
  (forall x1 x2, valid_binary x1 = true -> valid_binary x2 = true ->
                 nonneg x1 -> nonneg x2 -> SFle x1 x2 -> SFle (f x1) (f x2)) ->
  forall x1 x2, valid_binary x1 = true -> valid_binary x2 = true ->
                SFle x1 x2 -> SFle (f x1) (f x2).
Proof.
  intros Odd Pos Mono x1 x2 V1 V2 L.
  destruct (SFle_not_nan _ _ L) as [N1 N2].
  assert (D : nonneg (SFopp x1) \/ ~ nonneg (SFopp x1)).
  { destruct x1 as [[|]|[|]| |[|] m e]; simpl; tauto. }
  destruct D as [P1 | P1].
  - destruct (sign_cases x2 N2) as [P2 | P2].
    + apply SFle_nonneg; [|apply Pos; assumption].
      rewrite <- Odd. apply Pos; [rewrite valid_opp|]; assumption.
    + rewrite <- (SFopp_involutive (f x1)), <- (SFopp_involutive (f x2)).
      apply SFle_opp. rewrite <- !Odd.
      apply Mono; try assumption; try (rewrite valid_opp; assumption).
      apply SFle_opp, L.
  - pose proof (SFle_positive_right _ _ L P1) as P2.
    destruct (sign_cases x1 N1) as [Q1 | Q1]; [|tauto].
    apply Mono; assumption.
Qed.

(** ** The order of valid numbers, on aligned mantissas *)

Lemma SFle_aligned (m1 m2 : positive) (e1 e2 : Z) :
  bounded prec emax m1 e1 = true -> bounded prec emax m2 e2 = true ->
  SFle (S754_finite false m1 e1) (S754_finite false m2 e2) ->
  Zpos m1 * 2 ^ (e1 - Z.min e1 e2) <= Zpos m2 * 2 ^ (e2 - Z.min e1 e2).
Proof.
  intros B1 B2 L. pose proof (aligned_compare m1 m2 e1 e2 B1 B2) as C.
  unfold SFle, SFleb, SFcompare in L.
  apply Z.compare_le_iff. unfold Z.le in *. intros G. rewrite C in G.
  destruct (e1 ?= e2); try discriminate.
  destruct (Pos.compare_cont Eq m1 m2); discriminate.
Qed.

Lemma digits_lower (k m : Z) : 0 <= k -> 2 ^ k <= m -> k < Zdigits2 m.
Proof.
  intros K L. pose proof (pow2_pos k K).
  destruct (Zdigits2_bounds m ltac:(lia)) as [_ U].
  apply (Z.pow_lt_mono_r_iff 2); [lia | apply Zdigits2_nonneg | lia].
Qed.

Lemma Zdigits2_pos (m : positive) : 1 <= Zdigits2 (Zpos m).
Proof. simpl. lia. Qed.

(** ** Multiplication by a positive number *)

Lemma mul_fine (mx my : positive) (ex ey : Z) :
  bounded prec emax mx ex = true -> bounded prec emax my ey = true ->
  ex + ey <= cexp (Zpos (mx * my)) (ex + ey).
Proof.
  intros Bx By.
  destruct (bounded_shape mx ex Bx) as [Ex [Dx Sx]].
  destruct (bounded_shape my ey By) as [Ey [Dy Sy]].
  pose proof (digits2_bounds mx) as [Lx _]. pose proof (digits2_bounds my) as [Ly _].
  change (Zpos (digits2_pos mx)) with (Zdigits2 (Zpos mx)) in *.
  change (Zpos (digits2_pos my)) with (Zdigits2 (Zpos my)) in *.
  pose proof (Zdigits2_pos mx). pose proof (Zdigits2_pos my).
  assert (D : Zdigits2 (Zpos mx) + Zdigits2 (Zpos my) - 2 < Zdigits2 (Zpos (mx * my))).
  { apply digits_lower; [lia|].
    replace (Zdigits2 (Zpos mx) + Zdigits2 (Zpos my) - 2)
      with ((Zdigits2 (Zpos mx) - 1) + (Zdigits2 (Zpos my) - 1)) by lia.
    rewrite Z.pow_add_r by lia. rewrite Pos2Z.inj_mul.
    apply Z.mul_le_mono_nonneg; try assumption; apply Z.lt_le_incl, pow2_pos; lia. }
  unfold cexp. fexp_lia.
Qed.

Lemma SFmul_finite (s : bool) (mx my : positive) (ex ey : Z) :
  SF64mul (S754_finite s mx ex) (S754_finite false my ey)
  = binary_round_aux prec emax s (Zpos (mx * my)) (ex + ey) loc_Exact.
Proof. unfold SF64mul, SFmul. rewrite xorb_false_r. reflexivity. Qed.

Lemma SFmul_mono (my : positive) (ey : Z) (x1 x2 : spec_float) :
  bounded prec emax my ey = true ->
  valid_binary x1 = true -> valid_binary x2 = true ->
  SFle x1 x2 ->
  SFle (SF64mul x1 (S754_finite false my ey)) (SF64mul x2 (S754_finite false my ey)).
Proof.
  intros By. revert x1 x2.
  apply (odd_monotone (fun x => SF64mul x (S754_finite false my ey))).
  - intros [[|]|[|]| |s m e]; try reflexivity.
    cbv beta. cbn [SFopp]. rewrite !SFmul_finite. destruct s; cbn [negb].
    + rewrite binary_round_aux_opp, SFopp_involutive. reflexivity.
    + apply binary_round_aux_opp.
  - intros [[|]|[|]| |[|] m e] V P; try exact I; try contradiction.
    cbv beta. rewrite SFmul_finite.
    eapply round_nonneg; [apply rep_exact; lia | apply mul_fine; assumption].
  - intros [[|]|[|]| |[|] m1 e1] [[|]|[|]| |[|] m2 e2] V1 V2 P1 P2 L;
      try contradiction; try reflexivity; try discriminate L;
      cbv beta; rewrite ?SFmul_finite;
      try (apply SFle_nonneg; [exact I|];
           eapply round_nonneg; [apply rep_exact; lia | apply mul_fine; assumption]);
      try (apply SFle_infinity;
           eapply round_nonneg; [apply rep_exact; lia | apply mul_fine; assumption]).
    cbn [valid_binary] in V1, V2.
    eapply round_mono; try (apply rep_exact; lia); try (apply mul_fine; assumption).
    unfold value_le.
    pose proof (SFle_aligned m1 m2 e1 e2 V1 V2 L) as A.
    replace (Z.min (e1 + ey) (e2 + ey)) with (Z.min e1 e2 + ey) by lia.
    replace (e1 + ey - (Z.min e1 e2 + ey)) with (e1 - Z.min e1 e2) by lia.
    replace (e2 + ey - (Z.min e1 e2 + ey)) with (e2 - Z.min e1 e2) by lia.
    rewrite !Pos2Z.inj_mul. nia.
Qed.

(** ** Division by a positive number *)

(** the exponent and the shift that the division chooses *)
Definition div_exp (m1 e1 m2 e2 : Z) : Z :=
  Z.min (fexp prec emax (Zdigits2 m1 + e1 - (Zdigits2 m2 + e2))) (e1 - e2).
Definition div_shift (m1 e1 m2 e2 : Z) : Z := e1 - e2 - div_exp m1 e1 m2 e2.

Lemma div_shift_nonneg (m1 e1 m2 e2 : Z) : 0 <= div_shift m1 e1 m2 e2.
Proof. unfold div_shift, div_exp. lia. Qed.

Lemma SFdiv_core_value (m1 m2 : positive) (e1 e2 : Z) :
  let s := div_shift (Zpos m1) e1 (Zpos m2) e2 in
  SFdiv_core_binary prec emax (Zpos m1) e1 (Zpos m2) e2
  = ((Zpos m1 * 2 ^ s) / Zpos m2, div_exp (Zpos m1) e1 (Zpos m2) e2,
     new_location (Zpos m2) ((Zpos m1 * 2 ^ s) mod Zpos m2)).
Proof.
  intros s. unfold SFdiv_core_binary.
  fold (div_exp (Zpos m1) e1 (Zpos m2) e2).
  fold (div_shift (Zpos m1) e1 (Zpos m2) e2). fold s.
  pose proof (div_shift_nonneg (Zpos m1) e1 (Zpos m2) e2) as S. fold s in S.
  assert (E : match s with
              | Zpos _ => Z.shiftl (Zpos m1) s
              | Z0 => Zpos m1
              | Zneg _ => 0
              end = Zpos m1 * 2 ^ s).
  { destruct s as [|p|p] eqn:Es; try lia.
    rewrite Z.shiftl_mul_pow2 by lia. reflexivity. }
  rewrite E. unfold Z.div, Z.modulo.
  destruct (Z.div_eucl (Zpos m1 * 2 ^ s) (Zpos m2)) as [q r]. reflexivity.
Qed.

Lemma div_fine (m1 m2 : positive) (e1 e2 : Z) :
  let s := div_shift (Zpos m1) e1 (Zpos m2) e2 in
  let e' := div_exp (Zpos m1) e1 (Zpos m2) e2 in
  e' <= cexp ((Zpos m1 * 2 ^ s) / Zpos m2) e'.
Proof.
  intros s e'.
  pose proof (div_shift_nonneg (Zpos m1) e1 (Zpos m2) e2) as S. fold s in S.
  pose proof (pow2_pos s S) as PS.
  destruct (Zdigits2_bounds (Zpos m1) ltac:(lia)) as [L1 _].
  destruct (Zdigits2_bounds (Zpos m2) ltac:(lia)) as [_ U2].
  pose proof (Zdigits2_pos m1) as D1. pose proof (Zdigits2_pos m2) as D2.
  set (d1 := Zdigits2 (Zpos m1)) in *. set (d2 := Zdigits2 (Zpos m2)) in *.
  set (a := Zpos m1 * 2 ^ s). set (q := a / Zpos m2).
  assert (A : 2 ^ (d1 - 1 + s) <= a).
  { unfold a. rewrite Z.pow_add_r by lia. nia. }
  assert (X : e' = Z.min (fexp prec emax (d1 + e1 - (d2 + e2))) (e1 - e2)) by reflexivity.
  assert (Sq : s = e1 - e2 - e') by reflexivity.
  assert (Q0 : 0 <= q) by (apply Z.div_pos; lia).
  destruct (Z.eq_dec q 0) as [Z | N].
  - rewrite Z. unfold cexp. change (Zdigits2 0) with 0.
    assert (a < Zpos m2).
    { pose proof (Z.div_mod a (Zpos m2) ltac:(lia)) as E.
      pose proof (Z.mod_pos_bound a (Zpos m2) ltac:(lia)). fold q in E. nia. }
    assert (d1 - 1 + s < d2).
    { apply (Z.pow_lt_mono_r_iff 2); lia. }
    fexp_lia.
  - assert (K : d1 + s - d2 <= Zdigits2 q).
    { destruct (Z_lt_le_dec (d1 - 1 + s - d2) 0) as [Neg | Pos].
      - assert (1 <= Zdigits2 q) by (destruct q; simpl in *; lia). lia.
      - assert (d1 - 1 + s - d2 < Zdigits2 q); [|lia].
        apply digits_lower; [lia|].
        apply Z.div_le_lower_bound; [lia|].
        assert (P : 2 ^ (d1 - 1 + s) = 2 ^ (d1 - 1 + s - d2) * 2 ^ d2).
        { rewrite <- Z.pow_add_r by lia. f_equal. lia. }
        pose proof (pow2_pos (d1 - 1 + s - d2) Pos). nia. }
    unfold cexp. fexp_lia.
Qed.

Lemma SFdiv_finite (s : bool) (mx my : positive) (ex ey : Z) :
  let sh := div_shift (Zpos mx) ex (Zpos my) ey in
  SF64div (S754_finite s mx ex) (S754_finite false my ey)
  = binary_round_aux prec emax s ((Zpos mx * 2 ^ sh) / Zpos my)
      (div_exp (Zpos mx) ex (Zpos my) ey)
      (new_location (Zpos my) ((Zpos mx * 2 ^ sh) mod Zpos my)).
Proof.
  intros sh. unfold SF64div, SFdiv. rewrite SFdiv_core_value, xorb_false_r. reflexivity.
Qed.

Lemma div_rep (mx my : positive) (sh : Z) :
  0 <= sh ->
  rep (shr_record_of_loc ((Zpos mx * 2 ^ sh) / Zpos my)
         (new_location (Zpos my) ((Zpos mx * 2 ^ sh) mod Zpos my)))
      (Zpos mx * 2 ^ sh) (Zpos my).
Proof.
  intros S. apply rep_new_location; [|lia].
  pose proof (pow2_pos sh S). nia.
Qed.

Lemma SFdiv_mono (my : positive) (ey : Z) (x1 x2 : spec_float) :
  valid_binary x1 = true -> valid_binary x2 = true ->
  SFle x1 x2 ->
  SFle (SF64div x1 (S754_finite false my ey)) (SF64div x2 (S754_finite false my ey)).
Proof.
  revert x1 x2.
  apply (odd_monotone (fun x => SF64div x (S754_finite false my ey))).
  - intros [[|]|[|]| |s m e]; try reflexivity.
    cbv beta. cbn [SFopp]. rewrite !SFdiv_finite. destruct s; cbn [negb].
    + rewrite binary_round_aux_opp, SFopp_involutive. reflexivity.
    + apply binary_round_aux_opp.
  - intros [[|]|[|]| |[|] m e] V P; try exact I; try contradiction.
    cbv beta. rewrite SFdiv_finite.
    eapply round_nonneg; [apply div_rep, div_shift_nonneg | apply div_fine].
  - intros [[|]|[|]| |[|] m1 e1] [[|]|[|]| |[|] m2 e2] V1 V2 P1 P2 L;
      try contradiction; try reflexivity; try discriminate L;
      cbv beta; rewrite ?SFdiv_finite;
      try (apply SFle_nonneg; [exact I|];
           eapply round_nonneg; [apply div_rep, div_shift_nonneg | apply div_fine]);
      try (apply SFle_infinity;
           eapply round_nonneg; [apply div_rep, div_shift_nonneg | apply div_fine]).
    cbn [valid_binary] in V1, V2.
    eapply round_mono;
      try (apply div_rep, div_shift_nonneg); try apply div_fine.
    unfold value_le.
    pose proof (SFle_aligned m1 m2 e1 e2 V1 V2 L) as A.
    pose proof (div_shift_nonneg (Zpos m1) e1 (Zpos my) ey) as S1.
    pose proof (div_shift_nonneg (Zpos m2) e2 (Zpos my) ey) as S2.
    set (s1 := div_shift (Zpos m1) e1 (Zpos my) ey) in *.
    set (s2 := div_shift (Zpos m2) e2 (Zpos my) ey) in *.
    set (c1 := div_exp (Zpos m1) e1 (Zpos my) ey) in *.
    set (c2 := div_exp (Zpos m2) e2 (Zpos my) ey) in *.
    assert (Q1 : s1 = e1 - ey - c1) by reflexivity.
    assert (Q2 : s2 = e2 - ey - c2) by reflexivity.
    set (E := Z.min e1 e2) in *. set (C := Z.min c1 c2) in *.
    set (k := E - ey - C).
    assert (K : 0 <= k) by (unfold k, E, C; lia).
    assert (P1' : 2 ^ s1 * 2 ^ (c1 - C) = 2 ^ (e1 - E) * 2 ^ k).
    { rewrite <- !Z.pow_add_r by (unfold k, E, C in *; lia). f_equal. unfold k. lia. }
    assert (P2' : 2 ^ s2 * 2 ^ (c2 - C) = 2 ^ (e2 - E) * 2 ^ k).
    { rewrite <- !Z.pow_add_r by (unfold k, E, C in *; lia). f_equal. unfold k. lia. }
    pose proof (pow2_pos k K) as PK.
    replace (Zpos m1 * 2 ^ s1 * Zpos my * 2 ^ (c1 - C))
      with (Zpos my * (Zpos m1 * (2 ^ s1 * 2 ^ (c1 - C)))) by ring.
    replace (Zpos m2 * 2 ^ s2 * Zpos my * 2 ^ (c2 - C))
      with (Zpos my * (Zpos m2 * (2 ^ s2 * 2 ^ (c2 - C)))) by ring.
    rewrite P1', P2'.
    apply Z.mul_le_mono_nonneg_l; [lia|]. nia.
Qed.

(** ** Addition of a finite number *)

Lemma digits_upper (k m : Z) : 0 < m -> m < 2 ^ k -> Zdigits2 m <= k.
Proof.
  intros M U. destruct (Zdigits2_bounds m M) as [L _].
  destruct (Z_le_gt_dec (Zdigits2 m) k) as [G | G]; [exact G|].
  assert (0 <= k).
  { destruct (Z_lt_le_dec k 0) as [N | N]; [|exact N].
    rewrite Z.pow_neg_r in U by lia. lia. }
  assert (2 ^ k <= 2 ^ (Zdigits2 m - 1)) by (apply Z.pow_le_mono_r; lia). lia.
Qed.

Lemma digits_shift (m : positive) (k : Z) :
  0 <= k -> Zdigits2 (Zpos m * 2 ^ k) = Zdigits2 (Zpos m) + k.
Proof.
  intros K. pose proof (pow2_pos k K) as P.
  destruct (Zdigits2_bounds (Zpos m) ltac:(lia)) as [L U].
  pose proof (Zdigits2_pos m) as D.
  apply Z.le_antisymm.
  - apply digits_upper; [nia|]. rewrite Z.pow_add_r by lia. nia.
  - assert (Zdigits2 (Zpos m) - 1 + k < Zdigits2 (Zpos m * 2 ^ k)); [|lia].
    apply digits_lower; [lia|]. rewrite Z.pow_add_r by lia. nia.
Qed.

(** [binary_round] feeds [binary_round_aux] a mantissa that is at least as
    fine as the format asks *)
Lemma binary_round_aligned (s : bool) (m : positive) (e : Z) :
  exists (mz : positive) (ez : Z),
    binary_round prec emax s m e = binary_round_aux prec emax s (Zpos mz) ez loc_Exact
    /\ ez <= e /\ Zpos mz = Zpos m * 2 ^ (e - ez) /\ ez <= cexp (Zpos mz) ez.
Proof.
  unfold binary_round.
  change (Zpos (digits2_pos m)) with (Zdigits2 (Zpos m)).
  set (c := fexp prec emax (Zdigits2 (Zpos m) + e)).
  destruct (Z_lt_le_dec c e) as [L | G].
  - pose proof (shl_align_value m e c ltac:(lia)) as V.
    assert (E : snd (shl_align m e c) = c).
    { unfold shl_align. destruct (c - e) eqn:D; try lia. reflexivity. }
    destruct (shl_align m e c) as [mz ez]. cbn [fst snd] in *. subst ez.
    exists mz, c. split; [reflexivity|]. split; [lia|]. split; [exact V|].
    unfold cexp. rewrite V, digits_shift by lia.
    replace (Zdigits2 (Zpos m) + (e - c) + c) with (Zdigits2 (Zpos m) + e) by lia.
    fold c. lia.
  - assert (E : shl_align m e c = (m, e)).
    { unfold shl_align. destruct (c - e) eqn:D; try lia; reflexivity. }
    rewrite E. exists m, e. split; [reflexivity|]. split; [lia|].
    split; [rewrite Z.sub_diag; lia|]. unfold cexp. fold c. exact G.
Qed.

Lemma binary_round_opp (m : positive) (e : Z) :
  binary_round prec emax true m e = SFopp (binary_round prec emax false m e).
Proof.
  unfold binary_round. destruct (shl_align m e _) as [mz ez].
  apply binary_round_aux_opp.
Qed.

Lemma binary_round_nonneg (m : positive) (e : Z) :
  nonneg (binary_round prec emax false m e).
Proof.
  destruct (binary_round_aligned false m e) as [mz [ez [E [_ [_ C]]]]].
  rewrite E. eapply round_nonneg; [apply rep_exact; lia | exact C].
Qed.

Lemma binary_round_mono (m1 m2 : positive) (e1 e2 : Z) :
  Zpos m1 * 2 ^ (e1 - Z.min e1 e2) <= Zpos m2 * 2 ^ (e2 - Z.min e1 e2) ->
  SFle (binary_round prec emax false m1 e1) (binary_round prec emax false m2 e2).
Proof.
  intros V.
  destruct (binary_round_aligned false m1 e1) as [z1 [c1 [E1 [L1 [V1 C1]]]]].
  destruct (binary_round_aligned false m2 e2) as [z2 [c2 [E2 [L2 [V2 C2]]]]].
  rewrite E1, E2.
  eapply round_mono; try (apply rep_exact; lia); try assumption.
  unfold value_le. rewrite V1, V2, !Z.mul_1_r.
  set (E := Z.min e1 e2) in *. set (C := Z.min c1 c2) in *.
  set (k := E - C). assert (K : 0 <= k) by (unfold k, E, C; lia).
  rewrite <- !Z.mul_assoc, <- !Z.pow_add_r by (unfold E, C in *; lia).
  replace (e1 - c1 + (c1 - C)) with ((e1 - E) + k) by (unfold k; lia).
  replace (e2 - c2 + (c2 - C)) with ((e2 - E) + k) by (unfold k; lia).
  rewrite !Z.pow_add_r by (unfold E in *; lia).
  pose proof (pow2_pos k K). nia.
Qed.

(** [binary_normalize] is monotone in the value [D * 2 ^ e] *)
Lemma binary_normalize_mono (D1 e1 D2 e2 : Z) :
  D1 * 2 ^ (e1 - Z.min e1 e2) <= D2 * 2 ^ (e2 - Z.min e1 e2) ->
  SFle (binary_normalize prec emax D1 e1 false) (binary_normalize prec emax D2 e2 false).
Proof.
  intros V.
  pose proof (pow2_pos (e1 - Z.min e1 e2) ltac:(lia)) as P1.
  pose proof (pow2_pos (e2 - Z.min e1 e2) ltac:(lia)) as P2.
  destruct D1 as [|m1|m1], D2 as [|m2|m2]; cbn [binary_normalize]; try nia.
  - reflexivity.
  - apply SFle_nonneg; [exact I | apply binary_round_nonneg].
  - apply binary_round_mono, V.
  - apply SFle_nonneg; [|exact I].
    rewrite binary_round_opp, SFopp_involutive. apply binary_round_nonneg.
  - apply SFle_nonneg; [|apply binary_round_nonneg].
    rewrite binary_round_opp, SFopp_involutive. apply binary_round_nonneg.
  - rewrite !binary_round_opp. apply SFle_opp, binary_round_mono.
    rewrite Z.min_comm. nia.
Qed.

(** a valid number is its own rounding *)
Lemma binary_round_valid (s : bool) (m : positive) (e : Z) :
  bounded prec emax m e = true ->
  binary_round prec emax s m e = S754_finite s m e.
Proof.
  intros B. pose proof B as B'. unfold bounded, canonical_mantissa in B'.
  apply andb_true_iff in B'. destruct B' as [C O]. apply Z.eqb_eq in C.
  unfold binary_round, shl_align. rewrite C, Z.sub_diag.
  unfold binary_round_aux, shr_fexp. cbn [Zdigits2].
  rewrite C, Z.sub_diag. cbn [shr shr_record_of_loc shr_m loc_of_shr_record
    round_nearest_even Zdigits2].
  rewrite C, Z.sub_diag. cbn [shr shr_record_of_loc shr_m]. rewrite O. reflexivity.
Qed.

(** the integer a finite number or a zero stands for, with its exponent
    ([d] for a zero) *)
Definition signed (x : spec_float) : Z :=
  match x with S754_finite s m _ => cond_Zopp s (Zpos m) | _ => 0 end.
Definition expo (d : Z) (x : spec_float) : Z :=
  match x with S754_finite _ _ e => e | _ => d end.
Definition plain (x : spec_float) : Prop :=
  match x with S754_finite _ _ _ | S754_zero _ => True | _ => False end.

Lemma cond_Zopp_mul (s : bool) (a b : Z) : cond_Zopp s (a * b) = cond_Zopp s a * b.
Proof. destruct s; simpl; lia. Qed.

Lemma binary_normalize_valid (s : bool) (m : positive) (e : Z) :
  bounded prec emax m e = true ->
  binary_normalize prec emax (cond_Zopp s (Zpos m)) e false = S754_finite s m e.
Proof. intros B. destruct s; simpl; apply binary_round_valid, B. Qed.

Lemma SFadd_normalize (sc : bool) (mc : positive) (ec : Z) (x : spec_float) :
  bounded prec emax mc ec = true -> plain x ->
  SF64add (S754_finite sc mc ec) x =
  binary_normalize prec emax
    (cond_Zopp sc (Zpos mc) * 2 ^ (ec - Z.min ec (expo ec x))
     + signed x * 2 ^ (expo ec x - Z.min ec (expo ec x)))
    (Z.min ec (expo ec x)) false.
Proof.
  intros B P. destruct x as [s| | |s m e]; try contradiction; cbn [expo signed].
  - rewrite Z.min_id, Z.sub_diag, Z.mul_1_r, Z.mul_0_l, Z.add_0_r.
    rewrite binary_normalize_valid by exact B. reflexivity.
  - unfold SF64add, SFadd. cbv zeta.
    rewrite <- !cond_Zopp_mul, <- !shl_align_value by lia. reflexivity.
Qed.

Lemma signed_le (d : Z) (x1 x2 : spec_float) :
  valid_binary x1 = true -> valid_binary x2 = true -> plain x1 -> plain x2 ->
  SFle x1 x2 ->
  signed x1 * 2 ^ (expo d x1 - Z.min (expo d x1) (expo d x2))
  <= signed x2 * 2 ^ (expo d x2 - Z.min (expo d x1) (expo d x2)).
Proof.
  intros V1 V2 P1 P2 L.
  destruct x1 as [s1| | |s1 m1 e1], x2 as [s2| | |s2 m2 e2]; try contradiction;
    cbn [signed expo]; try lia.
  - pose proof (pow2_pos (e2 - Z.min d e2) ltac:(lia)).
    destruct s2; [destruct s1; discriminate|]. cbn [cond_Zopp]. nia.
  - pose proof (pow2_pos (e1 - Z.min e1 d) ltac:(lia)).
    destruct s1; [|destruct s2; discriminate]. cbn [cond_Zopp]. nia.
  - pose proof (pow2_pos (e1 - Z.min e1 e2) ltac:(lia)).
    pose proof (pow2_pos (e2 - Z.min e1 e2) ltac:(lia)).
    destruct s1, s2; cbn [cond_Zopp]; try nia.
    + apply SFle_opp in L. cbn [SFopp negb] in L.
      pose proof (SFle_aligned m2 m1 e2 e1 V2 V1 L) as A.
      rewrite Z.min_comm in A. lia.
    + discriminate.
    + apply SFle_aligned; assumption.
Qed.

Lemma SFadd_mono_plain (sc : bool) (mc : positive) (ec : Z) (x1 x2 : spec_float) :
  bounded prec emax mc ec = true ->
  valid_binary x1 = true -> valid_binary x2 = true -> plain x1 -> plain x2 ->
  SFle x1 x2 ->
  SFle (SF64add (S754_finite sc mc ec) x1) (SF64add (S754_finite sc mc ec) x2).
Proof.
  intros B V1 V2 P1 P2 L.
  rewrite !SFadd_normalize by assumption.
  pose proof (signed_le ec x1 x2 V1 V2 P1 P2 L) as S.
  set (e1 := expo ec x1) in *. set (e2 := expo ec x2) in *.
  set (D1 := signed x1) in *. set (D2 := signed x2) in *.
  set (Dc := cond_Zopp sc (Zpos mc)).
  apply binary_normalize_mono.
  set (z1 := Z.min ec e1). set (z2 := Z.min ec e2). set (Z0 := Z.min z1 z2).
  set (E := Z.min e1 e2) in *.
  assert (0 <= E - Z0) by (unfold E, Z0, z1, z2; lia).
  rewrite !Z.mul_add_distr_r, <- !Z.mul_assoc, <- !Z.pow_add_r
    by (unfold Z0, z1, z2; lia).
  replace (ec - z1 + (z1 - Z0)) with (ec - Z0) by lia.
  replace (ec - z2 + (z2 - Z0)) with (ec - Z0) by lia.
  replace (e1 - z1 + (z1 - Z0)) with ((e1 - E) + (E - Z0)) by lia.
  replace (e2 - z2 + (z2 - Z0)) with ((e2 - E) + (E - Z0)) by lia.
  rewrite !Z.pow_add_r by (unfold E in *; lia).
  pose proof (pow2_pos (E - Z0) ltac:(lia)). nia.
Qed.

Lemma SFle_neg_infinity (x : spec_float) : not_nan x -> SFle (S754_infinity true) x.
Proof.
  unfold not_nan. destruct x as [[|]|[|]| |[|] m e]; intros; congruence || reflexivity.
Qed.

Lemma SFle_pos_infinity (x : spec_float) : not_nan x -> SFle x (S754_infinity false).
Proof.
  unfold not_nan. destruct x as [[|]|[|]| |[|] m e]; intros; congruence || reflexivity.
Qed.

Lemma SFadd_comm (x y : spec_float) : SF64add x y = SF64add y x.
Proof.
  destruct x as [[|]|[|]| |sx mx ex], y as [[|]|[|]| |sy my ey]; try reflexivity.
  unfold SF64add, SFadd. cbv zeta. rewrite (Z.min_comm ex ey), Z.add_comm. reflexivity.
Qed.

Lemma SFsub_add (x y : spec_float) : SF64sub x y = SF64add x (SFopp y).
Proof.
  destruct x as [[|]|[|]| |sx mx ex], y as [[|]|[|]| |sy my ey]; try reflexivity.
  unfold SF64sub, SFsub, SF64add, SFadd, SFopp. cbv zeta.
  destruct sy; cbn [negb cond_Zopp]; f_equal; lia.
Qed.

(** adding a finite number or a zero is monotone *)
Lemma SFadd_mono (c x1 x2 : spec_float) :
  valid_binary c = true -> plain c ->
  valid_binary x1 = true -> valid_binary x2 = true ->
  SFle x1 x2 -> SFle (SF64add c x1) (SF64add c x2).
Proof.
  intros Vc Pc V1 V2 L. destruct c as [sc| | |sc mc ec]; try contradiction.
  - destruct sc, x1 as [[|]|[|]| |[|] m1 e1], x2 as [[|]|[|]| |[|] m2 e2];
      try discriminate; try reflexivity; exact L.
  - assert (N : forall x, valid_binary x = true -> not_nan x ->
                          not_nan (SF64add (S754_finite sc mc ec) x)).
    { intros x V N. destruct x as [s|s| |s m e] eqn:X; try (intro; discriminate).
      - exfalso. apply N. reflexivity.
      - rewrite <- X in *.
        assert (P : plain x) by (rewrite X; exact I).
        apply (SFle_not_nan _ _
          (SFadd_mono_plain sc mc ec x x Vc V V P P (SFle_refl x N))). }
    destruct (SFle_not_nan _ _ L) as [N1 N2].
    destruct x1 as [s1|[|]| |s1 m1 e1] eqn:X1; try (exfalso; apply N1; reflexivity).
    + rewrite <- X1 in *. assert (P1 : plain x1) by (rewrite X1; exact I).
      destruct x2 as [s2|[|]| |s2 m2 e2] eqn:X2; try (exfalso; apply N2; reflexivity).
      * rewrite <- X2 in *. apply SFadd_mono_plain; try assumption. rewrite X2; exact I.
      * rewrite X1 in L. destruct s1; discriminate.
      * apply SFle_pos_infinity, N; assumption.
      * rewrite <- X2 in *. apply SFadd_mono_plain; try assumption. rewrite X2; exact I.
    + apply SFle_neg_infinity, N; assumption.
    + destruct x2 as [[|]|[|]| |[|] m2 e2]; try discriminate. reflexivity.
    + rewrite <- X1 in *. assert (P1 : plain x1) by (rewrite X1; exact I).
      destruct x2 as [s2|[|]| |s2 m2 e2] eqn:X2; try (exfalso; apply N2; reflexivity).
      * rewrite <- X2 in *. apply SFadd_mono_plain; try assumption. rewrite X2; exact I.
      * rewrite X1 in L. destruct s1; discriminate.
      * apply SFle_pos_infinity, N; assumption.
      * rewrite <- X2 in *. apply SFadd_mono_plain; try assumption. rewrite X2; exact I.
Qed.

End Rounding.

(* ===================================================================== *)
(** * Facts about binary64 numbers                                       *)
(* ===================================================================== *)

Module FloatFacts.
Import JS.
Local Open Scope Z_scope.

(** ** The position of a number

    Every binary64 value is given a triple of integers, compared
    lexicographically: the negative numbers, then [-0], [+0], the positive
    numbers, and [NaN] apart from all of them. *)
Definition pos (f : spec_float) : Z * Z * Z :=
  match f with
  | S754_nan => (3, 0, 0)
  | S754_infinity true => (-2, 0, 0)
  | S754_infinity false => (2, 0, 0)
  | S754_zero true => (0, -1, 0)
  | S754_zero false => (0, 0, 0)
  | S754_finite true m e => (-1, - e, - Zpos m)
  | S754_finite false m e => (1, e, Zpos m)
  end.

Definition p1 (x : float) : Z := fst (fst (pos (Prim2SF x))).
Definition p2 (x : float) : Z := snd (fst (pos (Prim2SF x))).
Definition p3 (x : float) : Z := snd (pos (Prim2SF x)).

(** [x] comes strictly before [y] ([-0] before [+0]) *)
Definition below (x y : float) : Prop :=
  p1 x < p1 y \/ (p1 x = p1 y /\ (p2 x < p2 y \/ (p2 x = p2 y /\ p3 x < p3 y))).

(** what the three coordinates of a number can be *)
Definition well_placed (x : float) : Prop :=
  (p1 x = 3 \/ p1 x = 2 \/ p1 x = -2 -> p2 x = 0 /\ p3 x = 0)
  /\ (p1 x = 0 -> (p2 x = 0 \/ p2 x = -1) /\ p3 x = 0)
  /\ (p1 x = 1 -> 0 < p3 x)
  /\ (p1 x = -1 -> p3 x < 0)
  /\ -2 <= p1 x <= 3.

Lemma place_range x : well_placed x.
Proof.
  unfold well_placed, p1, p2, p3.
  destruct (Prim2SF x) as [[|]|[|]| |[|] m e]; simpl; lia.
Qed.

Lemma pos_inj f g : pos f = pos g -> f = g.
Proof.
  destruct f as [[|]|[|]| |[|] m e], g as [[|]|[|]| |[|] m' e']; simpl;
    intros E; try discriminate E; try reflexivity;
    injection E as E1 E2; f_equal; lia.
Qed.

Lemma same_place x y : p1 x = p1 y -> p2 x = p2 y -> p3 x = p3 y -> x = y.
Proof.
  unfold p1, p2, p3. intros E1 E2 E3. apply Prim2SF_inj, pos_inj.
  destruct (pos (Prim2SF x)) as [[a b] c], (pos (Prim2SF y)) as [[a' b'] c'].
  simpl in *. congruence.
Qed.

(** [SFcompare] in terms of positions *)
Definition cmp_spec (c : option comparison) (a b : Z * Z * Z) : Prop :=
  let '(a1, a2, a3) := a in
  let '(b1, b2, b3) := b in
  let lt := a1 < b1 \/ (a1 = b1 /\ (a2 < b2 \/ (a2 = b2 /\ a3 < b3))) in
  let gt := b1 < a1 \/ (a1 = b1 /\ (b2 < a2 \/ (a2 = b2 /\ b3 < a3))) in
  match c with
  | None => a1 = 3 \/ b1 = 3
  | Some Lt => a1 <> 3 /\ b1 <> 3 /\ lt /\ (a1 <> 0 \/ b1 <> 0)
  | Some Gt => a1 <> 3 /\ b1 <> 3 /\ gt /\ (a1 <> 0 \/ b1 <> 0)
  | Some Eq => a1 <> 3 /\ b1 <> 3 /\ (a = b \/ (a1 = 0 /\ b1 = 0))
  end.

Lemma SFcompare_pos f g : cmp_spec (SFcompare f g) (pos f) (pos g).
Proof.
  destruct f as [[|]|[|]| |[|] m e], g as [[|]|[|]| |[|] m' e'];
    simpl; try lia; try (intuition (try lia; congruence));
    rewrite Pos.compare_cont_spec; simpl;
    destruct (Z.compare_spec e e'); try lia;
    destruct (Pos.compare_spec m m'); simpl; subst; try lia;
    repeat split; try lia; left; reflexivity.
Qed.

Lemma compare_place x y :
  match SFcompare (Prim2SF x) (Prim2SF y) with
  | None => p1 x = 3 \/ p1 y = 3
  | Some Lt => p1 x <> 3 /\ p1 y <> 3 /\ below x y /\ (p1 x <> 0 \/ p1 y <> 0)
  | Some Gt => p1 x <> 3 /\ p1 y <> 3 /\ below y x /\ (p1 x <> 0 \/ p1 y <> 0)
  | Some Eq => p1 x <> 3 /\ p1 y <> 3
               /\ ((p1 x = p1 y /\ p2 x = p2 y /\ p3 x = p3 y) \/ (p1 x = 0 /\ p1 y = 0))
  end.
Proof.
  pose proof (SFcompare_pos (Prim2SF x) (Prim2SF y)) as R.
  unfold below, p1, p2, p3.
  destruct (SFcompare (Prim2SF x) (Prim2SF y)) as [[ | | ]|];
    destruct (pos (Prim2SF x)) as [[a1 a2] a3], (pos (Prim2SF y)) as [[b1 b2] b3];
    simpl in *; try lia.
  destruct R as [R1 [R2 [R | R]]]; [injection R as -> -> ->|]; lia.
Qed.

(** ** The comparisons of the language *)

Lemma ltb_true x y :
  (x <? y)%float = true <->
  p1 x <> 3 /\ p1 y <> 3 /\ below x y /\ (p1 x <> 0 \/ p1 y <> 0).
Proof.
  rewrite ltb_spec. unfold SFltb. pose proof (compare_place x y) as R.
  pose proof (place_range x); pose proof (place_range y). unfold below, well_placed in *.
  destruct (SFcompare (Prim2SF x) (Prim2SF y)) as [[ | | ]|];
    split; intros; try discriminate; try reflexivity; lia.
Qed.

Lemma leb_true x y :
  (x <=? y)%float = true <->
  p1 x <> 3 /\ p1 y <> 3 /\ (~ below y x \/ (p1 x = 0 /\ p1 y = 0)).
Proof.
  rewrite leb_spec. unfold SFleb. pose proof (compare_place x y) as R.
  pose proof (place_range x); pose proof (place_range y). unfold below, well_placed in *.
  destruct (SFcompare (Prim2SF x) (Prim2SF y)) as [[ | | ]|];
    split; intros; try discriminate; try reflexivity; lia.
Qed.

Lemma eqb_true x y :
  (x =? y)%float = true <->
  p1 x <> 3 /\ p1 y <> 3
  /\ ((p1 x = p1 y /\ p2 x = p2 y /\ p3 x = p3 y) \/ (p1 x = 0 /\ p1 y = 0)).
Proof.
  rewrite eqb_spec. unfold SFeqb. pose proof (compare_place x y) as R.
  pose proof (place_range x); pose proof (place_range y). unfold below, well_placed in *.
  destruct (SFcompare (Prim2SF x) (Prim2SF y)) as [[ | | ]|];
    split; intros; try discriminate; try reflexivity; lia.
Qed.

Lemma is_nan_true x : is_nan x = true <-> p1 x = 3.
Proof.
  unfold is_nan. rewrite negb_true_iff, <- not_true_iff_false, eqb_true.
  pose proof (place_range x). unfold well_placed in *. lia.
Qed.


Lemma false_iff_not_true (b : bool) : b = false <-> ~ b = true.
Proof. destruct b; split; congruence. Qed.

Lemma ltb_false x y :
  (x <? y)%float = false <->
  ~ (p1 x <> 3 /\ p1 y <> 3 /\ below x y /\ (p1 x <> 0 \/ p1 y <> 0)).
Proof. rewrite <- ltb_true. apply false_iff_not_true. Qed.

Lemma leb_false x y :
  (x <=? y)%float = false <->
  ~ (p1 x <> 3 /\ p1 y <> 3 /\ (~ below y x \/ (p1 x = 0 /\ p1 y = 0))).
Proof. rewrite <- leb_true. apply false_iff_not_true. Qed.

Lemma eqb_false x y :
  (x =? y)%float = false <->
  ~ (p1 x <> 3 /\ p1 y <> 3
     /\ ((p1 x = p1 y /\ p2 x = p2 y /\ p3 x = p3 y) \/ (p1 x = 0 /\ p1 y = 0))).
Proof. rewrite <- eqb_true. apply false_iff_not_true. Qed.

Lemma is_nan_false x : is_nan x = false <-> p1 x <> 3.
Proof. rewrite <- is_nan_true. apply false_iff_not_true. Qed.

Lemma is_negzero_true x : is_negzero x = true <-> p1 x = 0 /\ p2 x = -1.
Proof.
  unfold is_negzero, p1, p2. rewrite classify_spec. unfold SF64classify, SFclassify.
  destruct (Prim2SF x) as [[|]|[|]| |[|] m e]; simpl;
    try match goal with |- context [if ?c then _ else _] => destruct c end;
    split; intros; try discriminate; try reflexivity; lia.
Qed.

Lemma is_poszero_true x : is_poszero x = true <-> p1 x = 0 /\ p2 x = 0.
Proof.
  unfold is_poszero, p1, p2. rewrite classify_spec. unfold SF64classify, SFclassify.
  destruct (Prim2SF x) as [[|]|[|]| |[|] m e]; simpl;
    try match goal with |- context [if ?c then _ else _] => destruct c end;
    split; intros; try discriminate; try reflexivity; lia.
Qed.

Lemma is_negzero_false x : is_negzero x = false <-> ~ (p1 x = 0 /\ p2 x = -1).
Proof. rewrite <- is_negzero_true. apply false_iff_not_true. Qed.

Lemma is_poszero_false x : is_poszero x = false <-> ~ (p1 x = 0 /\ p2 x = 0).
Proof. rewrite <- is_poszero_true. apply false_iff_not_true. Qed.

Lemma is_zero_true x : is_zero x = true <-> p1 x = 0.
Proof.
  unfold is_zero. rewrite eqb_true.
  change (p1 zero) with 0. change (p2 zero) with 0. change (p3 zero) with 0.
  pose proof (place_range x). unfold well_placed in *. lia.
Qed.

Lemma is_zero_false x : is_zero x = false <-> p1 x <> 0.
Proof. rewrite <- is_zero_true. apply false_iff_not_true. Qed.

Lemma abs_place x :
  p1 (abs x) = (if p1 x =? 3 then 3 else Z.abs (p1 x))
  /\ p2 (abs x) = (if p1 x =? 0 then 0 else if p1 x <? 0 then - p2 x else p2 x)
  /\ p3 (abs x) = Z.abs (p3 x).
Proof.
  unfold p1, p2, p3. rewrite abs_spec.
  destruct (Prim2SF x) as [[|]|[|]| |[|] m e]; simpl; lia.
Qed.

Lemma is_infinity_true x : is_infinity x = true <-> p1 x = 2 \/ p1 x = -2.
Proof.
  unfold is_infinity. rewrite eqb_true.
  change (p1 infinity) with 2. change (p2 infinity) with 0. change (p3 infinity) with 0.
  destruct (abs_place x) as [A1 [A2 A3]]. rewrite A1, A2, A3.
  pose proof (place_range x). unfold well_placed in *.
  destruct (Z.eqb_spec (p1 x) 3), (Z.eqb_spec (p1 x) 0), (Z.ltb_spec (p1 x) 0); lia.
Qed.

Lemma isFinite_true x : isFinite x = true <-> -1 <= p1 x <= 1.
Proof.
  unfold isFinite, is_finite.
  rewrite negb_true_iff, orb_false_iff, is_nan_false,
    false_iff_not_true, is_infinity_true.
  pose proof (place_range x). unfold well_placed in *. lia.
Qed.

Lemma isFinite_false x : isFinite x = false <-> ~ (-1 <= p1 x <= 1).
Proof. rewrite <- isFinite_true. apply false_iff_not_true. Qed.

Lemma num_truthy_true x : num_truthy x = true <-> p1 x <> 0 /\ p1 x <> 3.
Proof.
  unfold num_truthy. rewrite negb_true_iff, orb_false_iff, is_zero_false, is_nan_false.
  tauto.
Qed.

Lemma num_truthy_false x : num_truthy x = false <-> p1 x = 0 \/ p1 x = 3.
Proof.
  rewrite false_iff_not_true, num_truthy_true. lia.
Qed.

(** Turn the comparisons among the hypotheses and in the goal into
    statements about positions, and decide them by linear arithmetic. *)
Ltac positions :=
  repeat match goal with
  | H : (_ <? _)%float = true |- _ => apply ltb_true in H
  | H : (_ <? _)%float = false |- _ => apply ltb_false in H
  | H : (_ <=? _)%float = true |- _ => apply leb_true in H
  | H : (_ <=? _)%float = false |- _ => apply leb_false in H
  | H : (_ =? _)%float = true |- _ => apply eqb_true in H
  | H : (_ =? _)%float = false |- _ => apply eqb_false in H
  | H : is_nan _ = true |- _ => apply is_nan_true in H
  | H : is_nan _ = false |- _ => apply is_nan_false in H
  | H : is_zero _ = true |- _ => apply is_zero_true in H
  | H : is_zero _ = false |- _ => apply is_zero_false in H
  | H : is_negzero _ = true |- _ => apply is_negzero_true in H
  | H : is_negzero _ = false |- _ => apply is_negzero_false in H
  | H : is_poszero _ = true |- _ => apply is_poszero_true in H
  | H : is_poszero _ = false |- _ => apply is_poszero_false in H
  | H : isFinite _ = true |- _ => apply isFinite_true in H
  | H : isFinite _ = false |- _ => apply isFinite_false in H
  | H : num_truthy _ = true |- _ => apply num_truthy_true in H
  | H : num_truthy _ = false |- _ => apply num_truthy_false in H
  | |- (_ <? _)%float = true => apply ltb_true
  | |- (_ <? _)%float = false => apply ltb_false
  | |- (_ <=? _)%float = true => apply leb_true
  | |- (_ <=? _)%float = false => apply leb_false
  | |- (_ =? _)%float = true => apply eqb_true
  | |- (_ =? _)%float = false => apply eqb_false
  | |- is_nan _ = true => apply is_nan_true
  | |- is_nan _ = false => apply is_nan_false
  | |- is_zero _ = true => apply is_zero_true
  | |- is_zero _ = false => apply is_zero_false
  | |- isFinite _ = true => apply isFinite_true
  | |- isFinite _ = false => apply isFinite_false
  | |- num_truthy _ = true => apply num_truthy_true
  | |- num_truthy _ = false => apply num_truthy_false
  end.

Ltac constants :=
  change (p1 zero) with 0 in *; change (p2 zero) with 0 in *; change (p3 zero) with 0 in *;
  change (p1 neg_zero) with 0 in *; change (p2 neg_zero) with (-1) in *;
  change (p3 neg_zero) with 0 in *;
  change (p1 infinity) with 2 in *; change (p2 infinity) with 0 in *;
  change (p3 infinity) with 0 in *;
  change (p1 neg_infinity) with (-2) in *; change (p2 neg_infinity) with 0 in *;
  change (p3 neg_infinity) with 0 in *;
  change (p1 nan) with 3 in *; change (p2 nan) with 0 in *; change (p3 nan) with 0 in *;
  change (p1 one) with 1 in *; change (p2 one) with (-52) in *;
  change (p3 one) with 4503599627370496 in *.

Ltac float_lia := positions; unfold below, well_placed in *; constants; lia.

Lemma leb_refl x : is_nan x = false -> (x <=? x)%float = true.
Proof. intros. float_lia. Qed.

Lemma leb_trans x y z :
  (x <=? y)%float = true -> (y <=? z)%float = true -> (x <=? z)%float = true.
Proof. intros. float_lia. Qed.

Lemma ltb_leb x y : (x <? y)%float = true -> (x <=? y)%float = true.
Proof. intros. float_lia. Qed.

Lemma leb_total x y :
  is_nan x = false -> is_nan y = false ->
  (x <=? y)%float = true \/ (y <? x)%float = true.
Proof.
  intros. destruct (x <=? y)%float eqn:E; [left; reflexivity | right]. float_lia.
Qed.

(** ** The order of positions *)

Lemma below_trans x y z : below x y -> below y z -> below x z.
Proof. unfold below. lia. Qed.

Lemma not_below_trans x y z : ~ below y x -> ~ below z y -> ~ below z x.
Proof. unfold below. lia. Qed.

Lemma below_irrefl x : ~ below x x.
Proof. unfold below. lia. Qed.

Lemma not_below_antisym x y : ~ below x y -> ~ below y x -> x = y.
Proof. unfold below. intros. apply same_place; lia. Qed.

Lemma below_dec x y : {below x y} + {~ below x y}.
Proof.
  unfold below.
  destruct (Z_lt_dec (p1 x) (p1 y)); [left; lia|].
  destruct (Z.eq_dec (p1 x) (p1 y)); [|right; lia].
  destruct (Z_lt_dec (p2 x) (p2 y)); [left; lia|].
  destruct (Z.eq_dec (p2 x) (p2 y)); [|right; lia].
  destruct (Z_lt_dec (p3 x) (p3 y)); [left; lia | right; lia].
Qed.

(** ** [Math.min] and [Math.max] *)

Lemma lower_spec l n :
  is_nan l = false -> is_nan n = false ->
  (lower l n = n /\ below n l) \/ (lower l n = l /\ ~ below n l).
Proof.
  intros Nl Nn. unfold lower.
  destruct (is_negzero n && is_poszero l) eqn:Z.
  - apply andb_true_iff in Z. destruct Z as [Zn Zl].
    assert (E : neg_zero = n).
    { pose proof (place_range n) as R. unfold well_placed in R.
      positions. apply same_place; constants; lia. }
    rewrite <- E at 1.
    replace (neg_zero <? neg_zero)%float with false by reflexivity.
    left. split; [exact E|]. float_lia.
  - destruct (n <? l)%float eqn:L.
    + left. split; [reflexivity|]. float_lia.
    + right. split; [reflexivity|].
      apply andb_false_iff in Z.
      pose proof (place_range n) as Rn. pose proof (place_range l) as Rl.
      destruct Z as [Z | Z]; float_lia.
Qed.

Lemma higher_spec h n :
  is_nan h = false -> is_nan n = false ->
  (higher h n = n /\ below h n) \/ (higher h n = h /\ ~ below h n).
Proof.
  intros Nh Nn. unfold higher.
  destruct (is_poszero n && is_negzero h) eqn:Z.
  - apply andb_true_iff in Z. destruct Z as [Zn Zh].
    assert (E : zero = n).
    { pose proof (place_range n) as R. unfold well_placed in R.
      positions. apply same_place; constants; lia. }
    rewrite <- E at 1.
    replace (zero <? zero)%float with false by reflexivity.
    left. split; [exact E|]. float_lia.
  - destruct (h <? n)%float eqn:L.
    + left. split; [reflexivity|]. float_lia.
    + right. split; [reflexivity|].
      apply andb_false_iff in Z.
      pose proof (place_range n) as Rn. pose proof (place_range h) as Rh.
      destruct Z as [Z | Z]; float_lia.
Qed.

Definition no_nan (xs : list float) : Prop := Forall (fun x => is_nan x = false) xs.

(** the running minimum is the least of the start value and the numbers *)
Lemma min_from_least xs : forall l,
  is_nan l = false -> no_nan xs ->
  is_nan (min_from l xs) = false
  /\ (min_from l xs = l \/ In (min_from l xs) xs)
  /\ ~ below l (min_from l xs)
  /\ Forall (fun x => ~ below x (min_from l xs)) xs.
Proof.
  induction xs as [|n rest IH]; intros l Nl Nxs; simpl.
  - repeat split; auto using below_irrefl.
  - inversion Nxs as [|? ? Nn Nrest]; subst. rewrite Nn.
    destruct (lower_spec l n Nl Nn) as [[E B] | [E B]]; rewrite E.
    + destruct (IH n Nn Nrest) as [N' [I [L F]]].
      repeat split; auto.
      * destruct I as [-> | I]; auto.
      * intros C. apply L. eapply below_trans; eassumption.
    + destruct (IH l Nl Nrest) as [N' [I [L F]]].
      repeat split; auto.
      * destruct I as [-> | I]; auto.
      * constructor; [|exact F]. eapply not_below_trans; eassumption.
Qed.

Lemma max_from_greatest xs : forall h,
  is_nan h = false -> no_nan xs ->
  is_nan (max_from h xs) = false
  /\ (max_from h xs = h \/ In (max_from h xs) xs)
  /\ ~ below (max_from h xs) h
  /\ Forall (fun x => ~ below (max_from h xs) x) xs.
Proof.
  induction xs as [|n rest IH]; intros h Nh Nxs; simpl.
  - repeat split; auto using below_irrefl.
  - inversion Nxs as [|? ? Nn Nrest]; subst. rewrite Nn.
    destruct (higher_spec h n Nh Nn) as [[E B] | [E B]]; rewrite E.
    + destruct (IH n Nn Nrest) as [N' [I [L F]]].
      repeat split; auto.
      * destruct I as [-> | I]; auto.
      * intros C. apply L. eapply below_trans; eassumption.
    + destruct (IH h Nh Nrest) as [N' [I [L F]]].
      repeat split; auto.
      * destruct I as [-> | I]; auto.
      * constructor; [|exact F]. eapply not_below_trans; eassumption.
Qed.

Lemma not_nan_infinity : is_nan infinity = false.
Proof. reflexivity. Qed.

Lemma not_nan_neg_infinity : is_nan neg_infinity = false.
Proof. reflexivity. Qed.

(** [Math.min(a, ...xs)] is [Math.min(a, Math.min(...xs))] *)
Lemma Math_min_cons a xs :
  is_nan a = false -> no_nan xs ->
  Math_min (a :: xs) = Math_min [a; Math_min xs].
Proof.
  intros Na Nxs. unfold Math_min.
  destruct (min_from_least (a :: xs) infinity not_nan_infinity) as [N1 [I1 [L1 F1]]];
    [constructor; assumption|].
  destruct (min_from_least xs infinity not_nan_infinity Nxs) as [N2 [I2 [L2 F2]]].
  destruct (min_from_least [a; min_from infinity xs] infinity not_nan_infinity)
    as [N3 [I3 [L3 F3]]]; [repeat constructor; assumption|].
  set (lo := min_from infinity (a :: xs)) in *.
  set (m := min_from infinity xs) in *.
  set (r := min_from infinity [a; m]) in *.
  inversion F1 as [|? ? F1a F1xs]; subst.
  inversion F3 as [|? ? F3a F3'']; subst. inversion F3'' as [|? ? F3m _]; subst.
  rewrite Forall_forall in F1xs, F2.
  apply not_below_antisym.
  - destruct I1 as [-> | [<- | I1]]; auto.
    eapply not_below_trans; [exact F3m | apply F2, I1].
  - destruct I3 as [-> | [<- | [<- | []]]]; auto.
    destruct I2 as [-> | I2]; auto.
Qed.

Lemma Math_max_cons a xs :
  is_nan a = false -> no_nan xs ->
  Math_max (a :: xs) = Math_max [a; Math_max xs].
Proof.
  intros Na Nxs. unfold Math_max.
  destruct (max_from_greatest (a :: xs) neg_infinity not_nan_neg_infinity)
    as [N1 [I1 [L1 F1]]]; [constructor; assumption|].
  destruct (max_from_greatest xs neg_infinity not_nan_neg_infinity Nxs)
    as [N2 [I2 [L2 F2]]].
  destruct (max_from_greatest [a; max_from neg_infinity xs] neg_infinity
              not_nan_neg_infinity)
    as [N3 [I3 [L3 F3]]]; [repeat constructor; assumption|].
  set (hi := max_from neg_infinity (a :: xs)) in *.
  set (m := max_from neg_infinity xs) in *.
  set (r := max_from neg_infinity [a; m]) in *.
  inversion F1 as [|? ? F1a F1xs]; subst.
  inversion F3 as [|? ? F3a F3'']; subst. inversion F3'' as [|? ? F3m _]; subst.
  rewrite Forall_forall in F1xs, F2.
  apply not_below_antisym.
  - destruct I3 as [-> | [<- | [<- | []]]]; auto.
    destruct I2 as [-> | I2]; auto.
  - destruct I1 as [-> | [<- | I1]]; auto.
    eapply not_below_trans; [apply F2, I1 | exact F3m].
Qed.

(** the bounds that [Math.min] and [Math.max] give, as comparisons *)
Lemma Math_min_le a xs x :
  is_nan a = false -> no_nan xs -> In x (a :: xs) ->
  (Math_min (a :: xs) <=? x)%float = true.
Proof.
  intros Na Nxs I. unfold Math_min.
  assert (Nall : no_nan (a :: xs)) by (constructor; assumption).
  destruct (min_from_least (a :: xs) infinity not_nan_infinity Nall) as [N1 [_ [_ F1]]].
  unfold no_nan in Nall. rewrite Forall_forall in F1, Nall.
  pose proof (F1 x I) as Fx. pose proof (Nall x I) as Nx.
  float_lia.
Qed.

Lemma Math_max_ge a xs x :
  is_nan a = false -> no_nan xs -> In x (a :: xs) ->
  (x <=? Math_max (a :: xs))%float = true.
Proof.
  intros Na Nxs I. unfold Math_max.
  assert (Nall : no_nan (a :: xs)) by (constructor; assumption).
  destruct (max_from_greatest (a :: xs) neg_infinity not_nan_neg_infinity Nall)
    as [N1 [_ [_ F1]]].
  unfold no_nan in Nall. rewrite Forall_forall in F1, Nall.
  pose proof (F1 x I) as Fx. pose proof (Nall x I) as Nx.
  float_lia.
Qed.

Lemma min_from_not_nan xs : forall l,
  is_nan (min_from l xs) = false -> no_nan xs.
Proof.
  induction xs as [|n rest IH]; intros l N; [constructor|].
  simpl in N. destruct (is_nan n) eqn:Nn; [discriminate N|].
  constructor; [exact Nn | eapply IH, N].
Qed.

(** ** Arithmetic on zeros *)

Lemma zero_cases x : p1 x = 0 -> exists s, Prim2SF x = S754_zero s.
Proof.
  unfold p1. destruct (Prim2SF x) as [s|[|]| |[|] m e]; simpl; intros E;
    try discriminate E. exists s. reflexivity.
Qed.

Lemma positive_cases x :
  p1 x = 1 \/ p1 x = 2 \/ p1 x = 3 ->
  (exists m e, Prim2SF x = S754_finite false m e)
  \/ Prim2SF x = S754_infinity false \/ Prim2SF x = S754_nan.
Proof.
  unfold p1. destruct (Prim2SF x) as [[|]|[|]| |[|] m e]; simpl; intros E;
    try lia; eauto.
Qed.

Lemma Prim2SF_one : Prim2SF 1 = S754_finite false 4503599627370496 (-52).
Proof. reflexivity. Qed.

(** the difference of two zeros is a zero *)
Lemma sub_zeros a b : p1 a = 0 -> p1 b = 0 -> p1 (a - b)%float = 0.
Proof.
  intros Za Zb. destruct (zero_cases a Za) as [sa Ea], (zero_cases b Zb) as [sb Eb].
  unfold p1. rewrite sub_spec, Ea, Eb. destruct sa, sb; reflexivity.
Qed.

(** for a zero [t] and a positive (or infinite, or undefined) height [H],
    [H - t / 1 * H] does not depend on the sign of [t] *)
Lemma height_minus_zero H t :
  p1 H = 1 \/ p1 H = 2 \/ p1 H = 3 -> p1 t = 0 ->
  (H - t / 1 * H)%float = (H - zero * H)%float.
Proof.
  intros PH Zt. destruct (zero_cases t Zt) as [s Et].
  apply Prim2SF_inj. rewrite !sub_spec, !mul_spec, !div_spec, Et, Prim2SF_one.
  replace (Prim2SF zero) with (S754_zero false) by reflexivity.
  destruct (positive_cases H PH) as [[m [e ->]] | [-> | ->]]; destruct s; reflexivity.
Qed.

(** a plot dimension [Math.max(least, x)] is positive, infinite or [NaN] *)
Lemma Math_max_positive least x :
  p1 least = 1 -> p1 (Math_max [least; x]) = 1 \/ p1 (Math_max [least; x]) = 2
                  \/ p1 (Math_max [least; x]) = 3.
Proof.
  intros P. pose proof (place_range (Math_max [least; x])) as R.
  destruct (is_nan x) eqn:Nx.
  - unfold Math_max. simpl.
    replace (is_nan least) with false by (symmetry; float_lia).
    rewrite Nx. right. right. reflexivity.
  - assert (Nl : is_nan least = false) by float_lia.
    pose proof (Math_max_ge least [x] least Nl) as G.
    specialize (G ltac:(repeat constructor; assumption) ltac:(left; reflexivity)).
    unfold well_placed in R. float_lia.
Qed.

(** ** [Math.max(1, z)] and [Math.abs] *)

Lemma Math_max_one z :
  Math_max [1%float; z]
  = if is_nan z then nan else if (1 <? z)%float then z else 1%float.
Proof.
  unfold Math_max, max_from.
  change (is_nan 1) with false. cbv iota.
  change (higher neg_infinity 1) with 1%float.
  destruct (is_nan z); [reflexivity|].
  unfold higher. change (is_negzero 1) with false. rewrite andb_false_r. reflexivity.
Qed.

Lemma Math_max_one_ge z :
  is_nan z = false -> (1 <=? Math_max [1%float; z])%float = true.
Proof.
  intros N. rewrite Math_max_one, N.
  destruct (1 <? z)%float eqn:L; [apply ltb_leb, L | reflexivity].
Qed.

Lemma Math_max_one_nan z : is_nan z = true -> Math_max [1%float; z] = nan.
Proof. intros N. rewrite Math_max_one, N. reflexivity. Qed.

Lemma Math_abs_nan x : is_nan (Math_abs x) = is_nan x.
Proof.
  unfold Math_abs. destruct (abs_place x) as [A _].
  destruct (is_nan x) eqn:N.
  - positions. rewrite A, N. reflexivity.
  - positions. rewrite A. pose proof (place_range x) as R. unfold well_placed in R.
    destruct (Z.eqb_spec (p1 x) 3); lia.
Qed.

(** ** The comparator [a - b] *)

Lemma not_nan_spec x : is_nan x = false -> Prim2SF x <> S754_nan.
Proof.
  intros N E. apply is_nan_false in N. apply N. unfold p1. rewrite E. reflexivity.
Qed.

(** [a - b > 0] exactly when [a > b] *)
Lemma sub_positive (a b : float) :
  is_nan a = false -> is_nan b = false ->
  (zero <? a - b)%float = (b <? a)%float.
Proof.
  intros Na Nb. rewrite !ltb_spec, sub_spec.
  replace (Prim2SF zero) with (S754_zero false) by reflexivity.
  apply Rounding.SFsub_sign; auto using Prim2SF_valid, not_nan_spec.
Qed.

Lemma sub_nan_l (a b : float) : is_nan a = true -> is_nan (a - b) = true.
Proof.
  intros N. apply is_nan_true in N. apply is_nan_true.
  unfold p1 in *. rewrite sub_spec.
  destruct (Prim2SF a) as [[|]|[|]| |[|] m e]; simpl in N; try discriminate N.
  reflexivity.
Qed.

Lemma sub_nan_r (a b : float) : is_nan b = true -> is_nan (a - b) = true.
Proof.
  intros N. apply is_nan_true in N. apply is_nan_true.
  unfold p1 in *. rewrite sub_spec.
  destruct (Prim2SF b) as [[|]|[|]| |[|] m e]; simpl in N; try discriminate N.
  destruct (Prim2SF a); reflexivity.
Qed.

(** a positive difference means the first operand is the greater one,
    whatever the operands *)
Lemma sub_positive_gt (a b : float) :
  (zero <? a - b)%float = true -> (b <? a)%float = true.
Proof.
  intros P. destruct (is_nan a) eqn:Na.
  - pose proof (sub_nan_l a b Na). float_lia.
  - destruct (is_nan b) eqn:Nb.
    + pose proof (sub_nan_r a b Nb). float_lia.
    + rewrite <- sub_positive; assumption.
Qed.

End FloatFacts.

(* ===================================================================== *)
(** * Monotone arithmetic and the sizes of the chart                      *)
(* ===================================================================== *)

(** Addition, subtraction, multiplication and division of binary64
    numbers round a monotone function of the exact result, so each of
    them keeps the order of its operands where the other operand is a
    finite number (positive, for the last two). *)

Module Monotone.
Import Rounding.
Import JS Macc FloatFacts.
Local Open Scope Z_scope.
Local Open Scope float_scope.

(** ** The operations on numbers *)


Lemma positive_shape (c : float) :
  isFinite c = true -> (zero <? c)%float = true ->
  exists m e, Prim2SF c = S754_finite false m e /\ bounded prec emax m e = true.
Proof.
  intros F P. pose proof (Prim2SF_valid c) as V.
  apply isFinite_true in F. apply ltb_true in P. unfold below, p1, p2, p3 in *.
  change (Prim2SF zero) with (S754_zero false) in P. cbn [pos fst snd] in P.
  destruct (Prim2SF c) as [[|]|[|]| |[|] m e]; cbn [pos fst snd] in *; try lia.
  exists m, e. split; [reflexivity | exact V].
Qed.

Lemma finite_plain (c : float) : isFinite c = true -> plain (Prim2SF c).
Proof.
  intros F. apply isFinite_true in F. unfold p1 in F.
  destruct (Prim2SF c) as [[|]|[|]| |[|] m e]; cbn [pos fst snd] in F; try lia; exact I.
Qed.

Lemma plain_opp (x : spec_float) : plain x -> plain (SFopp x).
Proof. destruct x; simpl; tauto. Qed.

Lemma add_mono (c x1 x2 : float) :
  isFinite c = true -> (x1 <=? x2)%float = true -> (c + x1 <=? c + x2)%float = true.
Proof.
  intros F L. rewrite leb_spec in *. rewrite !add_spec.
  apply SFadd_mono; auto using Prim2SF_valid, finite_plain.
Qed.

Lemma sub_mono (c x1 x2 : float) :
  isFinite c = true -> (x1 <=? x2)%float = true -> (x1 - c <=? x2 - c)%float = true.
Proof.
  intros F L. rewrite leb_spec in *. rewrite !sub_spec, !SFsub_add.
  rewrite (SFadd_comm (Prim2SF x1)), (SFadd_comm (Prim2SF x2)).
  apply SFadd_mono; auto using Prim2SF_valid, finite_plain, plain_opp.
  rewrite valid_opp. apply Prim2SF_valid.
Qed.

Lemma sub_anti (c x1 x2 : float) :
  isFinite c = true -> (x1 <=? x2)%float = true -> (c - x2 <=? c - x1)%float = true.
Proof.
  intros F L. rewrite leb_spec in *. rewrite !sub_spec, !SFsub_add.
  apply SFadd_mono; auto using Prim2SF_valid, finite_plain.
  - rewrite valid_opp. apply Prim2SF_valid.
  - rewrite valid_opp. apply Prim2SF_valid.
  - apply SFle_opp, L.
Qed.

Lemma mul_mono (c x1 x2 : float) :
  isFinite c = true -> (zero <? c)%float = true ->
  (x1 <=? x2)%float = true -> (x1 * c <=? x2 * c)%float = true.
Proof.
  intros F P L. destruct (positive_shape c F P) as [m [e [E B]]].
  rewrite leb_spec in *. rewrite !mul_spec, E.
  apply SFmul_mono; auto using Prim2SF_valid.
Qed.

Lemma div_mono (c x1 x2 : float) :
  isFinite c = true -> (zero <? c)%float = true ->
  (x1 <=? x2)%float = true -> (x1 / c <=? x2 / c)%float = true.
Proof.
  intros F P L. destruct (positive_shape c F P) as [m [e [E B]]].
  rewrite leb_spec in *. rewrite !div_spec, E.
  apply SFdiv_mono; auto using Prim2SF_valid.
Qed.

Lemma xScale_mono (T W v1 v2 : float) :
  isFinite T = true -> (zero <? T)%float = true ->
  isFinite W = true -> (zero <? W)%float = true ->
  (v1 <=? v2)%float = true ->
  (xScale T W v1 <=? xScale T W v2)%float = true.
Proof.
  intros FT PT FW PW L. unfold xScale.
  apply add_mono; [reflexivity|]. apply mul_mono; try assumption.
  apply div_mono; assumption.
Qed.

Lemma yScale_anti (lo hi H v1 v2 : float) :
  isFinite lo = true ->
  isFinite (divisor lo hi) = true -> (zero <? divisor lo hi)%float = true ->
  isFinite H = true -> (zero <? H)%float = true ->
  (v1 <=? v2)%float = true ->
  (yScale lo hi H v2 <=? yScale lo hi H v1)%float = true.
Proof.
  intros Fl Fd Pd FH PH L. unfold yScale.
  apply add_mono; [reflexivity|]. apply sub_anti; [assumption|].
  apply mul_mono; try assumption. apply div_mono; try assumption.
  apply sub_mono; assumption.
Qed.

(** ** The sizes that the scales are built from *)


Lemma add_comm (x y : float) : x + y = y + x.
Proof. apply Prim2SF_inj. rewrite !add_spec. apply SFadd_comm. Qed.

Lemma add_zero_r (a : float) : isFinite a = true -> is_zero a = false -> a + zero = a.
Proof.
  intros F Z. apply isFinite_true in F. apply is_zero_false in Z.
  apply Prim2SF_inj. rewrite add_spec. unfold p1 in *.
  change (Prim2SF zero) with (S754_zero false).
  destruct (Prim2SF a) as [[|]|[|]| |[|] m e]; cbn [pos fst snd] in *;
    try lia; reflexivity.
Qed.

Lemma sub_zero_r (a : float) : isFinite a = true -> a - zero = a.
Proof.
  intros F. apply isFinite_true in F.
  apply Prim2SF_inj. rewrite sub_spec. unfold p1 in *.
  change (Prim2SF zero) with (S754_zero false).
  destruct (Prim2SF a) as [[|]|[|]| |[|] m e]; cbn [pos fst snd] in *;
    try lia; reflexivity.
Qed.

(** adding a positive number to a non-negative one gives a positive number *)
Lemma add_positive (s a : float) :
  (zero <=? s) = true -> isFinite a = true -> (zero <? a) = true ->
  (zero <? s + a) = true.
Proof.
  intros S F P. pose proof (add_mono a zero s F S) as M.
  rewrite add_zero_r in M by (assumption || float_lia).
  rewrite (add_comm s a). float_lia.
Qed.

Lemma fold_positive (rest : list item) : forall acc : float,
  (zero <? acc) = true -> forallb keep rest = true ->
  (zero <? fold_left (fun s d => s + abatement d) rest acc) = true.
Proof.
  induction rest as [|d rest IH]; intros acc P K; [exact P|].
  cbn [forallb] in K. apply andb_true_iff in K. destruct K as [Kd K].
  unfold keep in Kd. apply andb_true_iff in Kd. destruct Kd as [F A].
  cbn [fold_left]. apply IH; [|exact K].
  apply add_positive; try assumption. apply ltb_leb, P.
Qed.

Lemma total_positive (items : list item) :
  items <> [] -> forallb keep items = true -> (zero <? total_of items) = true.
Proof.
  intros N K. destruct items as [|d rest]; [congruence|].
  cbn [forallb] in K. apply andb_true_iff in K. destruct K as [Kd K].
  unfold keep in Kd. apply andb_true_iff in Kd. destruct Kd as [F A].
  unfold total_of. cbn [fold_left]. apply fold_positive; [|exact K].
  apply add_positive; try assumption. reflexivity.
Qed.

(** the least finite number *)
Definition lowest_number : float := (- 0x1.fffffffffffffp+1023)%float.

Lemma finite_lower (x : float) : isFinite x = true -> (lowest_number <=? x) = true.
Proof.
  intros F. apply isFinite_true in F. apply leb_true. pose proof (Prim2SF_valid x) as V.
  unfold below, p1, p2, p3 in *.
  change (Prim2SF lowest_number) with (S754_finite true 9007199254740991 971).
  destruct (Prim2SF x) as [[|]|[|]| |[|] m e]; cbn [pos fst snd] in *; try lia.
  cbn [valid_binary] in V. pose proof (bounded_shape m e V) as [_ [D _]].
  unfold bounded in V. apply andb_true_iff in V. destruct V as [_ E].
  apply Z.leb_le in E. change (FloatOps.emax - FloatOps.prec)%Z with 971%Z in E.
  change (Zpos (digits2_pos m)) with (Zdigits2 (Zpos m)) in D.
  destruct (Zdigits2_bounds (Zpos m) ltac:(lia)) as [_ U].
  assert (2 ^ Zdigits2 (Zpos m) <= 2 ^ 53)%Z by (apply Z.pow_le_mono_r; lia).
  change (2 ^ 53)%Z with 9007199254740992%Z in *. lia.
Qed.

(** taking a margin off a finite size leaves a finite size *)
Lemma sub_margin_finite (x c : float) :
  isFinite x = true -> isFinite c = true -> (zero <=? c) = true ->
  lowest_number - c = lowest_number ->
  isFinite (x - c) = true.
Proof.
  intros Fx Fc P E.
  pose proof (sub_anti x zero c Fx P) as U. rewrite sub_zero_r in U by exact Fx.
  pose proof (sub_mono c lowest_number x Fc (finite_lower x Fx)) as L. rewrite E in L.
  apply isFinite_true. apply isFinite_true in Fx.
  apply leb_true in U, L. clear Fc P E.
  pose proof (place_range (x - c)) as R. unfold below, well_placed in *.
  change (p1 lowest_number) with (-1)%Z in *. lia.
Qed.

Lemma Math_max_pair_finite (least y : float) :
  isFinite least = true -> (zero <? least) = true -> isFinite y = true ->
  isFinite (Math_max [least; y]) = true /\ (zero <? Math_max [least; y]) = true.
Proof.
  intros Fl Pl Fy.
  assert (Nl : is_nan least = false) by float_lia.
  assert (Ny' : is_nan y = false) by float_lia.
  assert (Ny : no_nan [y]) by (repeat constructor; exact Ny').
  pose proof (Math_max_ge least [y] least Nl Ny (or_introl eq_refl)) as G.
  unfold Math_max in *.
  destruct (max_from_greatest [least; y] neg_infinity not_nan_neg_infinity)
    as [N [I _]]; [constructor; [exact Nl | exact Ny]|].
  replace (existsb is_nan [least; y]) with false in *
    by (cbn [existsb]; rewrite Nl, Ny'; reflexivity).
  set (r := max_from neg_infinity [least; y]) in *.
  assert (F : isFinite r = true).
  { destruct I as [E | [E | [E | []]]]; try (rewrite <- E; assumption).
    rewrite E in G. float_lia. }
  split; [exact F|]. float_lia.
Qed.

Lemma plot_W_finite (width : float) :
  isFinite width = true ->
  isFinite (plot_W width) = true /\ (zero <? plot_W width) = true.
Proof.
  intros F. unfold plot_W. apply Math_max_pair_finite; try reflexivity.
  apply sub_margin_finite; try reflexivity.
  apply sub_margin_finite; try reflexivity. exact F.
Qed.

Lemma plot_H_finite (height : float) :
  isFinite height = true ->
  isFinite (plot_H height) = true /\ (zero <? plot_H height) = true.
Proof.
  intros F. unfold plot_H. apply Math_max_pair_finite; try reflexivity.
  apply sub_margin_finite; try reflexivity.
  apply sub_margin_finite; try reflexivity. exact F.
Qed.

(** ** The cost domain of valid items *)

Lemma valid_items_keep (items : list item) :
  forallb valid_item items = true -> forallb keep items = true.
Proof.
  rewrite !forallb_forall. intros V d I. specialize (V d I).
  unfold valid_item in V. apply andb_true_iff in V. apply V.
Qed.

Lemma valid_costs (items : list item) :
  forallb valid_item items = true ->
  forall c, In c (zero :: map cost items) -> isFinite c = true.
Proof.
  rewrite forallb_forall. intros V c [<- | I]; [reflexivity|].
  apply in_map_iff in I. destruct I as [d [<- I]]. specialize (V d I).
  unfold valid_item in V. apply andb_true_iff in V. apply V.
Qed.

Lemma valid_costs_no_nan (items : list item) :
  forallb valid_item items = true -> no_nan (zero :: map cost items).
Proof.
  intros V. unfold no_nan. rewrite Forall_forall. intros c I.
  pose proof (valid_costs items V c I). float_lia.
Qed.

Lemma no_nan_existsb (xs : list float) : no_nan xs -> existsb is_nan xs = false.
Proof.
  induction 1 as [|x xs Nx _ IH]; [reflexivity|].
  cbn [existsb]. rewrite Nx, IH. reflexivity.
Qed.

Lemma minCost_finite (items : list item) :
  forallb valid_item items = true ->
  isFinite (minCost_of items) = true /\ (minCost_of items <=? zero) = true.
Proof.
  intros V. pose proof (valid_costs_no_nan items V) as N.
  assert (L : (minCost_of items <=? zero) = true).
  { inversion N; subst.
    apply Math_min_le; [reflexivity | assumption | left; reflexivity]. }
  split; [|exact L]. unfold minCost_of, Math_min in *.
  destruct (min_from_least _ infinity not_nan_infinity N) as [N1 [I _]].
  replace (existsb is_nan (zero :: map cost items)) with false in *
    by (symmetry; apply no_nan_existsb, N).
  destruct I as [E | I]; [rewrite E in L; vm_compute in L; discriminate L|].
  apply (valid_costs items V), I.
Qed.

Lemma maxCost_finite (items : list item) :
  forallb valid_item items = true ->
  isFinite (maxCost_of items) = true /\ (zero <=? maxCost_of items) = true.
Proof.
  intros V. pose proof (valid_costs_no_nan items V) as N.
  assert (L : (zero <=? maxCost_of items) = true).
  { inversion N; subst.
    apply Math_max_ge; [reflexivity | assumption | left; reflexivity]. }
  split; [|exact L]. unfold maxCost_of, Math_max in *.
  destruct (max_from_greatest _ neg_infinity not_nan_neg_infinity N) as [N1 [I _]].
  replace (existsb is_nan (zero :: map cost items)) with false in *
    by (symmetry; apply no_nan_existsb, N).
  destruct I as [E | I]; [rewrite E in L; vm_compute in L; discriminate L|].
  apply (valid_costs items V), I.
Qed.

(** the divisor of the cost scale is positive, and finite when the span of
    the costs is *)
Lemma divisor_positive (items : list item) :
  forallb valid_item items = true ->
  isFinite (maxCost_of items - minCost_of items) = true ->
  isFinite (divisor (minCost_of items) (maxCost_of items)) = true
  /\ (zero <? divisor (minCost_of items) (maxCost_of items)) = true.
Proof.
  intros V F.
  destruct (minCost_finite items V) as [Fl Ll], (maxCost_finite items V) as [Fh Lh].
  set (lo := minCost_of items) in *. set (hi := maxCost_of items) in *.
  unfold divisor. destruct (num_truthy (hi - lo)) eqn:T; [|split; reflexivity].
  split; [exact F|].
  rewrite sub_positive by float_lia.
  destruct (lo <? hi) eqn:C; [reflexivity | exfalso].
  assert (Z : p1 hi = 0%Z /\ p1 lo = 0%Z) by (clear T F; float_lia).
  destruct Z as [Zh Zl]. pose proof (sub_zeros hi lo Zh Zl). float_lia.
Qed.

End Monotone.



(* ===================================================================== *)
(** * Properties of the script                                           *)
(* ===================================================================== *)

Module Properties.
Import JS Macc FloatFacts.

(** ** Data Normalizer *)

Lemma in_items_of B rows d :
  In d (items_of B rows) <->
  exists r, In r rows /\ d = item_of_row B r /\ keep d = true.
Proof.
  unfold items_of. rewrite filter_In, in_map_iff. split.
  - intros [[r [E I]] K]. exists r. auto.
  - intros [r [I [E K]]]. split; [exists r|]; auto.
Qed.

(** C2, as amended: the normalized items are exactly the items of the rows
    whose quantity is finite and strictly positive, one item per such row
    and in row order; the cost takes no part in the filter. *)
Theorem normalizer_keeps_finite_positive_quantity (B : Builtins) (rows : list row) :
  let quantity := fun r => abatement (item_of_row B r) in
  items_of B rows
  = map (item_of_row B)
        (filter (fun r => isFinite (quantity r) && (zero <? quantity r)%float) rows)
  /\ (forall d, In d (items_of B rows) <->
        exists r, In r rows /\ d = item_of_row B r /\
                  isFinite (abatement d) = true /\ (zero <? abatement d)%float = true)
  /\ (forall before after,
        rows = before ++ after ->
        items_of B rows = items_of B before ++ items_of B after).
Proof.
  intros quantity. split; [|split].
  - unfold items_of. induction rows as [|r rest IH]; [reflexivity|].
    cbn [map filter]. unfold keep at 1. fold (quantity r).
    destruct (isFinite (quantity r) && (zero <? quantity r)%float);
      cbn [map]; rewrite IH; reflexivity.
  - intros d. rewrite in_items_of. unfold keep.
    split; intros [r [I [E K]]]; exists r; repeat split; auto.
    + apply andb_true_iff in K. tauto.
    + apply andb_true_iff in K. tauto.
    + apply andb_true_iff. exact K.
  - intros before after ->. unfold items_of. rewrite map_app, filter_app. reflexivity.
Qed.

(** C2, the counterexample: a row with quantity 5 and cost [NaN] yields a
    normalized item whose cost is not finite. *)
Lemma normalizer_keeps_nonfinite_cost :
  ~ (forall (B : Builtins) (rows : list row) (d : item),
       In d (items_of B rows) ->
       isFinite (abatement d) = true /\ (zero <? abatement d)%float = true /\
       isFinite (cost d) = true).
Proof.
  intros claim.
  destruct (claim example_host [example_row "A" 5 nan]
                  (item_of_row example_host (example_row "A" 5 nan))) as [_ [_ F]].
  - vm_compute. left. reflexivity.
  - vm_compute in F. discriminate F.
Qed.

(** ** Sorter: the result is a rearrangement of the items *)

Section SortFacts.
Context {A : Type} (comparefn : A -> A -> float).

Lemma insert_perm (x : A) (l : list A) :
  Permutation (insert comparefn x l) (x :: l).
Proof.
  induction l as [|y l IH]; simpl.
  - apply Permutation_refl.
  - destruct (zero <? comparefn x y)%float.
    + eapply perm_trans; [apply perm_skip, IH | apply perm_swap].
    + apply Permutation_refl.
Qed.

Lemma sort_perm (l : list A) : Permutation (sort comparefn l) l.
Proof.
  induction l as [|x l IH]; simpl.
  - apply perm_nil.
  - eapply perm_trans; [apply insert_perm | apply perm_skip, IH].
Qed.

Lemma sort_nonempty (l : list A) : l <> [] -> sort comparefn l <> [].
Proof.
  intros N E. apply N. apply Permutation_nil.
  rewrite <- E. apply sort_perm.
Qed.

End SortFacts.

(** ** Sorter: order and stability *)

Lemma by_cost_positive (x y : item) :
  (zero <? by_cost x y)%float = true -> (cost y <? cost x)%float = true.
Proof. apply sub_positive_gt. Qed.

Lemma insert_stable (c : float) (x : item) (l : list item) :
  filter (with_cost c) (insert by_cost x l) = filter (with_cost c) (x :: l).
Proof.
  induction l as [|y rest IH]; [reflexivity|].
  cbn [insert]. destruct (zero <? by_cost x y)%float eqn:G; [|reflexivity].
  apply by_cost_positive in G.
  cbn [filter] in *. rewrite IH.
  destruct (with_cost c x) eqn:Px, (with_cost c y) eqn:Py; try reflexivity.
  unfold with_cost in *. float_lia.
Qed.

Lemma sort_stable (c : float) (l : list item) :
  filter (with_cost c) (sort by_cost l) = filter (with_cost c) l.
Proof.
  induction l as [|x rest IH]; [reflexivity|].
  cbn [sort fold_right]. fold (sort by_cost rest).
  rewrite insert_stable. cbn [filter]. rewrite IH. reflexivity.
Qed.

Lemma insert_sorted (x : item) (l : list item) :
  is_nan (cost x) = false -> no_nan_cost l ->
  StronglySorted cost_le l -> StronglySorted cost_le (insert by_cost x l).
Proof.
  intros Nx Nl S. induction S as [|y rest S IH F]; cbn [insert].
  - repeat constructor.
  - inversion Nl as [|? ? Ny Nrest]; subst.
    unfold by_cost at 1. rewrite (sub_positive _ _ Nx Ny).
    destruct (cost y <? cost x)%float eqn:L.
    + constructor; [apply IH, Nrest|].
      apply (Permutation_Forall (Permutation_sym (insert_perm by_cost x rest))).
      constructor; [apply ltb_leb, L | exact F].
    + assert (Lxy : cost_le x y) by (unfold cost_le; float_lia).
      constructor; [constructor; assumption|].
      constructor; [exact Lxy|].
      eapply Forall_impl; [|exact F]. intros z Lyz. unfold cost_le in *.
      eapply leb_trans; eassumption.
Qed.

Lemma sort_sorted (l : list item) :
  no_nan_cost l -> StronglySorted cost_le (sort by_cost l).
Proof.
  intros N. induction N as [|x rest Nx Nrest IH]; cbn [sort fold_right].
  - constructor.
  - fold (sort by_cost rest). apply insert_sorted; [exact Nx | | exact IH].
    apply (Permutation_Forall (Permutation_sym (sort_perm by_cost rest))), Nrest.
Qed.

(** two ascending rearrangements of the same items that keep the order
    of the items of each cost are the same list *)
Lemma stable_sorted_unique (l1 : list item) : forall l2 : list item,
  no_nan_cost l1 -> Permutation l1 l2 ->
  StronglySorted cost_le l1 -> StronglySorted cost_le l2 ->
  (forall c, filter (with_cost c) l1 = filter (with_cost c) l2) ->
  l1 = l2.
Proof.
  induction l1 as [|a r1 IH]; intros l2 N P S1 S2 F.
  - apply Permutation_nil in P. congruence.
  - destruct l2 as [|b r2]; [apply Permutation_sym, Permutation_nil in P; discriminate P|].
    inversion N as [|? ? Na Nr]; subst.
    inversion S1 as [|? ? S1' F1]; subst. inversion S2 as [|? ? S2' F2]; subst.
    rewrite Forall_forall in F1, F2.
    assert (Nb : is_nan (cost b) = false).
    { assert (I : In b (a :: r1))
        by (apply (Permutation_in _ (Permutation_sym P)); left; reflexivity).
      unfold no_nan_cost in N. rewrite Forall_forall in N. apply N, I. }
    assert (Lab : (cost a <=? cost b)%float = true).
    { assert (I : In b (a :: r1))
        by (apply (Permutation_in _ (Permutation_sym P)); left; reflexivity).
      destruct I as [<- | I]; [apply leb_refl, Na | apply F1, I]. }
    assert (Lba : (cost b <=? cost a)%float = true).
    { assert (I : In a (b :: r2)) by (apply (Permutation_in _ P); left; reflexivity).
      destruct I as [<- | I]; [apply leb_refl, Nb | apply F2, I]. }
    assert (Wa : with_cost (cost a) a = true) by (unfold with_cost; clear - Na; float_lia).
    assert (Wb : with_cost (cost a) b = true)
      by (unfold with_cost; clear - Lab Lba; float_lia).
    pose proof (F (cost a)) as Fa. cbn [filter] in Fa. rewrite Wa, Wb in Fa.
    injection Fa as Eab _. subst b. f_equal.
    apply IH; try assumption.
    + apply (Permutation_cons_inv P).
    + intros c. specialize (F c). cbn [filter] in F.
      destruct (with_cost c a); [injection F as F|]; exact F.
Qed.

(** C4, as amended: the sorted list is a rearrangement of the normalized
    items.  When no cost is [NaN] it is ascending (every item's cost is less
    than or equal to the cost of each item after it) and stable (for every
    cost [c], the items of cost [c] appear in the same order before and
    after), and it is the only rearrangement that is both, so every engine
    returns it.  With a [NaN] cost the comparator is not consistent and
    neither property is stated. *)
Theorem sort_ascending_stable (items : list item) :
  Permutation (sort by_cost items) items
  /\ (no_nan_cost items ->
      StronglySorted cost_le (sort by_cost items)
      /\ (forall c, filter (with_cost c) (sort by_cost items) = filter (with_cost c) items)
      /\ (forall l, Permutation l items -> StronglySorted cost_le l ->
                    (forall c, filter (with_cost c) l = filter (with_cost c) items) ->
                    l = sort by_cost items)).
Proof.
  split; [apply sort_perm|]. intros N.
  split; [apply sort_sorted, N|]. split; [intros c; apply sort_stable|].
  intros l P S F. symmetry. apply stable_sorted_unique.
  - apply (Permutation_Forall (Permutation_sym (sort_perm by_cost items))), N.
  - eapply perm_trans; [apply sort_perm | apply Permutation_sym, P].
  - apply sort_sorted, N.
  - exact S.
  - intros c. rewrite sort_stable, F. reflexivity.
Qed.

Lemma sort_ascending_stable_witness :
  let items := [item_of_row example_host (example_row "A" 10 5);
                item_of_row example_host (example_row "B" 20 (-3));
                item_of_row example_host (example_row "C" 30 5)] in
  no_nan_cost items
  /\ StronglySorted cost_le (sort by_cost items)
  /\ map action (sort by_cost items) = [VStr "B"; VStr "A"; VStr "C"].
Proof.
  intros items.
  assert (N : no_nan_cost items) by (repeat constructor).
  destruct (sort_ascending_stable items) as [_ S].
  destruct (S N) as [A _].
  split; [exact N|]. split; [exact A | reflexivity].
Defined.

(** C4, the counterexample: the rows with costs 2, [NaN], 1 are
    normalized items; [a.cost - b.cost] is [NaN] whenever one cost is, which
    the sort reads as equal, so the list stays as it is, with cost 1 after
    cost 2. *)
Lemma sort_not_ascending_with_nan :
  ~ (forall (B : Builtins) (rows : list row) (pre mid post : list item) (a b : item),
       sort by_cost (items_of B rows) = pre ++ a :: mid ++ b :: post ->
       (cost b <? cost a)%float = false).
Proof.
  intros claim.
  pose (i2 := item_of_row example_host (example_row "A" 1 2)).
  pose (iN := item_of_row example_host (example_row "B" 1 nan)).
  pose (i1 := item_of_row example_host (example_row "C" 1 1)).
  specialize (claim example_host
                [example_row "A" 1 2; example_row "B" 1 nan; example_row "C" 1 1]
                [] [iN] [] i2 i1 ltac:(vm_compute; reflexivity)).
  vm_compute in claim. discriminate claim.
Qed.

(** ** Accumulator *)

Lemma accumulate_it acc items : map it (accumulate acc items) = items.
Proof.
  revert acc. induction items as [|d rest IH]; intros acc; simpl; [reflexivity|].
  now rewrite IH.
Qed.

Lemma accumulate_x1 acc items p :
  In p (accumulate acc items) -> x1 p = (x0 p + abatement (it p))%float.
Proof.
  revert acc. induction items as [|d rest IH]; intros acc; simpl; [tauto|].
  intros [<- | I]; [reflexivity | eauto].
Qed.

Lemma accumulate_adjacent acc items pre p q post :
  accumulate acc items = pre ++ p :: q :: post -> x0 q = x1 p.
Proof.
  revert acc pre. induction items as [|d rest IH]; intros acc pre E.
  - destruct pre; discriminate E.
  - simpl in E. destruct pre as [|p0 pre]; simpl in E.
    + injection E as <- E. destruct rest as [|d' rest']; simpl in E; [discriminate E|].
      injection E as <- _. reflexivity.
    + injection E as _ E. eapply IH, E.
Qed.

Lemma accumulate_last acc items init p :
  accumulate acc items = init ++ [p] ->
  x1 p = fold_left (fun s d => (s + abatement d)%float) items acc.
Proof.
  revert acc init. induction items as [|d rest IH]; intros acc init E.
  - destruct init; discriminate E.
  - simpl in E. destruct init as [|p0 init]; simpl in E.
    + injection E as <- E. destruct rest; [reflexivity | discriminate E].
    + injection E as _ E. simpl. eapply IH, E.
Qed.

Lemma accumulate_ends acc d rest :
  exists init p, accumulate acc (d :: rest) = init ++ [p].
Proof.
  destruct (exists_last (l := accumulate acc (d :: rest))) as [init [p E]].
  - simpl. discriminate.
  - exists init, p. exact E.
Qed.

(** C1, as amended: the ranges of the sorted items chain from 0 to the
    total: one range per item in sorted order, the first starts at 0, each
    next one starts where the previous one ends, every range ends at the
    binary64 sum [rangeStart + quantity], and the last range ends at
    [totalQuantity], the binary64 sum of the quantities from left to right. *)
Theorem ranges_chain_to_total (items : list item) :
  let sorted := sort by_cost items in
  let bars := accumulate zero sorted in
  items <> [] ->
  map it bars = sorted
  /\ (exists p rest, bars = p :: rest /\ x0 p = zero)
  /\ (forall pre p q post, bars = pre ++ p :: q :: post -> x0 q = x1 p)
  /\ (forall p, In p bars -> x1 p = (x0 p + abatement (it p))%float)
  /\ (exists init p, bars = init ++ [p] /\ x1 p = total_of sorted).
Proof.
  intros sorted bars N. subst bars.
  assert (S : sorted <> []) by (apply sort_nonempty, N).
  destruct sorted as [|d rest]; [congruence|].
  repeat split.
  - apply accumulate_it.
  - simpl. eauto.
  - intros pre p q post. apply accumulate_adjacent.
  - intros p. apply accumulate_x1.
  - destruct (accumulate_ends zero d rest) as [init [p E]].
    exists init, p. split; [exact E|]. apply (accumulate_last _ _ _ _ E).
Qed.

Lemma ranges_chain_to_total_witness :
  let items := [item_of_row example_host (example_row "A" 10 5);
                item_of_row example_host (example_row "B" 20 (-3))] in
  let bars := accumulate zero (sort by_cost items) in
  items <> []
  /\ map it bars = sort by_cost items
  /\ (exists init p, bars = init ++ [p] /\ x1 p = total_of (sort by_cost items)).
Proof.
  intros items bars. split; [discriminate|].
  pose proof (ranges_chain_to_total items) as T.
  destruct T as [T1 [_ [_ [_ T5]]]]; [discriminate|].
  split; [exact T1 | exact T5].
Defined.

(** C1, the counterexample: two valid items with quantities 0.1 and 0.2;
    the second range is [0.1, 0.30000000000000004) and its width differs
    from the quantity 0.2. *)
Lemma range_width_differs_from_quantity :
  ~ (forall items : list item,
       items <> [] -> forallb valid_item items = true ->
       forall p, In p (accumulate zero (sort by_cost items)) ->
                 (x1 p - x0 p =? abatement (it p))%float = true).
Proof.
  intros claim.
  pose (a := {| action := VStr "A"; abatement := 0.1; cost := 0; category := VNull |}).
  pose (b := {| action := VStr "B"; abatement := 0.2; cost := 1; category := VNull |}).
  specialize (claim [a; b]).
  specialize (claim ltac:(discriminate) ltac:(vm_compute; reflexivity)
                    {| it := b; x0 := 0.1; x1 := 0.1 + 0.2 |}).
  assert (I : In {| it := b; x0 := 0.1; x1 := 0.1 + 0.2 |}
                 (accumulate zero (sort by_cost [a; b]))).
  { vm_compute. right. left. reflexivity. }
  specialize (claim I). vm_compute in claim. discriminate claim.
Qed.

(** ** Renderer: the axis loops *)

Lemma for_each_emits {A} (xs : list A) (body : A -> Emit unit) (out : A -> list node) :
  (forall x, In x xs -> body x = (out x, Some tt)) ->
  for_each xs body = (flat_map out xs, Some tt).
Proof.
  induction xs as [|x rest IH]; intros R; simpl; [reflexivity|].
  rewrite (R x (or_introl eq_refl)). simpl.
  rewrite IH by (intros y I; apply R; right; exact I). reflexivity.
Qed.

Lemma filter_none (keep_it : node -> bool) (l : list node) :
  (forall n, In n l -> keep_it n = false) -> filter keep_it l = [].
Proof.
  induction l as [|n rest IH]; intros F; simpl; [reflexivity|].
  rewrite (F n (or_introl eq_refl)). apply IH. intros m I. apply F. right. exact I.
Qed.



Section AxisLoops.
Variable B : Builtins.
Variables (W H total lo hi : float) (axisColor currency unit' : value) (decimals : float).

Lemma xTick_returns i :
  is_some (fmtNumber B (xTick_value total i) 0) = true ->
  xTick B W H total lo hi axisColor unit' i
  = ([xTick_mark W H total lo hi axisColor i;
      xTick_label B W H total lo hi axisColor unit' i
        (formatted (fmtNumber B (xTick_value total i) 0))], Some tt).
Proof.
  intros F. unfold xTick. destruct (fmtNumber B (xTick_value total i) 0); [reflexivity | discriminate F].
Qed.

Lemma yTick_returns i :
  is_some (fmtNumber B (yTick_value lo hi i) decimals) = true ->
  yTick B W H lo hi axisColor currency decimals i
  = ([yTick_grid W H lo hi i;
      yTick_label B H lo hi axisColor currency i
        (formatted (fmtNumber B (yTick_value lo hi i) decimals))], Some tt).
Proof.
  intros F. unfold yTick. destruct (fmtNumber B (yTick_value lo hi i) decimals); [reflexivity | discriminate F].
Qed.

End AxisLoops.
Section ChartShape.
Variable B : Builtins.
Variables (W H total lo hi : float).
Variables (posColor negColor axisColor currency unit' : value) (decimals : float).

Let mark := xTick_mark W H total lo hi axisColor.
Let label := fun i => xTick_label B W H total lo hi axisColor unit' i
                        (formatted (fmtNumber B (xTick_value total i) 0)).
Let grid := yTick_grid W H lo hi.
Let glabel := fun i => yTick_label B H lo hi axisColor currency i
                         (formatted (fmtNumber B (yTick_value lo hi i) decimals)).
Let rect := fun p => rect_of (bar_of W H total lo hi posColor negColor p).

Lemma draw_bars_returns (bars : list placed) :
  for_each bars (draw_bar W H total lo hi posColor negColor) = (map rect bars, Some tt).
Proof.
  rewrite (for_each_emits _ _ (fun p => [rect p])) by reflexivity.
  f_equal.
Qed.

(** The document that [draw_chart] builds when no formatting call throws. *)
Lemma draw_chart_returns (width height : float) (bars : list placed) :
  forallb (fun i => is_some (fmtNumber B (xTick_value total i) 0)) (upto xTicks) = true ->
  forallb (fun i => is_some (fmtNumber B (yTick_value lo hi i) decimals)) (upto yTicks) = true ->
  draw_chart B W H total lo hi posColor negColor axisColor currency unit' decimals
             width height bars
  = ([Elem "svg" [("width", VNum width); ("height", VNum height);
                  ("style.font", VStr svg_font)] None
        (Elem "g" [] None
           (xAxis W H lo hi axisColor
            :: flat_map (fun i => [mark i; label i]) (upto xTicks))
         :: flat_map (fun i => [grid i; glabel i]) (upto yTicks)
         ++ [Elem "g" [] None (map rect bars)])],
     Some tt).
Proof.
  intros FX FY. rewrite forallb_forall in FX, FY.
  unfold draw_chart.
  rewrite (for_each_emits (upto xTicks) _ (fun i => [mark i; label i])).
  2:{ intros i I. apply xTick_returns, FX, I. }
  rewrite (for_each_emits (upto yTicks) _ (fun i => [grid i; glabel i])).
  2:{ intros i I. apply yTick_returns, FY, I. }
  rewrite draw_bars_returns. reflexivity.
Qed.

End ChartShape.



(** ** Cost domain *)

Lemma valid_items_no_nan_cost (items : list item) :
  forallb valid_item items = true -> no_nan (map cost items).
Proof.
  unfold no_nan. rewrite forallb_forall, Forall_forall. intros V c I.
  apply in_map_iff in I. destruct I as [d [<- I]].
  specialize (V d I). unfold valid_item in V.
  apply andb_true_iff in V. destruct V as [_ V]. float_lia.
Qed.

(** C7: for valid items the cost domain contains zero:
    [minCost = Math.min(0, minimum item cost)],
    [maxCost = Math.max(0, maximum item cost)] and [minCost <= 0 <= maxCost]. *)
Theorem cost_domain_contains_zero (items : list item) :
  forallb valid_item items = true ->
  minCost_of items = Math_min [zero; Math_min (map cost items)]
  /\ maxCost_of items = Math_max [zero; Math_max (map cost items)]
  /\ (minCost_of items <=? zero)%float = true
  /\ (zero <=? maxCost_of items)%float = true.
Proof.
  intros V. apply valid_items_no_nan_cost in V.
  unfold minCost_of, maxCost_of. repeat split.
  - apply Math_min_cons; [reflexivity | exact V].
  - apply Math_max_cons; [reflexivity | exact V].
  - apply Math_min_le; [reflexivity | exact V | left; reflexivity].
  - apply Math_max_ge; [reflexivity | exact V | left; reflexivity].
Qed.

Lemma cost_domain_contains_zero_witness :
  let items := [item_of_row example_host (example_row "A" 10 5);
                item_of_row example_host (example_row "B" 20 (-3))] in
  forallb valid_item items = true
  /\ minCost_of items = (-3)%float
  /\ maxCost_of items = 5%float
  /\ (minCost_of items <=? zero)%float = true
  /\ (zero <=? maxCost_of items)%float = true.
Proof.
  intros items.
  assert (V : forallb valid_item items = true) by (vm_compute; reflexivity).
  destruct (cost_domain_contains_zero items V) as [_ [_ [L H]]].
  repeat split; try assumption; vm_compute; reflexivity.
Defined.

(** ** Degenerate cost domain *)

Lemma divisor_not_zero (minCost maxCost : float) :
  is_zero (divisor minCost maxCost) = false.
Proof.
  unfold divisor. destruct (num_truthy _) eqn:T; [|reflexivity]. float_lia.
Qed.

Lemma flat_domain_zero (items : list item) :
  (maxCost_of items =? minCost_of items)%float = true ->
  p1 (minCost_of items) = 0%Z /\ p1 (maxCost_of items) = 0%Z
  /\ forall d, In d items -> p1 (cost d) = 0%Z.
Proof.
  intros E. unfold minCost_of, maxCost_of, Math_min, Math_max in *.
  assert (N : no_nan (zero :: map cost items)).
  { apply (min_from_not_nan _ infinity). float_lia. }
  destruct (min_from_least _ infinity not_nan_infinity N) as [N1 [_ [_ F1]]].
  destruct (max_from_greatest _ neg_infinity not_nan_neg_infinity N) as [N2 [_ [_ F2]]].
  set (lo := min_from infinity (zero :: map cost items)) in *.
  set (hi := max_from neg_infinity (zero :: map cost items)) in *.
  rewrite Forall_forall in F1, F2.
  pose proof (F1 zero (or_introl eq_refl)) as L0.
  pose proof (F2 zero (or_introl eq_refl)) as H0.
  assert (Z : p1 lo = 0%Z /\ p1 hi = 0%Z) by float_lia.
  destruct Z as [Zl Zh]. repeat split; try assumption.
  intros d I.
  assert (Ic : In (cost d) (zero :: map cost items)) by (right; apply in_map, I).
  pose proof (F1 _ Ic) as L. pose proof (F2 _ Ic) as G.
  unfold below in *. lia.
Qed.

(** when [maxCost == minCost] the divisor is 1 and the scale is constant
    on the domain *)
Lemma flat_domain_scale (items : list item) (height : float) :
  let minCost := minCost_of items in
  let maxCost := maxCost_of items in
  let H := plot_H height in
  (maxCost =? minCost)%float = true ->
  is_zero (divisor minCost maxCost) = false
  /\ divisor minCost maxCost = 1%float
  /\ (forall v, (minCost <=? v)%float = true -> (v <=? maxCost)%float = true ->
                yScale minCost maxCost H v = yZero H minCost maxCost)
  /\ (forall d, In d items -> yScale minCost maxCost H (cost d) = yZero H minCost maxCost).
Proof.
  intros minCost maxCost H E.
  destruct (flat_domain_zero items E) as [Zl [Zh Zc]]. fold minCost maxCost in Zl, Zh.
  assert (D : divisor minCost maxCost = 1%float).
  { unfold divisor. pose proof (sub_zeros maxCost minCost Zh Zl) as Zd.
    destruct (num_truthy _) eqn:T; [float_lia | reflexivity]. }
  assert (PH : p1 H = 1%Z \/ p1 H = 2%Z \/ p1 H = 3%Z)
    by (apply Math_max_positive; reflexivity).
  assert (Y : forall v, p1 v = 0%Z ->
                yScale minCost maxCost H v = yZero H minCost maxCost).
  { intros v Zv. unfold yZero, yScale. rewrite D.
    rewrite (height_minus_zero H (v - minCost) PH (sub_zeros _ _ Zv Zl)).
    rewrite (height_minus_zero H (zero - minCost) PH (sub_zeros zero _ (eq_refl : p1 zero = 0%Z) Zl)).
    reflexivity. }
  split; [apply divisor_not_zero|]. split; [exact D|]. split.
  - intros v L G. apply Y. float_lia.
  - intros d I. apply Y, Zc, I.
Qed.

(** ** Monotone scales *)

(** C6, as amended: for a non-empty list of valid items whose total
    abatement and cost span [maxCost - minCost] are finite, and a finite
    viewport, [xScale] is non-decreasing and [yScale] is non-increasing:
    [v1 <= v2] gives [xScale(v1) <= xScale(v2)] and
    [yScale(v2) <= yScale(v1)]. *)
Theorem scales_monotone (items : list item) (width height v1 v2 : float) :
  let totalAbatement := total_of items in
  let minCost := minCost_of items in
  let maxCost := maxCost_of items in
  let W := plot_W width in
  let H := plot_H height in
  items <> [] -> forallb valid_item items = true ->
  isFinite totalAbatement = true -> isFinite (maxCost - minCost)%float = true ->
  isFinite width = true -> isFinite height = true ->
  (v1 <=? v2)%float = true ->
  (xScale totalAbatement W v1 <=? xScale totalAbatement W v2)%float = true
  /\ (yScale minCost maxCost H v2 <=? yScale minCost maxCost H v1)%float = true.
Proof.
  intros T lo hi W H N V FT FD Fw Fh L.
  destruct (Monotone.plot_W_finite width Fw) as [FW PW].
  destruct (Monotone.plot_H_finite height Fh) as [FH PH].
  destruct (Monotone.divisor_positive items V FD) as [Fd Pd].
  destruct (Monotone.minCost_finite items V) as [Fl _].
  pose proof (Monotone.total_positive items N (Monotone.valid_items_keep items V)) as PT.
  split.
  - apply Monotone.xScale_mono; assumption.
  - apply Monotone.yScale_anti; assumption.
Qed.

Lemma scales_monotone_witness :
  let items := [item_of_row example_host (example_row "A" 10 5);
                item_of_row example_host (example_row "B" 20 (-3))] in
  (xScale (total_of items) (plot_W 600) 5
   <=? xScale (total_of items) (plot_W 600) 10)%float = true
  /\ (yScale (minCost_of items) (maxCost_of items) (plot_H 400) 10
      <=? yScale (minCost_of items) (maxCost_of items) (plot_H 400) 5)%float = true.
Proof.
  intros items.
  apply (scales_monotone items 600 400 5 10); try reflexivity. discriminate.
Defined.

(** Two valid items whose quantities add up to [Infinity]: the second bar
    spans [1e308, Infinity], and [xScale] sends its right end to [NaN], so
    [xScale(x0) <= xScale(x1)] is false although [x0 <= x1]. *)
Lemma scales_fail_on_overflow :
  let items := [item_of_row example_host (example_row "A" 1e308 5);
                item_of_row example_host (example_row "B" 1e308 7)] in
  items <> [] /\ forallb valid_item items = true
  /\ map (fun p => (x0 p, x1 p)) (accumulate zero items)
     = [(zero, 1e308%float); (1e308%float, infinity)]
  /\ (1e308 <=? infinity)%float = true
  /\ (xScale (total_of items) (plot_W 600) 1e308
      <=? xScale (total_of items) (plot_W 600) infinity)%float = false.
Proof. vm_compute. repeat split; congruence. Qed.

(** ** Bars *)

(** C8, as amended: when the chart is drawn (non-empty item set, digit
    counts that the locale printer accepts) there is exactly one bar per
    item, in sorted order.  Its left edge is [quantityToX(rangeStart)] and its
    width is [Math.max(1, quantityToX(rangeEnd) - quantityToX(rangeStart))]:
    at least 1 pixel, and the distance itself once that exceeds 1, unless the
    distance is [NaN].  Its height is
    [Math.max(1, |costToY(cost) - zeroY|)]: at least 1 pixel unless that
    distance is [NaN].  For [cost >= 0] its top edge is [costToY(cost)] and
    its fill [positiveColor]; otherwise (a negative or [NaN] cost) its top
    edge is [zeroY] and its fill [negativeColor]. *)
Theorem one_bar_per_item (B : Builtins) (d : data) (width height : float) :
  let items := sort by_cost (items_of B (tables_DEFAULT d)) in
  let W := plot_W width in
  let H := plot_H height in
  let total := total_of items in
  let lo := minCost_of items in
  let hi := maxCost_of items in
  let bar := bar_of W H total lo hi (posColor_of d) (negColor_of d) in
  items_of B (tables_DEFAULT d) <> [] ->
  labels_format B d items = true ->
  rects (draw B d width height) = map (fun p => rect_of (bar p)) (accumulate zero items)
  /\ forall p, In p (accumulate zero items) ->
       let x := xScale total W (x0 p) in
       let x2 := xScale total W (x1 p) in
       let y := yScale lo hi H (cost (it p)) in
       bar_x (bar p) = x
       /\ bar_w (bar p) = Math_max [1%float; (x2 - x)%float]
       /\ (is_nan (x2 - x) = false ->
           (1 <=? bar_w (bar p))%float = true
           /\ ((1 <? x2 - x)%float = true -> bar_w (bar p) = (x2 - x)%float))
       /\ bar_h (bar p) = Math_max [1%float; Math_abs (y - yZero H lo hi)]
       /\ (is_nan (y - yZero H lo hi) = false -> (1 <=? bar_h (bar p))%float = true)
       /\ ((zero <=? cost (it p))%float = true ->
           bar_y (bar p) = y /\ bar_fill (bar p) = posColor_of d)
       /\ ((zero <=? cost (it p))%float = false ->
           bar_y (bar p) = yZero H lo hi /\ bar_fill (bar p) = negColor_of d).
Proof.
  intros items W H total lo hi bar N F. split.
  - apply andb_true_iff in F. destruct F as [FX FY].
    unfold draw. fold items.
    destruct (items_of B (tables_DEFAULT d)) as [|i0 rest] eqn:E; [congruence|].
    fold W H total lo hi.
    rewrite (draw_chart_returns B W H total lo hi _ _ _ _ _ _ width height _ FX FY).
    unfold rects, svg_children. cbn [root_children fst flat_map children_of].
    rewrite flat_map_app. cbn [flat_map children_of app].
    rewrite app_nil_r.
    match goal with
    | |- filter _ (?a :: ?ticks ++ ?grids ++ ?bars) = _ =>
        change (a :: ticks ++ grids ++ bars) with ([a] ++ ticks ++ grids ++ bars);
        rewrite !filter_app;
        rewrite (filter_none (is_tag "rect") ticks), (filter_none (is_tag "rect") grids)
    end.
    + cbn [filter is_tag tag_of xAxis String.eqb Ascii.eqb Bool.eqb app].
      apply forallb_filter_id, forallb_forall.
      intros n I. apply in_map_iff in I. destruct I as [p [<- _]]. reflexivity.
    + intros n I. apply in_flat_map in I. destruct I as [n' [I' I]].
      apply in_flat_map in I'. destruct I' as [i [_ [<- | [<- | []]]]]; destruct I.
    + intros n I.
      apply in_flat_map in I. destruct I as [i [_ [<- | [<- | []]]]]; reflexivity.
  - intros p I x x2 y. subst bar. cbn [bar_of bar_x bar_w bar_h bar_y bar_fill].
    fold x x2 y.
    split; [reflexivity|]. split; [reflexivity|]. split.
    { intros Nw. split; [apply Math_max_one_ge, Nw|].
      intros L. rewrite Math_max_one, Nw, L. reflexivity. }
    split; [reflexivity|]. split.
    { intros Ny. apply Math_max_one_ge. rewrite Math_abs_nan. exact Ny. }
    split; intros C; rewrite C; split; reflexivity.
Qed.

Lemma one_bar_per_item_witness :
  let d := example_data [example_row "A" 10 5; example_row "B" 20 (-3)] in
  let items := sort by_cost (items_of example_host (tables_DEFAULT d)) in
  items_of example_host (tables_DEFAULT d) <> []
  /\ labels_format example_host d items = true
  /\ List.length (rects (draw example_host d 600 400)) = 2.
Proof.
  intros d items.
  assert (N : items_of example_host (tables_DEFAULT d) <> []) by (vm_compute; discriminate).
  assert (F : labels_format example_host d items = true) by (vm_compute; reflexivity).
  destruct (one_bar_per_item example_host d 600 400 N F) as [R _].
  split; [exact N|]. split; [exact F|]. rewrite R. reflexivity.
Defined.

(** C8, the counterexample: a row with quantity 10 and cost [NaN] passes
    the filter; the cost domain and the whole cost scale are then [NaN], and
    so is the height of its bar. *)
Lemma bar_height_not_a_number :
  ~ (forall (B : Builtins) (d : data) (width height : float) (p : placed),
       let items := sort by_cost (items_of B (tables_DEFAULT d)) in
       let bar := bar_of (plot_W width) (plot_H height) (total_of items)
                         (minCost_of items) (maxCost_of items)
                         (posColor_of d) (negColor_of d) in
       In p (accumulate zero items) ->
       (1 <=? bar_w (bar p))%float = true /\ (1 <=? bar_h (bar p))%float = true).
Proof.
  intros claim.
  pose (d := example_data [example_row "A" 10 nan]).
  pose (p := {| it := item_of_row example_host (example_row "A" 10 nan);
                x0 := 0; x1 := 10 |}).
  destruct (claim example_host d 600%float 400%float p) as [_ Hh].
  - vm_compute. left. reflexivity.
  - vm_compute in Hh. discriminate Hh.
Qed.

(** ** Empty state *)

(** C9: when no row survives the filter, the redraw leaves one element in
    the root, a [div] that is a centred flex box holding the instructional
    message as its text, and returns: no [svg], hence no axis, gridline or
    bar, and no exception. *)
Theorem empty_items_draw_message (B : Builtins) (d : data) (width height : float) :
  items_of B (tables_DEFAULT d) = [] ->
  draw B d width height
  = {| root_children :=
         [Elem "div"
            [("style.cssText",
              VStr "display:flex;align-items:center;justify-content:center;width:100%;height:100%;font:14px/1.2 system-ui;color:#666;text-align:center;padding:12px;")]
            (Some "Adicione campos válidos: Ação (dimensão), Abatimento (>0, métrica) e Custo marginal (métrica).")
            []];
       returned := true |}
  /\ tick_marks (draw B d width height) = []
  /\ gridlines (draw B d width height) = []
  /\ rects (draw B d width height) = []
  /\ svg_children (draw B d width height) = [].
Proof.
  intros E. unfold draw. rewrite E. repeat split.
Qed.

Lemma empty_items_draw_message_witness :
  let d := example_data [example_row "C" 0 1] in
  items_of example_host (tables_DEFAULT d) = []
  /\ List.length (root_children (draw example_host d 600 400)) = 1%nat
  /\ returned (draw example_host d 600 400) = true.
Proof.
  intros d.
  assert (E : items_of example_host (tables_DEFAULT d) = []) by reflexivity.
  destruct (empty_items_draw_message example_host d 600 400 E) as [D _].
  split; [exact E|]. rewrite D. split; reflexivity.
Defined.

(** ** Style options *)

Lemma two_not_zero : is_zero 2 = false.
Proof. reflexivity. Qed.

Lemma below_one_rounds_down (x : float) :
  (zero <? x)%float = true -> (x <? 1)%float = true -> fraction_digits x = Some 0%Z.
Proof.
  intros P L. unfold fraction_digits.
  replace (is_nan x) with false by (symmetry; clear - P; float_lia).
  replace (x <? zero)%float with false by (symmetry; clear - P; float_lia).
  replace (100 <? x)%float with false.
  2:{ symmetry. assert (C : (1 <? 100)%float = true) by reflexivity.
      clear - L C. float_lia. }
  cbn [orb]. pose proof (Prim2SF_valid x) as V.
  apply ltb_true in P, L. unfold below, p1, p2, p3 in *.
  change (Prim2SF zero) with (S754_zero false) in P.
  change (Prim2SF 1) with (S754_finite false 4503599627370496 (-52)) in L.
  destruct (Prim2SF x) as [[|]|[|]| |[|] m e]; cbn [pos fst snd] in *; try lia.
  cbn [valid_binary] in V. pose proof (Rounding.bounded_shape m e V) as [_ [D _]].
  change (Zpos (digits2_pos m)) with (Zdigits2 (Zpos m)) in D.
  destruct (Rounding.Zdigits2_bounds (Zpos m) ltac:(lia)) as [_ U].
  assert (U53 : (2 ^ Zdigits2 (Zpos m) <= 2 ^ 53)%Z) by (apply Z.pow_le_mono_r; lia).
  f_equal. rewrite Z.shiftl_div_pow2 by lia. apply Z.div_small.
  split; [lia|].
  destruct L as [_ [_ [[L | [_ [L | [E L]]]] _]]]; try lia.
  - assert ((2 ^ 53 <= 2 ^ (- e))%Z) by (apply Z.pow_le_mono_r; lia). lia.
  - subst e. change (2 ^ (- -52))%Z with 4503599627370496%Z. lia.
Qed.

(** C10, as amended: the number of decimals handed to the printer is never
    [0], [-0] or [NaN]: it is the default 2 whenever the configured option
    reads as [0], [-0] or [NaN] (not a number) and whenever the option is
    missing, and any other configured number is handed over as it is.  The
    printer rounds the number down, so a configured number between 0 and 1
    still asks for zero decimal places. *)
Theorem decimals_never_zero (B : Builtins) (d : data) :
  is_zero (decimals_of B d) = false
  /\ is_nan (decimals_of B d) = false
  /\ (is_zero (decimals_option B d) = true \/ is_nan (decimals_option B d) = true ->
      decimals_of B d = 2%float)
  /\ (get (styles_of d) "decimals" = VUndefined -> decimals_of B d = 2%float)
  /\ (is_zero (decimals_option B d) = false -> is_nan (decimals_option B d) = false ->
      decimals_of B d = decimals_option B d)
  /\ ((zero <? decimals_of B d)%float = true -> (decimals_of B d <? 1)%float = true ->
      fraction_digits (decimals_of B d) = Some 0%Z).
Proof.
  unfold decimals_of. repeat split.
  - destruct (num_truthy _) eqn:T; [|exact two_not_zero].
    unfold num_truthy in T. apply negb_true_iff, orb_false_iff in T. tauto.
  - destruct (num_truthy _) eqn:T; [|reflexivity].
    unfold num_truthy in T. apply negb_true_iff, orb_false_iff in T. tauto.
  - intros Z. unfold num_truthy.
    destruct Z as [-> | Z]; [reflexivity|]. rewrite Z, orb_true_r. reflexivity.
  - intros M. unfold decimals_option, getStyle. rewrite M. reflexivity.
  - intros Z N. unfold num_truthy. rewrite Z, N. reflexivity.
  - apply below_one_rounds_down.
Qed.

(** C10, the counterexample: with the option [decimals] set to 0.5 the
    number handed to the printer is 0.5, which it rounds down to zero
    decimal places. *)
Lemma half_requests_zero_decimals :
  ~ (forall (B : Builtins) (d : data), fraction_digits (decimals_of B d) <> Some 0%Z).
Proof.
  intros claim.
  apply (claim example_host
           {| style := VObj [("decimals", VObj [("value", VNum 0.5)])];
              fields_actionDim := []; tables_DEFAULT := [] |}).
  vm_compute. reflexivity.
Qed.

End Properties.

(* ===================================================================== *)
(** * Operations that are exact                                          *)
(* ===================================================================== *)

(** A result that is itself a binary64 number is not changed by the
    rounding: [x / x] is 1, [1 * x] is [x], [x - x] and [0 * x] are 0. *)

Module Exact.
Import Rounding.
Import JS Macc FloatFacts Monotone.
Local Open Scope Z_scope.

Lemma SFle_antisym (x : spec_float) (s : bool) (m : positive) (e : Z) :
  SFle x (S754_finite s m e) -> SFle (S754_finite s m e) x -> x = S754_finite s m e.
Proof.
  unfold SFle, SFleb, SFcompare.
  destruct x as [[|]|[|]| |[|] m' e'], s; try discriminate; intros A C;
    destruct (Z.compare_spec e' e) as [E | E | E]; try discriminate;
    try (rewrite (proj2 (Z.compare_gt_iff e e') E) in C; discriminate);
    try (rewrite (proj2 (Z.compare_lt_iff e e') E) in C; discriminate);
    subst e'; rewrite Z.compare_refl in C;
    rewrite Pos.compare_cont_spec in A, C; cbn [Pos.switch_Eq] in A, C;
    destruct (Pos.compare_spec m' m) as [M | M | M]; try discriminate;
    try (subst; reflexivity);
    try (rewrite (proj2 (Pos.compare_gt_iff m m') M) in C; discriminate);
    try (rewrite (proj2 (Pos.compare_lt_iff m m') M) in C; discriminate).
Qed.

(** rounding a quotient whose value is the valid number [M * 2 ^ E] gives
    that number *)
Lemma round_exact (m e : Z) (l : location) (a b : Z) (M : positive) (E : Z) :
  rep (shr_record_of_loc m l) a b -> e <= cexp m e ->
  bounded prec emax M E = true ->
  a * 2 ^ (e - Z.min e E) = b * Zpos M * 2 ^ (E - Z.min e E) ->
  binary_round_aux prec emax false m e l = S754_finite false M E.
Proof.
  intros R C B V.
  pose proof (binary_round_valid false M E B) as I.
  destruct (binary_round_aligned false M E) as [mz [ez [Q [L [Vz Cz]]]]].
  rewrite Q in I.
  assert (Rz : rep (shr_record_of_loc (Zpos mz) loc_Exact) (Zpos mz) 1)
    by (apply rep_exact; lia).
  assert (X : a * 2 ^ (e - Z.min e ez) = Zpos mz * b * 2 ^ (ez - Z.min e ez)).
  { set (z := Z.min e E) in *. set (z' := Z.min e ez).
    assert (Zz : 0 <= z - z') by (unfold z, z'; lia).
    replace (e - z') with ((e - z) + (z - z')) by lia.
    rewrite Z.pow_add_r, Z.mul_assoc, V by (unfold z in *; lia).
    rewrite Vz, <- !Z.mul_assoc, <- !Z.pow_add_r by (unfold z, z' in *; lia).
    replace (E - z + (z - z')) with (E - ez + (ez - z')) by lia.
    rewrite Z.pow_add_r by (unfold z' in *; lia). ring. }
  apply SFle_antisym; rewrite <- I.
  - eapply round_mono; try eassumption. unfold value_le.
    rewrite Z.mul_1_r, X. apply Z.le_refl.
  - eapply round_mono; try eassumption. unfold value_le.
    rewrite (Z.min_comm ez e), Z.mul_1_r, X. apply Z.le_refl.
Qed.

Lemma SFdiv_self (m : positive) (e : Z) :
  SF64div (S754_finite false m e) (S754_finite false m e)
  = S754_finite false 4503599627370496 (-52).
Proof.
  rewrite SFdiv_finite.
  pose proof (div_shift_nonneg (Zpos m) e (Zpos m) e) as S.
  set (s := div_shift (Zpos m) e (Zpos m) e) in *.
  set (e' := div_exp (Zpos m) e (Zpos m) e).
  assert (Q : s + e' = 0) by (unfold s, e', div_shift; lia).
  eapply round_exact.
  - apply div_rep, S.
  - apply div_fine.
  - reflexivity.
  - fold e'. set (z := Z.min e' (-52)).
    rewrite <- !Z.mul_assoc. f_equal.
    rewrite <- Z.pow_add_r by (unfold z; lia).
    change 4503599627370496 with (2 ^ 52).
    rewrite <- Z.pow_add_r by (unfold z; lia).
    f_equal. lia.
Qed.

Lemma SFmul_one (m : positive) (e : Z) :
  bounded prec emax m e = true ->
  SF64mul (S754_finite false 4503599627370496 (-52)) (S754_finite false m e)
  = S754_finite false m e.
Proof.
  intros B. rewrite SFmul_finite.
  eapply round_exact.
  - apply rep_exact. lia.
  - apply mul_fine; [reflexivity | exact B].
  - exact B.
  - replace (Z.min (-52 + e) e) with (-52 + e) by lia.
    rewrite Z.sub_diag. replace (e - (-52 + e)) with 52 by lia.
    rewrite Pos2Z.inj_mul. change (2 ^ 52) with 4503599627370496.
    change (2 ^ 0) with 1. lia.
Qed.

(** ** On numbers *)

Local Open Scope float_scope.

Lemma div_self (t : float) :
  isFinite t = true -> (zero <? t) = true -> t / t = 1.
Proof.
  intros F P. destruct (positive_shape t F P) as [m [e [E _]]].
  apply Prim2SF_inj. rewrite div_spec, E. apply SFdiv_self.
Qed.

Lemma mul_one_l (w : float) :
  isFinite w = true -> (zero <? w) = true -> 1 * w = w.
Proof.
  intros F P. destruct (positive_shape w F P) as [m [e [E B]]].
  apply Prim2SF_inj. rewrite mul_spec, E. apply SFmul_one, B.
Qed.

Lemma zero_div (t : float) :
  isFinite t = true -> (zero <? t) = true -> zero / t = zero.
Proof.
  intros F P. destruct (positive_shape t F P) as [m [e [E _]]].
  apply Prim2SF_inj. rewrite div_spec, E. reflexivity.
Qed.

Lemma zero_mul (w : float) :
  isFinite w = true -> (zero <? w) = true -> zero * w = zero.
Proof.
  intros F P. destruct (positive_shape w F P) as [m [e [E _]]].
  apply Prim2SF_inj. rewrite mul_spec, E. reflexivity.
Qed.

Lemma sub_self (x : float) : isFinite x = true -> x - x = zero.
Proof.
  intros F. apply isFinite_true in F. apply Prim2SF_inj. rewrite sub_spec.
  unfold p1 in F. change (Prim2SF zero) with (S754_zero false).
  destruct (Prim2SF x) as [[|]|[|]| |s m e]; cbn [pos fst snd] in F; try lia;
    try reflexivity.
  unfold SF64sub, SFsub. cbv zeta. rewrite Z.sub_diag. reflexivity.
Qed.

(** ** The ends of the two scales *)

Lemma xScale_start (T W : float) :
  isFinite T = true -> (zero <? T) = true ->
  isFinite W = true -> (zero <? W) = true ->
  xScale T W zero = m_left.
Proof.
  intros FT PT FW PW. unfold xScale.
  rewrite zero_div, zero_mul by assumption. reflexivity.
Qed.

Lemma xScale_end (T W : float) :
  isFinite T = true -> (zero <? T) = true ->
  isFinite W = true -> (zero <? W) = true ->
  xScale T W T = m_left + W.
Proof.
  intros FT PT FW PW. unfold xScale.
  rewrite div_self, mul_one_l by assumption. reflexivity.
Qed.

Lemma yScale_bottom (lo hi H : float) :
  isFinite lo = true ->
  isFinite (divisor lo hi) = true -> (zero <? divisor lo hi) = true ->
  isFinite H = true -> (zero <? H) = true ->
  yScale lo hi H lo = m_top + H.
Proof.
  intros Fl Fd Pd FH PH. unfold yScale.
  rewrite sub_self, zero_div, zero_mul, sub_zero_r by assumption. reflexivity.
Qed.

Lemma yScale_top (lo hi H : float) :
  num_truthy (hi - lo) = true ->
  isFinite (hi - lo) = true -> (zero <? hi - lo) = true ->
  isFinite H = true -> (zero <? H) = true ->
  yScale lo hi H hi = m_top.
Proof.
  intros T Fd Pd FH PH. unfold yScale, divisor. rewrite T.
  rewrite div_self, mul_one_l, sub_self by assumption. reflexivity.
Qed.

End Exact.

(* ===================================================================== *)
(** * The layout of the bars                                             *)
(* ===================================================================== *)

Module Layout.
Import JS Macc FloatFacts Monotone Exact.
Local Open Scope Z_scope.
Local Open Scope float_scope.

Lemma add_zeros (s a : float) : p1 s = 0%Z -> p1 a = 0%Z -> p1 (s + a) = 0%Z.
Proof.
  intros Zs Za. destruct (zero_cases s Zs) as [ss Es], (zero_cases a Za) as [sa Ea].
  unfold p1. rewrite add_spec, Es, Ea. destruct ss, sa; reflexivity.
Qed.

Lemma add_infinity (s a : float) :
  p1 s = 2%Z -> isFinite a = true -> s + a = s.
Proof.
  intros I F. apply isFinite_true in F. apply Prim2SF_inj. rewrite add_spec.
  unfold p1 in *.
  destruct (Prim2SF s) as [[|]|[|]| |[|] m e]; cbn [pos fst snd] in I; try lia.
  destruct (Prim2SF a) as [[|]|[|]| |[|] m e]; cbn [pos fst snd] in F; try lia;
    reflexivity.
Qed.

(** a running sum does not go down when a non-negative number is added *)
Lemma add_grows (s a : float) :
  (zero <=? s) = true -> isFinite a = true -> (zero <=? a) = true ->
  (s <=? s + a) = true.
Proof.
  intros S F A. destruct (isFinite s) eqn:Fs.
  - destruct (is_zero s) eqn:Zs.
    + destruct (is_zero a) eqn:Za.
      * assert (Z : p1 (s + a) = 0%Z) by (apply add_zeros; float_lia).
        clear F Fs A. float_lia.
      * pose proof (add_mono a zero s F S) as M.
        rewrite add_zero_r in M by assumption. rewrite (Monotone.add_comm a s) in M.
        clear F Fs. float_lia.
    + pose proof (add_mono s zero a Fs A) as M.
      rewrite add_zero_r in M by assumption. exact M.
  - rewrite add_infinity; [| |exact F].
    + apply leb_refl. float_lia.
    + pose proof (place_range s). clear F A. float_lia.
Qed.

Lemma keep_shape (d : item) :
  keep d = true ->
  isFinite (abatement d) = true /\ (zero <? abatement d) = true
  /\ (zero <=? abatement d) = true.
Proof.
  unfold keep. intros K. apply andb_true_iff in K. destruct K as [F P].
  repeat split; try assumption. apply ltb_leb, P.
Qed.

Lemma fold_grows (rest : list item) : forall acc : float,
  (zero <=? acc) = true -> forallb keep rest = true ->
  (acc <=? fold_left (fun s d => s + abatement d) rest acc) = true.
Proof.
  induction rest as [|d rest IH]; intros acc P K; cbn [fold_left].
  - apply leb_refl. float_lia.
  - cbn [forallb] in K. apply andb_true_iff in K. destruct K as [Kd K].
    destruct (keep_shape d Kd) as [F [_ A]].
    pose proof (add_grows acc (abatement d) P F A) as G.
    eapply leb_trans; [exact G|]. apply IH; [|exact K].
    exact (leb_trans _ _ _ P G).
Qed.

Lemma accumulate_grows (items : list item) : forall (acc : float) (p : placed),
  (zero <=? acc) = true -> forallb keep items = true ->
  In p (accumulate acc items) ->
  (acc <=? x0 p) = true /\ (x0 p <=? x1 p) = true
  /\ (x1 p <=? fold_left (fun s d => s + abatement d) items acc) = true.
Proof.
  induction items as [|d rest IH]; intros acc p P K I; [destruct I|].
  cbn [forallb] in K. apply andb_true_iff in K. destruct K as [Kd K].
  destruct (keep_shape d Kd) as [F [_ A]].
  pose proof (add_grows acc (abatement d) P F A) as G.
  assert (P' : (zero <=? acc + abatement d) = true) by exact (leb_trans _ _ _ P G).
  cbn [accumulate fold_left] in *. destruct I as [<- | I]; cbn [x0 x1].
  - split; [apply leb_refl; float_lia|]. split; [exact G|].
    apply fold_grows; assumption.
  - destruct (IH _ p P' K I) as [L [M U]].
    split; [exact (leb_trans _ _ _ G L)|]. split; assumption.
Qed.

End Layout.

(* ===================================================================== *)
(** * Further properties of the script                                   *)
(* ===================================================================== *)

Module Behaviour.
Import JS Macc FloatFacts.
Local Open Scope Z_scope.
Local Open Scope float_scope.

(** ** Quantities and the horizontal layout *)

Lemma sorted_items_kept (B : Builtins) (rows : list row) :
  forallb keep (sort by_cost (items_of B rows)) = true.
Proof.
  apply forallb_forall. intros d I.
  apply (Permutation_in _ (Properties.sort_perm by_cost (items_of B rows))) in I.
  unfold items_of in I. apply filter_In in I. apply I.
Qed.

(** X1: when at least one row is kept, the total abatement is a number
    greater than zero (never [0], never [NaN]; it may be [Infinity]), so
    [xScale] never divides by zero. *)
Theorem kept_items_total_positive (B : Builtins) (rows : list row) :
  items_of B rows <> [] ->
  (zero <? total_of (sort by_cost (items_of B rows))) = true.
Proof.
  intros N. apply Monotone.total_positive.
  - apply Properties.sort_nonempty, N.
  - apply sorted_items_kept.
Qed.

Lemma kept_items_total_positive_witness :
  (zero <? total_of (sort by_cost
     (items_of example_host [example_row "A" 10 5; example_row "B" 20 (-3)]))) = true.
Proof.
  apply (kept_items_total_positive example_host
           [example_row "A" 10 5; example_row "B" 20 (-3)]).
  vm_compute. discriminate.
Defined.

(** X2: the ranges never run backwards and never pass the total: for every
    bar, [0 <= x0 <= x1 <= totalAbatement]. *)
Theorem ranges_grow_to_total (B : Builtins) (rows : list row) (p : placed) :
  let items := sort by_cost (items_of B rows) in
  In p (accumulate zero items) ->
  (zero <=? x0 p) = true /\ (x0 p <=? x1 p) = true
  /\ (x1 p <=? total_of items) = true.
Proof.
  intros items I.
  apply (Layout.accumulate_grows items zero p); try assumption; try reflexivity.
  apply sorted_items_kept.
Qed.

Lemma ranges_grow_to_total_witness :
  let rows := [example_row "A" 10 5; example_row "B" 20 (-3)] in
  let p := {| it := item_of_row example_host (example_row "A" 10 5);
              x0 := 20; x1 := 30 |} in
  (zero <=? x0 p) = true /\ (x0 p <=? x1 p) = true
  /\ (x1 p <=? total_of (sort by_cost (items_of example_host rows))) = true.
Proof.
  intros rows p. apply (ranges_grow_to_total example_host rows p).
  vm_compute. right. left. reflexivity.
Defined.

(** X3: with a finite viewport width and a finite total, every bar lies
    inside the plot, left to right:
    [m.left <= xScale(x0) <= xScale(x1) <= m.left + W]. *)
Theorem bars_inside_plot_width (B : Builtins) (rows : list row) (width : float)
    (p : placed) :
  let items := sort by_cost (items_of B rows) in
  let total := total_of items in
  let W := plot_W width in
  isFinite width = true -> isFinite total = true ->
  In p (accumulate zero items) ->
  (m_left <=? xScale total W (x0 p)) = true
  /\ (xScale total W (x0 p) <=? xScale total W (x1 p)) = true
  /\ (xScale total W (x1 p) <=? m_left + W) = true.
Proof.
  intros items total W Fw FT I.
  destruct (Monotone.plot_W_finite width Fw) as [FW PW]. fold W in FW, PW.
  assert (N : items <> []) by (intros E; rewrite E in I; destruct I).
  pose proof (Monotone.total_positive items N (sorted_items_kept B rows)) as PT.
  fold total in PT.
  destruct (Layout.accumulate_grows items zero p eq_refl (sorted_items_kept B rows) I)
    as [L0 [L1 L2]].
  fold (total_of items) in L2. fold total in L2.
  split; [|split].
  - rewrite <- (Exact.xScale_start total W FT PT FW PW).
    apply Monotone.xScale_mono; assumption.
  - apply Monotone.xScale_mono; assumption.
  - rewrite <- (Exact.xScale_end total W FT PT FW PW).
    apply Monotone.xScale_mono; assumption.
Qed.

Lemma bars_inside_plot_width_witness :
  let rows := [example_row "A" 10 5; example_row "B" 20 (-3)] in
  let total := total_of (sort by_cost (items_of example_host rows)) in
  (m_left <=? xScale total (plot_W 600) 20) = true
  /\ (xScale total (plot_W 600) 20 <=? xScale total (plot_W 600) 30) = true
  /\ (xScale total (plot_W 600) 30 <=? m_left + plot_W 600) = true.
Proof.
  intros rows total.
  apply (bars_inside_plot_width example_host rows 600
           {| it := item_of_row example_host (example_row "A" 10 5);
              x0 := 20; x1 := 30 |}); try reflexivity.
  vm_compute. right. left. reflexivity.
Defined.

(** X4: with a finite viewport width and a finite total the bars fill the
    plot exactly: the first bar starts at [m.left] and the last bar ends at
    [m.left + W]. *)
Theorem bars_span_plot_width (B : Builtins) (rows : list row) (width : float) :
  let items := sort by_cost (items_of B rows) in
  let total := total_of items in
  let W := plot_W width in
  items_of B rows <> [] ->
  isFinite width = true -> isFinite total = true ->
  (exists p rest, accumulate zero items = p :: rest
                  /\ xScale total W (x0 p) = m_left)
  /\ (exists init q, accumulate zero items = init ++ [q]
                     /\ xScale total W (x1 q) = m_left + W).
Proof.
  intros items total W N Fw FT.
  destruct (Monotone.plot_W_finite width Fw) as [FW PW]. fold W in FW, PW.
  assert (N' : items <> []) by (apply Properties.sort_nonempty, N).
  pose proof (Monotone.total_positive items N' (sorted_items_kept B rows)) as PT.
  fold total in PT. unfold total in *. clear N.
  destruct items as [|d rest]; [congruence|]. split.
  - eexists. eexists. split; [reflexivity|]. cbn [x0].
    apply Exact.xScale_start; assumption.
  - destruct (Properties.accumulate_ends zero d rest) as [init [q E]].
    exists init, q. split; [exact E|].
    rewrite (Properties.accumulate_last _ _ _ _ E).
    apply Exact.xScale_end; assumption.
Qed.

Lemma bars_span_plot_width_witness :
  let rows := [example_row "A" 10 5; example_row "B" 20 (-3)] in
  let items := sort by_cost (items_of example_host rows) in
  (exists p rest, accumulate zero items = p :: rest
                  /\ xScale (total_of items) (plot_W 600) (x0 p) = m_left)
  /\ (exists init q, accumulate zero items = init ++ [q]
                     /\ xScale (total_of items) (plot_W 600) (x1 q)
                        = m_left + plot_W 600).
Proof.
  intros rows items.
  apply (bars_span_plot_width example_host rows 600); try reflexivity.
  vm_compute. discriminate.
Defined.

(** ** Costs and the vertical layout *)

Lemma yScale_top_bound (items : list item) (H : float) :
  let lo := minCost_of items in
  let hi := maxCost_of items in
  forallb valid_item items = true -> isFinite (hi - lo) = true ->
  isFinite H = true -> (zero <? H) = true ->
  (m_top <=? yScale lo hi H hi) = true
  /\ ((lo <? hi) = true -> yScale lo hi H hi = m_top).
Proof.
  intros lo hi V FD FH PH.
  destruct (Monotone.divisor_positive items V FD) as [Fd Pd]. fold lo hi in Fd, Pd.
  destruct (Monotone.minCost_finite items V) as [Fl _]. fold lo in Fl.
  destruct (Monotone.maxCost_finite items V) as [Fh _]. fold hi in Fh.
  destruct (num_truthy (hi - lo)) eqn:T.
  - assert (E : yScale lo hi H hi = m_top).
    { unfold divisor in Fd, Pd. rewrite T in Fd, Pd. apply Exact.yScale_top; assumption. }
    split; [rewrite E; reflexivity | intros _; exact E].
  - assert (Z : p1 (hi - lo) = 0%Z).
    { apply num_truthy_false in T. apply isFinite_true in FD. lia. }
    split.
    + unfold yScale, divisor. rewrite T.
      rewrite height_minus_zero; [| left; clear - PH FH; float_lia | exact Z].
      rewrite Exact.zero_mul, Monotone.sub_zero_r by assumption.
      change m_top with (m_top + zero) at 1.
      apply Monotone.add_mono; [reflexivity | apply ltb_leb, PH].
    + intros L. exfalso.
      rewrite <- sub_positive in L by (clear - Fl Fh; float_lia).
      clear - L Z. float_lia.
Qed.

Lemma yScale_inside (items : list item) (H v : float) :
  let lo := minCost_of items in
  let hi := maxCost_of items in
  forallb valid_item items = true -> isFinite (hi - lo) = true ->
  isFinite H = true -> (zero <? H) = true ->
  (lo <=? v) = true -> (v <=? hi) = true ->
  (m_top <=? yScale lo hi H v) = true /\ (yScale lo hi H v <=? m_top + H) = true.
Proof.
  intros lo hi V FD FH PH Lv Hv.
  destruct (Monotone.divisor_positive items V FD) as [Fd Pd]. fold lo hi in Fd, Pd.
  destruct (Monotone.minCost_finite items V) as [Fl _]. fold lo in Fl.
  destruct (yScale_top_bound items H V FD FH PH) as [Top _]. fold lo hi in Top.
  split.
  - eapply leb_trans; [exact Top|]. apply Monotone.yScale_anti; assumption.
  - rewrite <- (Exact.yScale_bottom lo hi H Fl Fd Pd FH PH).
    apply Monotone.yScale_anti; assumption.
Qed.

Lemma item_cost_in_domain (items : list item) (d : item) :
  forallb valid_item items = true -> In d items ->
  (minCost_of items <=? cost d) = true /\ (cost d <=? maxCost_of items) = true.
Proof.
  intros V I. pose proof (Monotone.valid_costs_no_nan items V) as N.
  inversion N as [|? ? _ Nc]; subst.
  assert (Ic : In (cost d) (zero :: map cost items)) by (right; apply in_map, I).
  split.
  - apply Math_min_le; [reflexivity | exact Nc | exact Ic].
  - apply Math_max_ge; [reflexivity | exact Nc | exact Ic].
Qed.

(** X5: for valid items with a finite cost span and a finite viewport
    height, [yScale] maps the cost domain into the plot:
    [yScale(minCost)] is the bottom edge [m.top + H], [yScale(maxCost)] is the
    top edge [m.top] when [minCost < maxCost], and every cost between
    [minCost] and [maxCost], so every item's cost and the baseline [yZero],
    lands between the two edges. *)
Theorem costs_inside_plot_height (items : list item) (height : float) :
  let lo := minCost_of items in
  let hi := maxCost_of items in
  let H := plot_H height in
  forallb valid_item items = true -> isFinite (hi - lo) = true ->
  isFinite height = true ->
  yScale lo hi H lo = m_top + H
  /\ ((lo <? hi) = true -> yScale lo hi H hi = m_top)
  /\ (forall v, (lo <=? v) = true -> (v <=? hi) = true ->
        (m_top <=? yScale lo hi H v) = true
        /\ (yScale lo hi H v <=? m_top + H) = true)
  /\ (m_top <=? yZero H lo hi) = true /\ (yZero H lo hi <=? m_top + H) = true
  /\ (forall d, In d items ->
        (m_top <=? yScale lo hi H (cost d)) = true
        /\ (yScale lo hi H (cost d) <=? m_top + H) = true).
Proof.
  intros lo hi H V FD Fh.
  destruct (Monotone.plot_H_finite height Fh) as [FH PH]. fold H in FH, PH.
  destruct (Monotone.divisor_positive items V FD) as [Fd Pd]. fold lo hi in Fd, Pd.
  destruct (Monotone.minCost_finite items V) as [Fl L0]. fold lo in Fl, L0.
  destruct (Monotone.maxCost_finite items V) as [_ H0]. fold hi in H0.
  destruct (yScale_top_bound items H V FD FH PH) as [_ TopE]. fold lo hi in TopE.
  split; [exact (Exact.yScale_bottom lo hi H Fl Fd Pd FH PH)|].
  split; [exact TopE|].
  split; [intros v Lv Hv; apply (yScale_inside items H v); assumption|].
  split; [apply (yScale_inside items H zero); assumption|].
  split; [apply (yScale_inside items H zero); assumption|].
  intros d I. destruct (item_cost_in_domain items d V I) as [Lc Hc].
  apply (yScale_inside items H (cost d)); assumption.
Qed.

Lemma costs_inside_plot_height_witness :
  let items := [item_of_row example_host (example_row "A" 10 5);
                item_of_row example_host (example_row "B" 20 (-3))] in
  let lo := minCost_of items in
  let hi := maxCost_of items in
  yScale lo hi (plot_H 400) lo = m_top + plot_H 400
  /\ yScale lo hi (plot_H 400) hi = m_top
  /\ (m_top <=? yZero (plot_H 400) lo hi) = true
  /\ (yZero (plot_H 400) lo hi <=? m_top + plot_H 400) = true.
Proof.
  intros items lo hi.
  destruct (costs_inside_plot_height items 400) as [Bot [Top [_ [Z1 [Z2 _]]]]];
    try reflexivity.
  split; [exact Bot|]. split; [apply Top; reflexivity|]. split; assumption.
Defined.

(** ** Style options *)

Lemma or_else_truthy (a b : value) : truthy b = true -> truthy (or_else a b) = true.
Proof. intros T. unfold or_else. destruct (truthy a) eqn:A; assumption. Qed.

Lemma truthy_not_nullish (v : value) : truthy v = true -> nullish v = false.
Proof. destruct v; simpl; congruence. Qed.

(** [getStyle] gives the fallback or a value that is not [null] or
    [undefined] *)
Lemma getStyle_cases (styleObj : value) (key : string) (fallback : value) :
  getStyle styleObj key fallback = fallback
  \/ nullish (getStyle styleObj key fallback) = false.
Proof.
  unfold getStyle, coalesce.
  destruct (truthy (get styleObj key)); cbn [negb]; [|left; reflexivity].
  destruct (nullish (get (get styleObj key) "value")) eqn:V; cbn [negb];
    [|right; exact V].
  destruct (nullish (get (get styleObj key) "defaultValue")) eqn:D;
    [left; reflexivity | right; exact D].
Qed.

(** X6: [getStyle] never returns [null] or [undefined] when the fallback is
    neither: whatever the style object holds under the key (nothing, a falsy
    entry, an entry without [value] and [defaultValue], [null] in either),
    the result is a usable value. *)
Theorem getStyle_never_nullish (styleObj : value) (key : string) (fallback : value) :
  nullish fallback = false -> nullish (getStyle styleObj key fallback) = false.
Proof.
  intros F. destruct (getStyle_cases styleObj key fallback) as [E | N].
  - rewrite E. exact F.
  - exact N.
Qed.

Lemma getStyle_never_nullish_witness :
  nullish (getStyle (VObj [("unit", VObj [("value", VNull); ("defaultValue", VNull)])])
                    "unit" (VStr "tCO2e")) = false.
Proof. apply getStyle_never_nullish. reflexivity. Defined.

(** X7: whatever [data.style] holds, the three colours that [draw] uses are
    truthy (never [undefined], [null] or the empty string), the other
    options are never [null] or [undefined], and with no style object at all
    every option has its default. *)
Theorem style_options_usable (B : Builtins) (d : data) :
  truthy (posColor_of d) = true /\ truthy (negColor_of d) = true
  /\ truthy (axisColor_of d) = true
  /\ nullish (showLabels_of d) = false /\ nullish (currency_of d) = false
  /\ nullish (unit_of d) = false
  /\ (truthy (style d) = false ->
      posColor_of d = VStr "#4C78A8" /\ negColor_of d = VStr "#72B7B2"
      /\ axisColor_of d = VStr "#333333" /\ showLabels_of d = VBool true
      /\ currency_of d = VStr "R$" /\ unit_of d = VStr "tCO2e"
      /\ decimals_of B d = 2%float).
Proof.
  assert (U : forall k f, nullish f = false ->
                nullish (getStyle (styles_of d) k f) = false).
  { intros k f F. destruct (getStyle_cases (styles_of d) k f) as [E | N];
      [rewrite E; exact F | exact N]. }
  split; [apply or_else_truthy; reflexivity|].
  split; [apply or_else_truthy; reflexivity|].
  split; [apply or_else_truthy; reflexivity|].
  split; [apply U; reflexivity|]. split; [apply U; reflexivity|].
  split; [apply U; reflexivity|].
  intros S.
  unfold posColor_of, negColor_of, axisColor_of, showLabels_of, currency_of, unit_of,
    decimals_of, decimals_option, color_option, styles_of, or_else.
  rewrite S. repeat split.
Qed.

(** ** Rows *)

(** X8: a row without a usable quantity is dropped: when the abatement
    field is missing, [null], an empty array or an array that starts with
    [null] or [undefined], the quantity defaults to 0 and the filter rejects
    the row, whatever its other fields are. *)
Theorem row_without_quantity_dropped (B : Builtins) (before after : list row) (r : row) :
  nullish (first_cell (abatementMetric r)) = true ->
  abatement (item_of_row B r) = zero
  /\ items_of B (before ++ r :: after) = items_of B (before ++ after).
Proof.
  intros N.
  assert (A : abatement (item_of_row B r) = zero).
  { unfold item_of_row, coalesce. cbn [abatement]. rewrite N. reflexivity. }
  split; [exact A|].
  unfold items_of. rewrite !map_app, !filter_app. cbn [map filter].
  unfold keep at 2. rewrite A. reflexivity.
Qed.

Lemma row_without_quantity_dropped_witness :
  let r := {| actionDim := VArr [VStr "C"]; abatementMetric := VArr [];
              costMetric := VArr [VNum 7]; categoryDim := VUndefined |} in
  abatement (item_of_row example_host r) = zero
  /\ items_of example_host ([example_row "A" 10 5] ++ r :: [example_row "B" 20 (-3)])
     = items_of example_host ([example_row "A" 10 5] ++ [example_row "B" 20 (-3)]).
Proof.
  intros r. apply (row_without_quantity_dropped example_host). reflexivity.
Defined.

(** ** Sorting *)

(** X10: for two items whose costs are numbers the comparator
    [a.cost - b.cost] is positive exactly when [a] costs more than [b]: the
    difference of two different costs never rounds to zero, however close
    they are. *)
Theorem comparator_sign (a b : item) :
  is_nan (cost a) = false -> is_nan (cost b) = false ->
  (zero <? by_cost a b) = (cost b <? cost a).
Proof. intros Na Nb. unfold by_cost. apply sub_positive; assumption. Qed.

Lemma comparator_sign_witness :
  let a := item_of_row example_host (example_row "A" 1 0x1p-1074) in
  let b := item_of_row example_host (example_row "B" 1 0) in
  (zero <? by_cost a b) = (cost b <? cost a).
Proof. intros a b. apply comparator_sign; reflexivity. Defined.

Lemma sorted_stays (l : list item) :
  StronglySorted cost_le l -> sort by_cost l = l.
Proof.
  induction 1 as [|x l S IH F]; [reflexivity|].
  cbn [sort fold_right]. fold (sort by_cost l). rewrite IH.
  destruct l as [|y rest]; [reflexivity|]. cbn [insert].
  destruct (zero <? by_cost x y) eqn:C; [|reflexivity].
  apply Properties.by_cost_positive in C.
  inversion F as [|? ? L _]; subst. unfold cost_le in L. clear - C L. float_lia.
Qed.

(** X11: sorting is idempotent when no cost is [NaN]: a redraw of data that
    is already in cost order leaves the order as it is. *)
Theorem sort_idempotent (items : list item) :
  no_nan_cost items ->
  sort by_cost (sort by_cost items) = sort by_cost items.
Proof. intros N. apply sorted_stays, Properties.sort_sorted, N. Qed.

Lemma sort_idempotent_witness :
  let items := [item_of_row example_host (example_row "A" 10 5);
                item_of_row example_host (example_row "B" 20 (-3))] in
  sort by_cost (sort by_cost items) = sort by_cost items.
Proof.
  intros items. apply sort_idempotent.
  repeat constructor.
Defined.

(** ** Plot size *)

Lemma sub_keeps_number (x c : float) :
  is_nan x = false -> isFinite c = true -> is_nan (x - c) = false.
Proof.
  intros N F. pose proof (Monotone.sub_mono c x x F (leb_refl x N)) as L.
  clear - L. float_lia.
Qed.

Lemma Math_max_pair_least (least y : float) :
  is_nan least = false -> is_nan y = false ->
  (least <=? Math_max [least; y]) = true.
Proof.
  intros Nl Ny. apply Math_max_ge; [exact Nl | | left; reflexivity].
  repeat constructor. exact Ny.
Qed.

(** X12: the plot never gets smaller than 100 by 80 pixels: for a viewport
    size that is a number, [W >= 100] and [H >= 80], and a finite viewport
    gives a finite plot; a [NaN] viewport size gives a [NaN] plot size. *)
Theorem plot_size_minimum (size : float) :
  (is_nan size = false ->
   (100 <=? plot_W size) = true /\ (80 <=? plot_H size) = true)
  /\ (isFinite size = true ->
      isFinite (plot_W size) = true /\ isFinite (plot_H size) = true)
  /\ (is_nan size = true -> plot_W size = nan /\ plot_H size = nan).
Proof.
  split; [|split].
  - intros N. unfold plot_W, plot_H.
    split; apply Math_max_pair_least; try reflexivity;
      apply sub_keeps_number; try reflexivity;
      apply sub_keeps_number; try reflexivity; exact N.
  - intros F. split; [apply Monotone.plot_W_finite | apply Monotone.plot_H_finite];
      exact F.
  - intros N. unfold plot_W, plot_H, Math_max. cbn [max_from].
    change (is_nan 100) with false. change (is_nan 80) with false. cbv iota.
    rewrite !(sub_nan_l _ _ (sub_nan_l _ _ N)). split; reflexivity.
Qed.

(** ** A label that cannot be printed *)

(** a node that is not a bar and holds no bar *)
Definition no_bar (n : node) : Prop := is_tag "rect" n = false /\ children_of n = [].

Lemma for_each_outcome {A} (xs : list A) (body : A -> Emit unit) (ok : A -> bool) :
  (forall x, snd (body x) = if ok x then Some tt else None) ->
  (forall x, Forall no_bar (fst (body x))) ->
  snd (for_each xs body) = (if forallb ok xs then Some tt else None)
  /\ Forall no_bar (fst (for_each xs body)).
Proof.
  intros R P. induction xs as [|x rest [IHr IHp]]; cbn [for_each forallb].
  - split; [reflexivity | constructor].
  - specialize (R x). specialize (P x). unfold bind.
    destruct (body x) as [out [[]|]]; cbn [fst snd] in *.
    + destruct (ok x); [|discriminate R]. cbn [andb].
      destruct (for_each rest body) as [out' r]. cbn [fst snd] in *.
      split; [exact IHr | apply Forall_app; split; assumption].
    + destruct (ok x); [discriminate R|]. split; [reflexivity | exact P].
Qed.

Lemma no_bar_children (l : list node) :
  Forall no_bar l ->
  filter (is_tag "rect") l = [] /\ flat_map children_of l = [].
Proof.
  induction 1 as [|n l [T C] _ [IH1 IH2]]; [split; reflexivity|].
  cbn [filter flat_map]. rewrite T, C, IH1, IH2. split; reflexivity.
Qed.

Section Throwing.
Variable B : Builtins.
Variables (W H total lo hi : float).
Variables (posColor negColor axisColor currency unit' : value) (decimals : float).

Let okx := fun i => is_some (fmtNumber B (xTick_value total i) 0).
Let oky := fun i => is_some (fmtNumber B (yTick_value lo hi i) decimals).

Lemma xTick_outcome (i : float) :
  snd (xTick B W H total lo hi axisColor unit' i) = (if okx i then Some tt else None)
  /\ Forall no_bar (fst (xTick B W H total lo hi axisColor unit' i)).
Proof.
  unfold xTick, okx. destruct (fmtNumber B (xTick_value total i) 0);
    cbn; split; try reflexivity; repeat constructor.
Qed.

Lemma yTick_outcome (i : float) :
  snd (yTick B W H lo hi axisColor currency decimals i) = (if oky i then Some tt else None)
  /\ Forall no_bar (fst (yTick B W H lo hi axisColor currency decimals i)).
Proof.
  unfold yTick, oky. destruct (fmtNumber B (yTick_value lo hi i) decimals);
    cbn; split; try reflexivity; repeat constructor.
Qed.

Lemma draw_chart_outcome (width height : float) (bars : list placed) :
  let chart := draw_chart B W H total lo hi posColor negColor axisColor currency unit'
                 decimals width height bars in
  let ok := forallb okx (upto xTicks) && forallb oky (upto yTicks) in
  snd chart = (if ok then Some tt else None)
  /\ (exists kids, fst chart
         = [Elem "svg" [("width", VNum width); ("height", VNum height);
                        ("style.font", VStr svg_font)] None kids]
       /\ (ok = false -> filter (is_tag "rect") (flat_map children_of kids) = [])).
Proof.
  intros chart ok. subst chart ok. unfold draw_chart, within, bind.
  destruct (for_each_outcome (upto xTicks) (xTick B W H total lo hi axisColor unit') okx
              (fun i => proj1 (xTick_outcome i)) (fun i => proj2 (xTick_outcome i)))
    as [RX PX].
  destruct (for_each_outcome (upto yTicks) (yTick B W H lo hi axisColor currency decimals) oky
              (fun i => proj1 (yTick_outcome i)) (fun i => proj2 (yTick_outcome i)))
    as [RY PY].
  rewrite Properties.draw_bars_returns.
  destruct (no_bar_children _ PX) as [FX _]. destruct (no_bar_children _ PY) as [_ CY].
  destruct (for_each (upto xTicks) _) as [outx rx].
  destruct (for_each (upto yTicks) _) as [outy ry].
  cbn [fst snd append] in *. rewrite RX, RY. clear RX RY.
  destruct (forallb okx (upto xTicks)); cbn [fst snd andb app].
  - destruct (forallb oky (upto yTicks)); cbn [fst snd andb app].
    + split; [reflexivity|]. eexists. split; [reflexivity | discriminate].
    + split; [reflexivity|]. eexists. split; [reflexivity|]. intros _.
      cbn [flat_map children_of]. rewrite CY, app_nil_r.
      cbn [filter is_tag tag_of String.eqb Ascii.eqb Bool.eqb xAxis]. exact FX.
  - split; [reflexivity|]. eexists. split; [reflexivity|]. intros _.
    cbn [flat_map children_of]. rewrite app_nil_r.
    cbn [filter is_tag tag_of String.eqb Ascii.eqb Bool.eqb xAxis]. exact FX.
Qed.

End Throwing.

(** X13: when the locale printer refuses one of the axis labels (a
    [decimals] option outside the range it accepts), [draw] throws before any
    bar is drawn. *)
Theorem unprintable_label_stops_draw (B : Builtins) (d : data) (width height : float) :
  let items := sort by_cost (items_of B (tables_DEFAULT d)) in
  let o := draw B d width height in
  items_of B (tables_DEFAULT d) <> [] ->
  labels_format B d items = false ->
  returned o = false /\ rects o = [].
Proof.
  intros items o N L. subst o. unfold draw. fold items.
  destruct (items_of B (tables_DEFAULT d)) as [|i0 rest] eqn:E; [congruence|].
  destruct (draw_chart_outcome B (plot_W width) (plot_H height) (total_of items)
              (minCost_of items) (maxCost_of items) (posColor_of d) (negColor_of d)
              (axisColor_of d) (currency_of d) (unit_of d) (decimals_of B d)
              width height (accumulate zero items)) as [R [kids [K F]]].
  unfold labels_format in L.
  unfold rects, svg_children. cbn [root_children returned].
  rewrite R, K. split.
  - rewrite L. reflexivity.
  - apply F, L.
Qed.

Lemma unprintable_label_stops_draw_witness :
  let d := {| style := VObj [("decimals", VObj [("value", VNum 500)])];
              fields_actionDim := [];
              tables_DEFAULT := [example_row "A" 10 5; example_row "B" 20 (-3)] |} in
  returned (draw example_host d 600 400) = false
  /\ rects (draw example_host d 600 400) = [].
Proof.
  intros d.
  apply (unprintable_label_stops_draw example_host d 600 400).
  - vm_compute. discriminate.
  - reflexivity.
Defined.

(** ** Ticks and gridlines *)

Lemma SFmul_comm (x y : spec_float) : SF64mul x y = SF64mul y x.
Proof.
  destruct x as [sx|sx| |sx mx ex], y as [sy|sy| |sy my ey]; try reflexivity;
    unfold SF64mul, SFmul; rewrite (xorb_comm sx sy); try reflexivity.
  rewrite (Pos.mul_comm mx my), (Z.add_comm ex ey). reflexivity.
Qed.

Lemma mul_comm (x y : float) : x * y = y * x.
Proof. apply Prim2SF_inj. rewrite !mul_spec. apply SFmul_comm. Qed.

Lemma mul_zeros (c z : float) : isFinite c = true -> p1 z = 0%Z -> p1 (c * z) = 0%Z.
Proof.
  intros F Z. apply isFinite_true in F. destruct (zero_cases z Z) as [s E].
  unfold p1 in *. rewrite mul_spec, E.
  destruct (Prim2SF c) as [[|]|[|]| |[|] m e]; cbn [pos fst snd] in F; try lia;
    destruct s; reflexivity.
Qed.

Lemma div_zeros (z c : float) :
  isFinite c = true -> (zero <? c) = true -> p1 z = 0%Z -> p1 (z / c) = 0%Z.
Proof.
  intros F P Z. destruct (Monotone.positive_shape c F P) as [m [e [E _]]].
  destruct (zero_cases z Z) as [s Ez].
  unfold p1. rewrite div_spec, E, Ez. destruct s; reflexivity.
Qed.

Lemma add_zero_any (a z : float) :
  isFinite a = true -> is_zero a = false -> p1 z = 0%Z -> a + z = a.
Proof.
  intros F N Z. apply isFinite_true in F. apply is_zero_false in N.
  destruct (zero_cases z Z) as [s E].
  apply Prim2SF_inj. rewrite add_spec, E. unfold p1 in *.
  destruct (Prim2SF a) as [[|]|[|]| |[|] m e]; cbn [pos fst snd] in *;
    try lia; reflexivity.
Qed.

Lemma sub_zero_any (a z : float) :
  isFinite a = true -> is_zero a = false -> p1 z = 0%Z -> a - z = a.
Proof.
  intros F N Z. apply isFinite_true in F. apply is_zero_false in N.
  destruct (zero_cases z Z) as [s E].
  apply Prim2SF_inj. rewrite sub_spec, E. unfold p1 in *.
  destruct (Prim2SF a) as [[|]|[|]| |[|] m e]; cbn [pos fst snd] in *;
    try lia; reflexivity.
Qed.

(** the greatest finite number *)
Definition highest_number : float := 0x1.fffffffffffffp+1023%float.

Lemma finite_upper (x : float) : isFinite x = true -> (x <=? highest_number) = true.
Proof.
  intros F. apply isFinite_true in F. apply leb_true. pose proof (Prim2SF_valid x) as V.
  unfold below, p1, p2, p3 in *.
  change (Prim2SF highest_number) with (S754_finite false 9007199254740991 971).
  destruct (Prim2SF x) as [[|]|[|]| |[|] m e]; cbn [pos fst snd] in *; try lia.
  cbn [valid_binary] in V. pose proof (Rounding.bounded_shape m e V) as [_ [D _]].
  unfold bounded in V. apply andb_true_iff in V. destruct V as [_ E].
  apply Z.leb_le in E. change (FloatOps.emax - FloatOps.prec)%Z with 971%Z in E.
  change (Zpos (digits2_pos m)) with (Zdigits2 (Zpos m)) in D.
  destruct (Rounding.Zdigits2_bounds (Zpos m) ltac:(lia)) as [_ U].
  assert (2 ^ Zdigits2 (Zpos m) <= 2 ^ 53)%Z by (apply Z.pow_le_mono_r; lia).
  change (2 ^ 53)%Z with 9007199254740992%Z in *. lia.
Qed.

(** multiplying by a finite number that is not negative keeps the order of
    finite numbers *)
Lemma mul_mono_l (c x1 x2 : float) :
  isFinite c = true -> (zero <=? c) = true ->
  isFinite x1 = true -> isFinite x2 = true ->
  (x1 <=? x2) = true -> (c * x1 <=? c * x2) = true.
Proof.
  intros F P F1 F2 L. destruct (zero <? c) eqn:C.
  - rewrite (mul_comm c x1), (mul_comm c x2). apply Monotone.mul_mono; assumption.
  - assert (Z : p1 c = 0%Z) by (clear - P C F; float_lia).
    rewrite (mul_comm c x1), (mul_comm c x2).
    pose proof (mul_zeros x1 c F1 Z). pose proof (mul_zeros x2 c F2 Z).
    apply leb_true. lia.
Qed.

Lemma map_sorted {A C} (R : A -> A -> Prop) (R' : C -> C -> Prop) (f : A -> C)
    (l : list A) :
  (forall a b, In a l -> In b l -> R a b -> R' (f a) (f b)) ->
  StronglySorted R l -> StronglySorted R' (map f l).
Proof.
  intros M S. induction S as [|a l S IH F]; [constructor|].
  cbn [map]. constructor.
  - apply IH. intros x y Ix Iy. apply M; right; assumption.
  - rewrite Forall_forall in *. intros y I. apply in_map_iff in I.
    destruct I as [b [<- I]]. apply M; [left; reflexivity | right; exact I | apply F, I].
Qed.

(** the counter of either loop runs through finite numbers in ascending
    order *)
Lemma upto_ascending (n : nat) :
  (n <= 6)%nat ->
  StronglySorted (fun a b => (a <=? b) = true) (upto n)
  /\ Forall (fun i => isFinite i = true /\ (zero <=? i) = true) (upto n).
Proof.
  intros L.
  do 7 (destruct n as [|n]; [vm_compute; split; repeat constructor|]). lia.
Qed.

Lemma xScale_of_zero (T W v : float) :
  isFinite T = true -> (zero <? T) = true ->
  isFinite W = true -> (zero <? W) = true ->
  p1 v = 0%Z -> xScale T W v = m_left.
Proof.
  intros FT PT FW PW Z. unfold xScale.
  pose proof (div_zeros v T FT PT Z) as Zd.
  pose proof (mul_zeros W (v / T) FW Zd) as Zm. rewrite mul_comm in Zm.
  apply add_zero_any; [reflexivity | reflexivity | exact Zm].
Qed.

Lemma tick_step (T : float) :
  isFinite T = true -> (zero <? T) = true ->
  isFinite (T / 6) = true /\ (zero <=? T / 6) = true.
Proof.
  intros F P.
  pose proof (Monotone.div_mono 6 zero T eq_refl eq_refl (ltb_leb _ _ P)) as L.
  pose proof (Monotone.div_mono 6 T highest_number eq_refl eq_refl (finite_upper T F)) as U.
  change (zero / 6) with zero in L.
  set (k := highest_number / 6) in *.
  assert (Pk : p1 k = 1%Z) by reflexivity.
  split; [|exact L]. apply isFinite_true.
  apply leb_true in L, U. pose proof (place_range (T / 6)) as R.
  unfold below, well_placed in *. change (p1 zero) with 0%Z in *. lia.
Qed.

(** X15: with a finite viewport width and a finite total the seven
    quantity ticks are laid out from left to right, the first one at
    [m.left]. *)
Theorem quantity_ticks_left_to_right (B : Builtins) (rows : list row) (width : float) :
  let items := sort by_cost (items_of B rows) in
  let total := total_of items in
  let W := plot_W width in
  let tick_x := fun i => xScale total W (xTick_value total i) in
  items_of B rows <> [] -> isFinite width = true -> isFinite total = true ->
  tick_x (num 0) = m_left
  /\ StronglySorted (fun a b => (a <=? b) = true) (map tick_x (upto xTicks)).
Proof.
  intros items total W tick_x N Fw FT.
  destruct (Monotone.plot_W_finite width Fw) as [FW PW]. fold W in FW, PW.
  assert (N' : items <> []) by (apply Properties.sort_nonempty, N).
  pose proof (Monotone.total_positive items N' (sorted_items_kept B rows)) as PT.
  fold total in PT.
  destruct (tick_step total FT PT) as [Fc Pc].
  destruct (upto_ascending xTicks ltac:(unfold xTicks; lia)) as [S F].
  subst tick_x. unfold xTick_value. change (num xTicks) with 6. split.
  - apply xScale_of_zero; try assumption. apply mul_zeros; [exact Fc | reflexivity].
  - apply (map_sorted (fun a b => (a <=? b) = true)); [|exact S].
    rewrite Forall_forall in F. intros a b Ia Ib L.
    apply Monotone.xScale_mono; try assumption.
    apply mul_mono_l; try assumption; [apply (F a Ia) | apply (F b Ib)].
Qed.

Lemma quantity_ticks_left_to_right_witness :
  let rows := [example_row "A" 10 5; example_row "B" 20 (-3)] in
  let total := total_of (sort by_cost (items_of example_host rows)) in
  let tick_x := fun i => xScale total (plot_W 600) (xTick_value total i) in
  tick_x (num 0) = m_left
  /\ StronglySorted (fun a b => (a <=? b) = true) (map tick_x (upto xTicks)).
Proof.
  intros rows total tick_x.
  apply (quantity_ticks_left_to_right example_host rows 600); try reflexivity.
  vm_compute. discriminate.
Defined.

Lemma yScale_of_zero_offset (lo hi H v : float) :
  isFinite (divisor lo hi) = true -> (zero <? divisor lo hi) = true ->
  isFinite H = true -> (zero <? H) = true ->
  p1 (v - lo) = 0%Z -> yScale lo hi H v = m_top + H.
Proof.
  intros Fd Pd FH PH Z. unfold yScale.
  pose proof (div_zeros (v - lo) _ Fd Pd Z) as Zd.
  pose proof (mul_zeros H _ FH Zd) as Zm. rewrite mul_comm in Zm.
  rewrite sub_zero_any; [reflexivity | exact FH | clear - PH; float_lia | exact Zm].
Qed.

Lemma fifths_finite :
  Forall (fun i => isFinite (i / 5) = true) (upto yTicks).
Proof. vm_compute. repeat constructor. Qed.

(** X16: for valid items with a finite cost span and a finite viewport
    height the six gridlines are laid out from the bottom of the plot
    upwards, the first one on the bottom edge [m.top + H]. *)
Theorem gridlines_bottom_to_top (items : list item) (height : float) :
  let lo := minCost_of items in
  let hi := maxCost_of items in
  let H := plot_H height in
  let grid_y := fun i => yScale lo hi H (yTick_value lo hi i) in
  forallb valid_item items = true -> isFinite (hi - lo) = true ->
  isFinite height = true ->
  grid_y (num 0) = m_top + H
  /\ StronglySorted (fun a b => (b <=? a) = true) (map grid_y (upto yTicks)).
Proof.
  intros lo hi H grid_y V FD Fh.
  destruct (Monotone.plot_H_finite height Fh) as [FH PH]. fold H in FH, PH.
  destruct (Monotone.divisor_positive items V FD) as [Fd Pd]. fold lo hi in Fd, Pd.
  destruct (Monotone.minCost_finite items V) as [Fl _]. fold lo in Fl.
  assert (Ps : (zero <=? hi - lo) = true).
  { unfold divisor in Pd. destruct (num_truthy (hi - lo)) eqn:T.
    - apply ltb_leb, Pd.
    - apply num_truthy_false in T. apply isFinite_true in FD.
      apply leb_true. change (p1 zero) with 0%Z. lia. }
  destruct (upto_ascending yTicks ltac:(unfold yTicks; lia)) as [S F].
  pose proof fifths_finite as F5.
  subst grid_y. unfold yTick_value. change (num yTicks) with 5. split.
  - apply yScale_of_zero_offset; try assumption.
    change (num 0 / 5) with zero.
    assert (Z : p1 (zero * (hi - lo)) = 0%Z).
    { rewrite mul_comm. apply mul_zeros; [exact FD | reflexivity]. }
    destruct (is_zero lo) eqn:Zl.
    + apply sub_zeros; [apply Layout.add_zeros; [|exact Z] |]; float_lia.
    + rewrite add_zero_any by assumption.
      rewrite Exact.sub_self by exact Fl. reflexivity.
  - apply (map_sorted (fun a b => (a <=? b) = true)); [|exact S].
    rewrite Forall_forall in F, F5. intros a b Ia Ib L.
    apply Monotone.yScale_anti; try assumption.
    apply Monotone.add_mono; [exact Fl|].
    rewrite (mul_comm (a / 5)), (mul_comm (b / 5)).
    apply mul_mono_l; try assumption; [apply (F5 a Ia) | apply (F5 b Ib) |].
    apply Monotone.div_mono; [reflexivity | reflexivity | exact L].
Qed.

Lemma gridlines_bottom_to_top_witness :
  let items := [item_of_row example_host (example_row "A" 10 5);
                item_of_row example_host (example_row "B" 20 (-3))] in
  let lo := minCost_of items in
  let hi := maxCost_of items in
  let grid_y := fun i => yScale lo hi (plot_H 400) (yTick_value lo hi i) in
  grid_y (num 0) = m_top + plot_H 400
  /\ StronglySorted (fun a b => (b <=? a) = true) (map grid_y (upto yTicks)).
Proof.
  intros items lo hi grid_y.
  apply (gridlines_bottom_to_top items 400); reflexivity.
Defined.

(** ** Bars and the baseline *)

(** X17: for valid items with a finite cost span and a finite viewport
    height every bar hangs on the baseline on the right side: its top edge
    is the higher of [yScale(cost)] and [yZero] on screen (the smaller pixel
    value), so a bar of non-negative cost rises from the baseline and a bar
    of negative cost hangs below it. *)
Theorem bars_hang_on_baseline (items : list item) (height W total : float)
    (posColor negColor : value) (p : placed) :
  let lo := minCost_of items in
  let hi := maxCost_of items in
  let H := plot_H height in
  let b := bar_of W H total lo hi posColor negColor p in
  forallb valid_item items = true -> isFinite (hi - lo) = true ->
  isFinite height = true -> In (it p) items ->
  (bar_y b <=? yZero H lo hi) = true
  /\ (bar_y b <=? yScale lo hi H (cost (it p))) = true.
Proof.
  intros lo hi H b V FD Fh I.
  destruct (Monotone.plot_H_finite height Fh) as [FH PH]. fold H in FH, PH.
  destruct (Monotone.divisor_positive items V FD) as [Fd Pd]. fold lo hi in Fd, Pd.
  destruct (Monotone.minCost_finite items V) as [Fl _]. fold lo in Fl.
  assert (Fc : isFinite (cost (it p)) = true).
  { apply (Monotone.valid_costs items V). right. apply in_map, I. }
  assert (A : forall v1 v2, (v1 <=? v2) = true ->
                (yScale lo hi H v2 <=? yScale lo hi H v1) = true).
  { intros v1 v2 L. apply Monotone.yScale_anti; assumption. }
  subst b. unfold bar_of, yZero. cbn [bar_y].
  destruct (zero <=? cost (it p)) eqn:C.
  - split; [apply A, C | apply A, leb_refl; clear - Fc; float_lia].
  - split; [apply A; reflexivity | apply A; clear - C Fc; float_lia].
Qed.

Lemma bars_hang_on_baseline_witness :
  let items := [item_of_row example_host (example_row "A" 10 5);
                item_of_row example_host (example_row "B" 20 (-3))] in
  let p := {| it := item_of_row example_host (example_row "B" 20 (-3));
              x0 := 0; x1 := 20 |} in
  let lo := minCost_of items in
  let hi := maxCost_of items in
  let b := bar_of (plot_W 600) (plot_H 400) 30 lo hi (VStr "blue") (VStr "green") p in
  (bar_y b <=? yZero (plot_H 400) lo hi) = true
  /\ (bar_y b <=? yScale lo hi (plot_H 400) (cost (it p))) = true.
Proof.
  intros items p lo hi b.
  apply (bars_hang_on_baseline items 400 (plot_W 600) 30 (VStr "blue") (VStr "green") p);
    try reflexivity.
  right. left. reflexivity.
Defined.

(** ** A cost that is not a number *)

Lemma min_from_nan (xs : list float) : forall l x,
  In x xs -> is_nan x = true -> min_from l xs = nan.
Proof.
  induction xs as [|n rest IH]; intros l x I N; [destruct I|].
  cbn [min_from]. destruct (is_nan n) eqn:Nn; [reflexivity|].
  destruct I as [-> | I]; [congruence|]. eapply IH; eassumption.
Qed.

Lemma max_from_nan (xs : list float) : forall h x,
  In x xs -> is_nan x = true -> max_from h xs = nan.
Proof.
  induction xs as [|n rest IH]; intros h x I N; [destruct I|].
  cbn [max_from]. destruct (is_nan n) eqn:Nn; [reflexivity|].
  destruct I as [-> | I]; [congruence|]. eapply IH; eassumption.
Qed.

Lemma yScale_nan (hi H v : float) : is_nan (yScale nan hi H v) = true.
Proof.
  apply is_nan_true. unfold yScale, p1.
  rewrite add_spec, sub_spec, mul_spec, div_spec, sub_spec.
  change (Prim2SF nan) with S754_nan.
  destruct (Prim2SF v), (Prim2SF (divisor nan hi)), (Prim2SF H), (Prim2SF m_top);
    reflexivity.
Qed.

(** X18: one kept item whose cost is [NaN] spoils the whole cost axis:
    [minCost] and [maxCost] are [NaN], [yScale] maps every cost to [NaN],
    and every bar, of whatever item, gets a [NaN] top edge and a [NaN]
    height. *)
Theorem nan_cost_spoils_cost_axis (items : list item) (d : item) (W H total : float)
    (posColor negColor : value) :
  let lo := minCost_of items in
  let hi := maxCost_of items in
  In d items -> is_nan (cost d) = true ->
  lo = nan /\ hi = nan
  /\ (forall v, is_nan (yScale lo hi H v) = true)
  /\ (forall p, is_nan (bar_y (bar_of W H total lo hi posColor negColor p)) = true
                /\ bar_h (bar_of W H total lo hi posColor negColor p) = nan).
Proof.
  intros lo hi I N.
  assert (Ic : In (cost d) (zero :: map cost items)) by (right; apply in_map, I).
  assert (El : lo = nan) by (apply (min_from_nan _ _ (cost d)); assumption).
  assert (Eh : hi = nan) by (apply (max_from_nan _ _ (cost d)); assumption).
  rewrite El. split; [reflexivity|]. split; [exact Eh|]. split.
  - intros v. apply yScale_nan.
  - intros p. unfold bar_of, yZero. cbn [bar_y bar_h]. split.
    + destruct (zero <=? cost (it p)); apply yScale_nan.
    + apply Math_max_one_nan. rewrite Math_abs_nan. apply sub_nan_l, yScale_nan.
Qed.

Lemma nan_cost_spoils_cost_axis_witness :
  let items := [item_of_row example_host (example_row "A" 10 5);
                item_of_row example_host (example_row "B" 20 nan)] in
  minCost_of items = nan /\ maxCost_of items = nan.
Proof.
  intros items.
  destruct (nan_cost_spoils_cost_axis items
              (item_of_row example_host (example_row "B" 20 nan))
              520 334 30 (VStr "blue") (VStr "green")) as [L [U _]].
  - right. left. reflexivity.
  - reflexivity.
  - split; assumption.
Defined.

(** ** The size of a bar *)

Lemma between_finite (lowest x highest : float) :
  isFinite lowest = true -> isFinite highest = true ->
  (lowest <=? x) = true -> (x <=? highest) = true -> isFinite x = true.
Proof.
  intros Fl Fh L U. apply isFinite_true. apply isFinite_true in Fl, Fh.
  apply leb_true in L, U. unfold below in *. lia.
Qed.

Lemma edge_finite (least size : float) :
  isFinite least = true -> least + zero = least ->
  highest_number + least = highest_number ->
  isFinite size = true -> (zero <=? size) = true ->
  isFinite (least + size) = true.
Proof.
  intros Fl Z E F P.
  pose proof (Monotone.add_mono least size highest_number Fl (finite_upper size F)) as U.
  rewrite (Monotone.add_comm least highest_number), E in U.
  pose proof (Monotone.add_mono least zero size Fl P) as L. rewrite Z in L.
  apply (between_finite least _ highest_number); try reflexivity; assumption.
Qed.

Lemma bar_edges_inside (items : list item) (width : float) (p : placed) :
  let total := total_of items in
  let W := plot_W width in
  forallb keep items = true ->
  isFinite width = true -> isFinite total = true ->
  In p (accumulate zero items) ->
  (m_left <=? xScale total W (x0 p)) = true
  /\ (xScale total W (x0 p) <=? xScale total W (x1 p)) = true
  /\ (xScale total W (x1 p) <=? m_left + W) = true.
Proof.
  intros total W K Fw FT I.
  destruct (Monotone.plot_W_finite width Fw) as [FW PW]. fold W in FW, PW.
  assert (N : items <> []) by (intros E; rewrite E in I; destruct I).
  pose proof (Monotone.total_positive items N K) as PT. fold total in PT.
  destruct (Layout.accumulate_grows items zero p eq_refl K I) as [L0 [L1 L2]].
  fold (total_of items) in L2. fold total in L2.
  split; [|split].
  - rewrite <- (Exact.xScale_start total W FT PT FW PW).
    apply Monotone.xScale_mono; assumption.
  - apply Monotone.xScale_mono; assumption.
  - rewrite <- (Exact.xScale_end total W FT PT FW PW).
    apply Monotone.xScale_mono; assumption.
Qed.

(** X19: for valid items whose total and cost span are finite, and a finite
    viewport, every bar is at least one pixel wide and one pixel high: the
    two distances that [Math.max(1, ...)] guards are numbers, never [NaN]. *)
Theorem bars_at_least_one_pixel (items : list item) (width height : float)
    (posColor negColor : value) (p : placed) :
  let total := total_of items in
  let lo := minCost_of items in
  let hi := maxCost_of items in
  let b := bar_of (plot_W width) (plot_H height) total lo hi posColor negColor p in
  forallb valid_item items = true ->
  isFinite total = true -> isFinite (hi - lo) = true ->
  isFinite width = true -> isFinite height = true ->
  In p (accumulate zero items) ->
  (1 <=? bar_w b) = true /\ (1 <=? bar_h b) = true.
Proof.
  intros total lo hi b V FT FD Fw Fh I.
  destruct (Monotone.plot_W_finite width Fw) as [FW PW].
  destruct (Monotone.plot_H_finite height Fh) as [FH PH].
  destruct (bar_edges_inside items width p (Monotone.valid_items_keep items V) Fw FT I)
    as [X0 [X1 X2]]. fold total in X0, X1, X2.
  assert (Ii : In (it p) items).
  { rewrite <- (Properties.accumulate_it zero items). apply in_map, I. }
  destruct (item_cost_in_domain items (it p) V Ii) as [Lc Hc]. fold lo hi in Lc, Hc.
  destruct (yScale_inside items (plot_H height) (cost (it p)) V FD FH PH Lc Hc)
    as [C0 C1]. fold lo hi in C0, C1.
  destruct (Monotone.minCost_finite items V) as [_ L0]. fold lo in L0.
  destruct (Monotone.maxCost_finite items V) as [_ H0]. fold hi in H0.
  destruct (yScale_inside items (plot_H height) zero V FD FH PH L0 H0) as [Z0 Z1].
  fold lo hi in Z0, Z1.
  assert (FR : isFinite (m_left + plot_W width) = true).
  { apply edge_finite; try reflexivity; [exact FW | apply ltb_leb, PW]. }
  assert (FB : isFinite (m_top + plot_H height) = true).
  { apply edge_finite; try reflexivity; [exact FH | apply ltb_leb, PH]. }
  subst b. unfold bar_of. cbn [bar_w bar_h]. split.
  - apply Math_max_one_ge, sub_keeps_number.
    + clear - X1. float_lia.
    + apply (between_finite m_left _ (m_left + plot_W width)); try reflexivity;
        try assumption. exact (leb_trans _ _ _ X1 X2).
  - apply Math_max_one_ge. rewrite Math_abs_nan. apply sub_keeps_number.
    + clear - C0. float_lia.
    + apply (between_finite m_top _ (m_top + plot_H height)); try reflexivity; assumption.
Qed.

Lemma bars_at_least_one_pixel_witness :
  let items := [item_of_row example_host (example_row "B" 20 (-3));
                item_of_row example_host (example_row "A" 10 5)] in
  let p := {| it := item_of_row example_host (example_row "A" 10 5);
              x0 := 20; x1 := 30 |} in
  let b := bar_of (plot_W 600) (plot_H 400) (total_of items) (minCost_of items)
             (maxCost_of items) (VStr "blue") (VStr "green") p in
  (1 <=? bar_w b) = true /\ (1 <=? bar_h b) = true.
Proof.
  intros items p b.
  apply (bars_at_least_one_pixel items 600 400 (VStr "blue") (VStr "green") p);
    try reflexivity.
  right. left. reflexivity.
Defined.

End Behaviour.

(* ===================================================================== *)
(** * The degenerate cost domain                                         *)
(* ===================================================================== *)

Module Degenerate.
Import JS Macc FloatFacts.
Local Open Scope Z_scope.
Local Open Scope float_scope.

(** C5: the divisor of the cost scale is never zero (and never [NaN]),
    whatever the cost domain is.  When [maxCost == minCost] the divisor is 1,
    the domain holds only [+0] and [-0], and every cost of the domain, in
    particular every item's cost, is mapped to the pixel row of the
    baseline; for a finite viewport height that row is the number
    [m.top + H], the bottom edge of the plot, and every bar starts there with
    the minimum height of 1 pixel. *)
Theorem degenerate_domain_maps_to_baseline (items : list item) (height W total : float)
    (posColor negColor : value) :
  let minCost := minCost_of items in
  let maxCost := maxCost_of items in
  let H := plot_H height in
  let bar := bar_of W H total minCost maxCost posColor negColor in
  (forall lo hi : float,
     is_zero (divisor lo hi) = false /\ is_nan (divisor lo hi) = false)
  /\ ((maxCost =? minCost) = true ->
      divisor minCost maxCost = 1
      /\ (forall v, (minCost <=? v) = true -> (v <=? maxCost) = true ->
            is_zero v = true
            /\ yScale minCost maxCost H v = yZero H minCost maxCost)
      /\ (forall d, In d items ->
            is_zero (cost d) = true
            /\ yScale minCost maxCost H (cost d) = yZero H minCost maxCost)
      /\ (isFinite height = true ->
          isFinite (m_top + H) = true
          /\ yZero H minCost maxCost = m_top + H
          /\ (forall p, In (it p) items ->
                bar_y (bar p) = m_top + H /\ bar_h (bar p) = 1))).
Proof.
  intros minCost maxCost H bar. split.
  { intros lo hi. unfold divisor. destruct (num_truthy (hi - lo)) eqn:T.
    - apply num_truthy_true in T. split; [apply is_zero_false | apply is_nan_false]; tauto.
    - split; reflexivity. }
  intros E.
  destruct (Properties.flat_domain_zero items E) as [Zl [Zh Zc]].
  fold minCost in Zl. fold maxCost in Zh.
  destruct (Properties.flat_domain_scale items height E) as [_ [D [Yv Yd]]].
  fold minCost maxCost H in D, Yv, Yd.
  split; [exact D|]. split; [|split].
  - intros v L U. split; [|apply Yv; assumption].
    apply is_zero_true. clear - L U Zl Zh. float_lia.
  - intros d I. split; [apply is_zero_true, Zc, I | apply Yd, I].
  - intros Fh.
    destruct (Monotone.plot_H_finite height Fh) as [FH PH]. fold H in FH, PH.
    assert (FB : isFinite (m_top + H) = true).
    { apply Behaviour.edge_finite; try reflexivity; [exact FH | apply ltb_leb, PH]. }
    assert (Z : yZero H minCost maxCost = m_top + H).
    { unfold yZero. apply Behaviour.yScale_of_zero_offset; try assumption;
        try (rewrite D; reflexivity).
      apply sub_zeros; [reflexivity | exact Zl]. }
    split; [exact FB|]. split; [exact Z|].
    intros p I. subst bar. unfold bar_of. cbn [bar_y bar_h].
    rewrite (Yd (it p) I), Z, Exact.sub_self by exact FB.
    split; [destruct (zero <=? cost (it p)); reflexivity | reflexivity].
Qed.

Lemma degenerate_domain_maps_to_baseline_witness :
  let items := [item_of_row example_host (example_row "A" 10 0);
                item_of_row example_host (example_row "B" 20 (-0))] in
  let p := {| it := item_of_row example_host (example_row "B" 20 (-0));
              x0 := 10; x1 := 30 |} in
  let bar := bar_of (plot_W 600) (plot_H 400) 30 (minCost_of items) (maxCost_of items)
               (VStr "blue") (VStr "green") in
  (maxCost_of items =? minCost_of items) = true
  /\ divisor (minCost_of items) (maxCost_of items) = 1
  /\ yZero (plot_H 400) (minCost_of items) (maxCost_of items) = m_top + plot_H 400
  /\ bar_y (bar p) = m_top + plot_H 400 /\ bar_h (bar p) = 1.
Proof.
  intros items p bar.
  assert (E : (maxCost_of items =? minCost_of items) = true) by reflexivity.
  destruct (degenerate_domain_maps_to_baseline items 400 (plot_W 600) 30
              (VStr "blue") (VStr "green")) as [_ R].
  destruct (R E) as [D [_ [_ F]]].
  destruct (F eq_refl) as [_ [Z B]].
  destruct (B p) as [By Bh]; [right; left; reflexivity|].
  repeat split; assumption.
Defined.

End Degenerate.
